(** * WHIDS agent: detection pipeline and engine hot-reload

    A shallow embedding of the [hids] package (the [HIDS] structure, the
    rule/container synchronisation, the engine rebuild, the ingestion loop and
    the command-runner loop) together with the properties the specification
    states about them.  Further parts of the package follow: the channels
    and the hooks set up at start, the dump modes of the configuration, the
    cleanup of archived files, the switch on the commands of the manager and
    the cron routine, with properties read off the code.

    Conventions.
    - Go's [(value, error)] results are pairs [T * option error]; the value
      is kept even when the error is set, as in Go.
    - Every effect of the code (files, calls to the manager, log lines,
      standard output, events piped to the forwarder) is a field of an
      explicit state threaded through a small state monad.
    - Collaborators living outside the package (the gene engine, the JSON
      codec, the digest primitives, the manager client) are interfaces:
      type classes or records of functions. *)

From Stdlib Require Import ZArith String Ascii List Bool Lia.
From stdpp Require Import base option list strings gmap.

Local Open Scope string_scope.
Local Open Scope list_scope.
Local Open Scope Z_scope.

(** ** Go primitives used by the package *)

Definition error := string.

(** [uint64] increment, wrapping at 2^64. *)
Definition uint64_incr (n : Z) : Z := (n + 1) mod 2 ^ 64.

(** [int64] addition on [time.Duration], wrapping in two's complement. *)
Definition int64_add (a b : Z) : Z := (a + b + 2 ^ 63) mod 2 ^ 64 - 2 ^ 63.

Definition dquote : string := String (ascii_of_nat 34) EmptyString.

(** [strings.HasSuffix]. *)
Fixpoint HasSuffix (s suffix : string) : bool :=
  if String.eqb s suffix then true
  else match s with
       | EmptyString => false
       | String _ s' => HasSuffix s' suffix
       end.

(** [strings.SplitN(s, ".", 2)[0]]: the text before the first dot, or the
    whole string when it has none. *)
Fixpoint SplitN_dot_head (s : string) : string :=
  match s with
  | EmptyString => EmptyString
  | String c s' =>
      if Ascii.eqb c "."%char then EmptyString else String c (SplitN_dot_head s')
  end.

(** [fmt.Sprintln(e)] for one string operand, and the bytes a container is
    written as. *)
Definition Sprintln (e : string) : string := e +:+ String (ascii_of_nat 10) EmptyString.

Definition container_payload (cont : list string) : string :=
  fold_right (fun e acc => Sprintln e +:+ acc) EmptyString cont.

(** ** Paths ([path/filepath])

    The agent runs on Windows, where both the backslash and the slash
    separate path elements.  A path is kept as the list of its elements
    below the volume root, already cleaned; [Join] splits the element it is
    given at the separators and cleans the result as [filepath.Clean] does
    for a rooted path. *)

Definition Path := list string.

Definition IsPathSeparator (c : ascii) : bool :=
  Ascii.eqb c "\"%char || Ascii.eqb c "/"%char.

Fixpoint split_sep (s : string) : list string :=
  match s with
  | EmptyString => [EmptyString]
  | String c s' =>
      if IsPathSeparator c then EmptyString :: split_sep s'
      else match split_sep s' with
           | [] => [String c EmptyString]
           | x :: xs => String c x :: xs
           end
  end.

Definition clean_step (acc : Path) (c : string) : Path :=
  if String.eqb c "" || String.eqb c "." then acc
  else if String.eqb c ".." then removelast acc
  else acc ++ [c].

Definition Join (dir : Path) (elem : string) : Path :=
  fold_left clean_step (split_sep elem) dir.

(** [fi.Name()] of the file a path designates. *)
Definition Base (p : Path) : string := List.last p EmptyString.

(** [fmt.Sprintf("%s<ext>", path)]: the text is appended to the last
    element. *)
Definition path_append (p : Path) (ext : string) : Path :=
  match p with
  | [] => [ext]
  | _ => removelast p ++ [List.last p EmptyString +:+ ext]
  end.

Definition containerExt : string := ".cont.gz".

(** ** Command runner: adaptive polling (commandRunnerRoutine)

    The loop keeps two local variables, [sleep] and [burstDur]; durations are
    [time.Duration] values, that is [int64] nanoseconds.  Handling a command
    and posting its result back cannot reach these variables, and the loop
    never ends: its turns are followed over any finite run of answers from
    [FetchCommand]. *)

Module CommandRunner.

Definition Millisecond : Z := 1000000.
Definition Second : Z := 1000 * Millisecond.

Definition defaultSleep : Z := Second * 5.
Definition tgtBurstDur : Z := Second * 30.
Definition burstSleep : Z := Millisecond * 500.

(** What [FetchCommand] answered: a command ([err == nil]),
    [api.ErrNothingToDo], or another error. *)
Inductive Fetched (Cmd : Type) :=
| GotCommand (cmd : Cmd)
| NothingToDo
| FetchError (err : error).
Arguments GotCommand {Cmd} cmd.
Arguments NothingToDo {Cmd}.
Arguments FetchError {Cmd} err.

Definition is_command {Cmd} (f : Fetched Cmd) : bool :=
  match f with GotCommand _ => true | _ => false end.

Record Locals := { sleep : Z; burstDur : Z }.

Definition initial : Locals := {| sleep := defaultSleep; burstDur := 0 |}.

(** The [if ... else if err == nil] at the head of the loop body. *)
Definition on_fetch {Cmd} (f : Fetched Cmd) (l : Locals) : Locals :=
  match f with
  | FetchError _ => l
  | GotCommand _ => {| sleep := burstSleep; burstDur := 0 |}
  | NothingToDo => l
  end.

(** [if burstDur >= tgtBurstDur { sleep = defaultSleep }]. *)
Definition check_window (l : Locals) : Locals :=
  if burstDur l >=? tgtBurstDur
  then {| sleep := defaultSleep; burstDur := burstDur l |}
  else l.

(** [if sleep == burstSleep { burstDur += sleep }]. *)
Definition accumulate (l : Locals) : Locals :=
  if sleep l =? burstSleep
  then {| sleep := sleep l; burstDur := int64_add (burstDur l) (sleep l) |}
  else l.

(** One turn of the loop: the locals after it and the duration handed to
    [time.Sleep]. *)
Definition iteration {Cmd} (f : Fetched Cmd) (l : Locals) : Locals * Z :=
  let l := accumulate (check_window (on_fetch f l)) in
  (l, sleep l).

(** The loop over a finite prefix of fetch answers: the successive sleeps. *)
Fixpoint run {Cmd} (fs : list (Fetched Cmd)) (l : Locals) : list Z * Locals :=
  match fs with
  | [] => ([], l)
  | f :: fs' =>
      let '(l1, d) := iteration f l in
      let '(ds, l2) := run fs' l1 in
      (d :: ds, l2)
  end.

End CommandRunner.

(** ** Events ([evtx.GoEvtxMap])

    An event maps hierarchical field paths to values. *)

Definition EvtPath := list string.

Inductive EvtValue :=
| VString (s : string)
| VNumber (n : Z)
| VBool (b : bool).

Abbreviation Event := (gmap EvtPath EvtValue).

(** [e.GetString(&path)]: fails when the path is absent or does not hold a
    string. *)
Definition GetString (e : Event) (p : EvtPath) : option string :=
  match e !! p with
  | Some (VString s) => Some s
  | _ => None
  end.

(** [e.Del(&path)]: removes the field and everything below it. *)
Definition Del (p : EvtPath) (e : Event) : Event :=
  filter (fun kv => ¬ (p `prefix_of` kv.1)) e.

(** Modelled from the spec: the field paths are constants declared outside
    the files at hand (Sysmon paths of the package, [engine.GeneInfoPath] of
    the engine); the event's own, parent and source process identifiers and
    the internal scoring metadata. *)
Definition pathSysmonProcessGUID : EvtPath := ["Event"; "EventData"; "ProcessGuid"].
Definition pathSysmonParentProcessGUID : EvtPath := ["Event"; "EventData"; "ParentProcessGuid"].
Definition pathSysmonSourceProcessGUID : EvtPath := ["Event"; "EventData"; "SourceProcessGUID"].
Definition GeneInfoPath : EvtPath := ["Event"; "GeneInfo"].

(** ** The file system

    Files are either plain bytes or a gzip stream (kept as its payload).
    [unwritable] and [unreadable] are the paths on which creating/writing and
    opening fail. *)

Inductive FileData :=
| Plain (bytes : string)
| Gzip (payload : string).

Record FS := {
  files : gmap Path FileData;
  unwritable : gset Path;
  unreadable : gset Path;
}.

Definition fs_put (p : Path) (d : FileData) (fs : FS) : FS :=
  {| files := <[p := d]> (files fs);
     unwritable := unwritable fs;
     unreadable := unreadable fs |}.

(** [fswalker.Walk]: the files below a root, each with the directory it is
    in.  One item is issued per file. *)
Record WalkItem := { Dirpath : Path; Files : list string }.

Definition walk_item (root : Path) (entry : Path * FileData) : option WalkItem :=
  let p := entry.1 in
  if bool_decide (p ≠ [] ∧ root `prefix_of` removelast p)
  then Some {| Dirpath := removelast p; Files := [Base p] |}
  else None.

Definition Walk (fs : FS) (root : Path) : list WalkItem :=
  omap (walk_item root) (map_to_list (files fs)).

(** [os.Open]. *)
Definition os_Open (fs : FS) (p : Path) : option FileData * option error :=
  match files fs !! p with
  | None => (None, Some "open: file does not exist")
  | Some d =>
      if bool_decide (p ∈ unreadable fs) then (None, Some "open: access is denied")
      else (Some d, None)
  end.

(** [gzip.NewReader]: the reader is the decompressed payload. *)
Definition gzip_NewReader (fd : option FileData) : string * option error :=
  match fd with
  | Some (Gzip payload) => (payload, None)
  | _ => ("", Some "gzip: invalid header")
  end.

(** The bytes of a gzip file as a plain read sees them: the two magic bytes
    and then the stream, which is left uninterpreted. *)
Definition gzip_bytes (payload : string) : string :=
  String (ascii_of_nat 31) (String (ascii_of_nat 139) payload).

(** Modelled from the spec: [utils.ReadFileString] is declared outside the
    files at hand; it reads the persisted digest file, and gives the empty
    string with the error when the file cannot be read. *)
Definition ReadFileString (fs : FS) (p : Path) : string * option error :=
  match os_Open fs p with
  | (Some (Plain s), None) => (s, None)
  | (Some (Gzip s), None) => (gzip_bytes s, None)
  | (_, err) => ("", err)
  end.

(** ** The manager client and the forwarder ([api] package)

    Modelled from the spec: the package is outside the files at hand.  The
    client exposes digest/content getters for rules and containers; a
    [Local] flag marks an agent running standalone.  The answers of the
    manager are taken as fixed while one operation of the agent runs. *)

Record ManagerClient := {
  GetRulesSha256 : string * option error;
  GetRules : string * option error;
  GetContainersList : list string * option error;
  GetContainer : string -> list string * option error;
  GetContainerSha256 : string -> string * option error;
}.

Inductive ClientCall :=
| CallGetRulesSha256
| CallGetRules
| CallGetContainersList
| CallGetContainer (name : string)
| CallGetContainerSha256 (name : string).

Record Forwarder := {
  Local : bool;
  Client : ManagerClient;
  Pipe : list Event;
}.

(** ** Configuration (config.go) *)

Record ForwarderConfig := { FwdLocal : bool }.

Record RulesConfigT := {
  RulesDB : Path;
  ContainersDB : Path;
  UpdateInterval : Z;
}.

Record CanariesConfigT (Rule : Type) := {
  Enable : bool;
  GenRuleSysmon : Rule;
  GenRuleFSAudit : Rule;
}.
Arguments Enable {Rule} _.
Arguments GenRuleSysmon {Rule} _.
Arguments GenRuleFSAudit {Rule} _.

Record Config (Rule : Type) := {
  CritTresh : Z;
  EnableHooks : bool;
  EnableFiltering : bool;
  LogAll : bool;
  Endpoint : bool;
  FwdConfig : ForwarderConfig;
  RulesConfig : RulesConfigT;
  CanariesConfig : CanariesConfigT Rule;
}.
Arguments CritTresh {Rule} _.
Arguments EnableHooks {Rule} _.
Arguments EnableFiltering {Rule} _.
Arguments LogAll {Rule} _.
Arguments Endpoint {Rule} _.
Arguments FwdConfig {Rule} _.
Arguments RulesConfig {Rule} _.
Arguments CanariesConfig {Rule} _.

(** ** Process tracking and hooks

    Modelled from the spec: the activity tracker and the hook manager are
    declared outside the files at hand.  The tracker answers
    [GetByGuid(id) -> processRecord|absent]; a hook is
    [{name, predicate(Event)->bool, action(agent, Event)}] and running a hook
    manager is a linear scan applying the action wherever the predicate
    holds.  The agent fields a hook works on are grouped in [Tracked]; the
    counters are updated only by the ingestion loop. *)

Record processTrack := { ParentProcessGUID : string }.

Record Tracked := {
  flagProcTermEn : bool;
  bootCompleted : bool;
  guid : string;
  processTracker : gmap string processTrack;
  memdumped : gset string;
  dumping : gset string;
  filedumped : gset string;
}.

Definition GetByGuid (t : Tracked) (g : string) : option processTrack :=
  processTracker t !! g.

Record Hook := {
  hook_name : string;
  hook_filter : Event -> bool;
  hook_action : Tracked -> Event -> Tracked * Event;
}.

Definition run_hook (s : Tracked * Event) (k : Hook) : Tracked * Event :=
  if hook_filter k s.2 then hook_action k s.1 s.2 else s.

Definition RunHooksOn (hooks : list Hook) (t : Tracked) (e : Event) : Tracked * Event :=
  fold_left run_hook hooks (t, e).

(** ** Collaborator interfaces *)

(** The gene engine, as the package uses it. *)
Class Gene (E Rule CRule : Type) := {
  NewEngine : bool -> E;
  set_ShowActions : bool -> E -> E;
  Compile : Rule -> CRule * option error;
  AddRule : CRule -> E -> E;
  LoadDirectory : FS -> Path -> E -> E * option error;
  LoadContainer : string -> string -> E -> E;
  Count : E -> Z;
  MatchOrFilter : E -> Event -> E * Event * (list string * Z * bool);
}.

(** [data.Sha256] and [utils.Sha256StringArray]. *)
Class Digests := {
  Sha256 : string -> string;
  Sha256StringArray : list string -> string;
}.

(** The raw records of the event provider with the JSON codec, and the test
    for a Sysmon process termination event. *)
Class Telemetry (XMLEvent : Type) := {
  json_Marshal : XMLEvent -> string * option error;
  json_Unmarshal : string -> Event * option error;
  isSysmonProcessTerminate : Event -> bool;
}.

(** ** The agent and its environment *)

Section Agent.

Context {E Rule CRule XMLEvent : Type}.
Context `{!Gene E Rule CRule} `{!Digests} `{!Telemetry XMLEvent}.

(** The [HIDS] structure; the mutex, the channels and the wait group have
    no counterpart in a sequential model. *)
Record HIDS := {
  preHooks : list Hook;
  postHooks : list Hook;
  forwarder : Forwarder;
  config : Config Rule;
  eventScanned : Z;
  alertReported : Z;
  tracked : Tracked;
  Engine : E;
  DryRun : bool;
  PrintAll : bool;
}.

Inductive LogLevel := LError | LWarn.

(** What the code does to the outside: files, requests sent to the
    manager, [log.Error]/[log.Warn] lines (Info and Debug lines are left
    out) and events printed on standard output. *)
Record World := {
  fs : FS;
  calls : list ClientCall;
  logs : list (LogLevel * string);
  stdout : list Event;
}.

Definition State : Type := HIDS * World.

Definition M (A : Type) : Type := State -> A * State.

Definition ret {A} (a : A) : M A := fun st => (a, st).

Definition bind {A B} (m : M A) (k : A -> M B) : M B :=
  fun st => let '(a, st') := m st in k a st'.

#[local] Notation "'let*' x ':=' m 'in' k" := (bind m (fun x => k))
  (at level 10, x pattern, m at level 100, k at level 200).

Definition getH : M HIDS := fun st => (st.1, st).
Definition getW : M World := fun st => (st.2, st).
Definition modH (f : HIDS -> HIDS) : M unit := fun st => (tt, (f st.1, st.2)).
Definition modW (f : World -> World) : M unit := fun st => (tt, (st.1, f st.2)).

(** *** Field updates *)

Definition set_Engine (e : E) (h : HIDS) : HIDS :=
  {| preHooks := preHooks h; postHooks := postHooks h; forwarder := forwarder h;
     config := config h; eventScanned := eventScanned h;
     alertReported := alertReported h; tracked := tracked h; Engine := e;
     DryRun := DryRun h; PrintAll := PrintAll h |}.

Definition set_tracked (t : Tracked) (h : HIDS) : HIDS :=
  {| preHooks := preHooks h; postHooks := postHooks h; forwarder := forwarder h;
     config := config h; eventScanned := eventScanned h;
     alertReported := alertReported h; tracked := t; Engine := Engine h;
     DryRun := DryRun h; PrintAll := PrintAll h |}.

Definition set_eventScanned (n : Z) (h : HIDS) : HIDS :=
  {| preHooks := preHooks h; postHooks := postHooks h; forwarder := forwarder h;
     config := config h; eventScanned := n;
     alertReported := alertReported h; tracked := tracked h; Engine := Engine h;
     DryRun := DryRun h; PrintAll := PrintAll h |}.

Definition set_alertReported (n : Z) (h : HIDS) : HIDS :=
  {| preHooks := preHooks h; postHooks := postHooks h; forwarder := forwarder h;
     config := config h; eventScanned := eventScanned h;
     alertReported := n; tracked := tracked h; Engine := Engine h;
     DryRun := DryRun h; PrintAll := PrintAll h |}.

Definition set_forwarder (f : Forwarder) (h : HIDS) : HIDS :=
  {| preHooks := preHooks h; postHooks := postHooks h; forwarder := f;
     config := config h; eventScanned := eventScanned h;
     alertReported := alertReported h; tracked := tracked h; Engine := Engine h;
     DryRun := DryRun h; PrintAll := PrintAll h |}.

Definition set_fs (x : FS) (w : World) : World :=
  {| fs := x; calls := calls w; logs := logs w; stdout := stdout w |}.

Definition add_call (c : ClientCall) (w : World) : World :=
  {| fs := fs w; calls := calls w ++ [c]; logs := logs w; stdout := stdout w |}.

Definition add_calls (tr : list ClientCall) (w : World) : World :=
  fold_left (fun w c => add_call c w) tr w.

Definition add_log (l : LogLevel * string) (w : World) : World :=
  {| fs := fs w; calls := calls w; logs := logs w ++ [l]; stdout := stdout w |}.

Definition add_stdout (e : Event) (w : World) : World :=
  {| fs := fs w; calls := calls w; logs := logs w; stdout := stdout w ++ [e] |}.

(** *** Primitive effects *)

Definition log_Error (msg : string) : M unit := modW (add_log (LError, msg)).
Definition log_Warn (msg : string) : M unit := modW (add_log (LWarn, msg)).

(** A request to the manager: it is recorded, then answered. *)
Definition request {A} (c : ClientCall) (answer : ManagerClient -> A) : M A :=
  let* _ := modW (add_call c) in
  let* h := getH in
  ret (answer (Client (forwarder h))).

Definition readFileString (p : Path) : M (string * option error) :=
  let* w := getW in ret (ReadFileString (fs w) p).

(** [ioutil.WriteFile]. *)
Definition WriteFile (p : Path) (data : string) : M (option error) :=
  let* w := getW in
  if bool_decide (p ∈ unwritable (fs w)) then ret (Some "open: access is denied")
  else let* _ := modW (set_fs (fs_put p (Plain data) (fs w))) in ret None.

(** [os.Create] followed by the writes through a gzip writer and the
    closing of both; only [os.Create] is checked by the code. *)
Definition create_gzip (p : Path) (payload : string) : M (option error) :=
  let* w := getW in
  if bool_decide (p ∈ unwritable (fs w)) then ret (Some "open: access is denied")
  else let* _ := modW (set_fs (fs_put p (Gzip payload) (fs w))) in ret None.

(** Modelled from the spec: the forwarder is declared outside the files at
    hand; [h.forwarder.PipeEvent] forwards the event, which is taken as it
    is at the time of the call. *)
Definition pipe (e : Event) (h : HIDS) : HIDS :=
  set_forwarder {| Local := Local (forwarder h);
                   Client := Client (forwarder h);
                   Pipe := Pipe (forwarder h) ++ [e] |} h.

Definition PipeEvent (e : Event) : M unit := modH (pipe e).

(** [fmt.Println(utils.JSON(event))]. *)
Definition Println (e : Event) : M unit := modW (add_stdout e).

Definition when (b : bool) (m : M unit) : M unit := if b then m else ret tt.

(** *** Paths of the persisted state *)

(** RulesPaths returns the path used by WHIDS to save gene rules. *)
Definition RulesPaths (h : HIDS) : Path * Path :=
  let path := Join (RulesDB (RulesConfig (config h))) "database.gen" in
  (path, path_append path ".sha256").

(** containerPaths returns the path to the container and the path to its
    sha256 file. *)
Definition containerPaths (h : HIDS) (container : string) : Path * Path :=
  let path := Join (ContainersDB (RulesConfig (config h))) (container +:+ containerExt) in
  (path, path_append path ".sha256").

(** *** Staleness predicates *)

(** rules needs to be updated with the new ones available in manager *)
Definition needsRulesUpdate : M bool :=
  let* h := getH in
  let '(_, rulesSha256Path) := RulesPaths h in
  if Local (forwarder h) then ret false
  else
    let* (sha256, err) := request CallGetRulesSha256 GetRulesSha256 in
    match err with
    | Some _ => ret false
    | None =>
        let* (oldSha256, _) := readFileString rulesSha256Path in
        ret (negb (String.eqb oldSha256 sha256))
    end.

(** returns true if a container needs to be updated *)
Definition needsContainerUpdate (remoteCont : string) : M bool :=
  let* h := getH in
  let '(_, locContSha256Path) := containerPaths h remoteCont in
  let* (remoteSha256, _) :=
    request (CallGetContainerSha256 remoteCont) (fun c => GetContainerSha256 c remoteCont) in
  let* (localSha256, _) := readFileString locContSha256Path in
  ret (negb (String.eqb localSha256 remoteSha256)).

(** The [for _, cont := range containers] of needsContainersUpdate. *)
Fixpoint any_needs_update (containers : list string) : M bool :=
  match containers with
  | [] => ret false
  | cont :: rest =>
      let* need := needsContainerUpdate cont in
      if need then ret true else any_needs_update rest
  end.

(** at least one container needs to be updated *)
Definition needsContainersUpdate : M bool :=
  let* h := getH in
  if Local (forwarder h) then ret false
  else
    let* (containers, err) := request CallGetContainersList GetContainersList in
    match err with
    | Some _ => ret false
    | None => any_needs_update containers
    end.

(** *** Fetch and verify *)

Definition fetchRulesFromManager : M (option error) :=
  let* h := getH in
  let '(rulePath, sha256Path) := RulesPaths h in
  (* if we are not connected to a manager we return *)
  if FwdLocal (FwdConfig (config h)) then ret None
  else
    let* (sha256, err) := request CallGetRulesSha256 GetRulesSha256 in
    match err with
    | Some e => ret (Some e)
    | None =>
        let* (rules, err) := request CallGetRules GetRules in
        match err with
        | Some e => ret (Some e)
        | None =>
            if negb (String.eqb sha256 (Sha256 rules))
            then ret (Some "failed to verify rules integrity")
            else
              let* _ := WriteFile sha256Path sha256 in
              WriteFile rulePath rules
        end
    end.

Definition integrity_error (contName : string) : error :=
  "failed to verify container " +:+ dquote +:+ contName +:+ dquote +:+ " integrity".

(** The body of the loop of fetchContainersFromManager for a container that
    needs to be updated; an error is one of its early returns. *)
Definition fetch_container (contName : string) : M (option error) :=
  let* (cont, err) := request (CallGetContainer contName) (fun c => GetContainer c contName) in
  match err with
  | Some e => ret (Some e)
  | None =>
      (* we compare the integrity of the container received *)
      let compSha256 := Sha256StringArray cont in
      let* (sha256, _) :=
        request (CallGetContainerSha256 contName) (fun c => GetContainerSha256 c contName) in
      if negb (String.eqb compSha256 sha256)
      then ret (Some (integrity_error contName))
      else
        (* we dump the container *)
        let* h := getH in
        let '(contPath, contSha256Path) := containerPaths h contName in
        let* err := create_gzip contPath (container_payload cont) in
        match err with
        | Some e => ret (Some e)
        | None =>
            (* Dump current container sha256 to a file *)
            let* _ := WriteFile contSha256Path compSha256 in
            ret None
        end
  end.

(** The [for _, contName := range containers] loop. *)
Fixpoint fetch_containers (containers : list string) : M (option error) :=
  match containers with
  | [] => ret None
  | contName :: rest =>
      (* if container needs to be updated *)
      let* need := needsContainerUpdate contName in
      if need then
        let* err := fetch_container contName in
        match err with
        | Some e => ret (Some e)
        | None => fetch_containers rest
        end
      else fetch_containers rest
  end.

Definition fetchContainersFromManager : M (option error) :=
  let* h := getH in
  (* if we are not connected to a manager we return *)
  if FwdLocal (FwdConfig (config h)) then ret None
  else
    let* (containers, err) := request CallGetContainersList GetContainersList in
    match err with
    | Some e => ret (Some e)
    | None => fetch_containers containers
    end.

(** *** Engine rebuild *)

Definition newActionnableEngine : E := set_ShowActions true (NewEngine false).

Definition Engine_LoadContainer (cont payload : string) : M unit :=
  modH (fun h => set_Engine (LoadContainer cont payload (Engine h)) h).

Definition Engine_AddRule (r : CRule) : M unit :=
  modH (fun h => set_Engine (AddRule r (Engine h)) h).

Definition Engine_LoadDirectory (dir : Path) : M (option error) :=
  let* h := getH in
  let* w := getW in
  let '(e, err) := LoadDirectory (fs w) dir (Engine h) in
  let* _ := modH (set_Engine e) in
  ret err.

(** The body of the inner loop of loadContainers for one file. *)
Definition load_container_file (dirpath : Path) (name : string)
    (lastErr : option error) : M (option error) :=
  let path := Join dirpath name in
  (* we take only files with good extension *)
  if HasSuffix name containerExt then
    let cont := SplitN_dot_head name in
    let* w := getW in
    let '(fd, err) := os_Open (fs w) path in
    match err with
    | Some e => ret (Some e)
    | None =>
        let '(r, err) := gzip_NewReader fd in
        match err with
        | Some e => ret (Some e)
        | None =>
            let* _ := Engine_LoadContainer cont r in
            ret lastErr
        end
    end
  else ret lastErr.

Fixpoint load_files (dirpath : Path) (names : list string)
    (lastErr : option error) : M (option error) :=
  match names with
  | [] => ret lastErr
  | fi :: rest =>
      let* lastErr := load_container_file dirpath fi lastErr in
      load_files dirpath rest lastErr
  end.

Fixpoint load_items (items : list WalkItem) (lastErr : option error) : M (option error) :=
  match items with
  | [] => ret lastErr
  | wi :: rest =>
      let* lastErr := load_files (Dirpath wi) (Files wi) lastErr in
      load_items rest lastErr
  end.

(** loads containers found in container database directory *)
Definition loadContainers : M (option error) :=
  let* h := getH in
  let* w := getW in
  load_items (Walk (fs w) (ContainersDB (RulesConfig (config h)))) None.

(** Compiles one canary rule and adds it to the engine. *)
Definition add_canary (r : Rule) : M unit :=
  match Compile r with
  | (_, Some e) => log_Error ("Failed to compile canary rule: " +:+ e)
  | (cr, None) => Engine_AddRule cr
  end.

(** Loading canary rules: the Sysmon rule, then the File System Audit
    rule. *)
Definition load_canary_rules : M unit :=
  let* h := getH in
  when (Enable (CanariesConfig (config h)))
    (let* _ := add_canary (GenRuleSysmon (CanariesConfig (config h))) in
     add_canary (GenRuleFSAudit (CanariesConfig (config h)))).

(** The first part of updateEngine: which of the rules and the containers
    were refreshed from the manager. *)
Definition refresh : M (bool * bool) :=
  let* reloadRules := needsRulesUpdate in
  let* reloadContainers := needsContainersUpdate in
  (* check if we need rule update *)
  let* reloadRules :=
    if reloadRules then
      let* err := fetchRulesFromManager in
      match err with
      | Some e =>
          let* _ := log_Error ("Failed to fetch rules from manager: " +:+ e) in
          ret false
      | None => ret true
      end
    else ret false in
  let* reloadContainers :=
    if reloadContainers then
      let* err := fetchContainersFromManager in
      match err with
      | Some e =>
          let* _ := log_Error ("Failed to fetch containers from manager: " +:+ e) in
          ret false
      | None => ret true
      end
    else ret false in
  ret (reloadRules, reloadContainers).

(** The second part of updateEngine: the new engine. *)
Definition rebuild (reloadRules reloadContainers force : bool) : M (option error) :=
  if reloadRules || reloadContainers || force then
    (* We need to create a new engine if we received a rule/containers update *)
    let* _ := modH (set_Engine newActionnableEngine) in
    (* containers must be loaded before the rules anyway *)
    let* err := loadContainers in
    match err with
    | Some e => ret (Some ("error loading containers: " +:+ e))
    | None =>
        if reloadRules || force then
          let* _ := load_canary_rules in
          let* h := getH in
          let* err := Engine_LoadDirectory (RulesDB (RulesConfig (config h))) in
          match err with
          | Some e => ret (Some ("failed to load rules: " +:+ e))
          | None => ret None
          end
        else ret None
    end
  else ret None.

Definition updateEngine (force : bool) : M (option error) :=
  let* (reloadRules, reloadContainers) := refresh in
  rebuild reloadRules reloadContainers force.

(** *** Event ingestion *)

(** XMLEventToGoEvtxMap converts an XMLEvent as returned by wevtapi to a
    GoEvtxMap object that Gene can use.  The map is returned with the
    error, empty or as far as it was decoded. *)
Definition XMLEventToGoEvtxMap (xe : XMLEvent) : Event * option error :=
  let ge : Event := ∅ in
  let '(bytes, err) := json_Marshal xe in
  match err with
  | Some e => (ge, Some e)
  | None =>
      let '(ge, err) := json_Unmarshal bytes in
      match err with
      | Some e => (ge, Some e)
      | None => (ge, None)
      end
  end.

(** The search for the parent in the process tracker. *)
Definition parent_is_hids (h : HIDS) (g : string) : bool :=
  match GetByGuid (tracked h) g with
  | Some pt => String.eqb (ParentProcessGUID pt) (guid (tracked h))
  | None => false
  end.

(** IsHIDSEvent returns true if the event is generated by IDS activity *)
Definition IsHIDSEvent (h : HIDS) (e : Event) : bool :=
  if match GetString e pathSysmonParentProcessGUID with
     | Some pguid => String.eqb pguid (guid (tracked h))
     | None => false
     end
  then true
  else if match GetString e pathSysmonProcessGUID with
          | Some g => String.eqb g (guid (tracked h)) || parent_is_hids h g
          | None => false
          end
  then true
  else match GetString e pathSysmonSourceProcessGUID with
       | Some sguid => String.eqb sguid (guid (tracked h)) || parent_is_hids h sguid
       | None => false
       end.

Definition run_hooks (which : HIDS -> list Hook) (e : Event) : M Event :=
  let* h := getH in
  let '(t, e') := RunHooksOn (which h) (tracked h) e in
  let* _ := modH (set_tracked t) in
  ret e'.

Definition Engine_MatchOrFilter (e : Event) : M (Event * (list string * Z * bool)) :=
  let* h := getH in
  let '(eng, e', res) := MatchOrFilter (Engine h) e in
  let* _ := modH (set_Engine eng) in
  ret (e', res).

(** The warning message in certain circumstances. *)
Definition warn_missing_termination : M unit :=
  let* h := getH in
  when (EnableHooks (config h) && negb (flagProcTermEn (tracked h))
        && (0 <? eventScanned h) && (eventScanned h mod 1000 =? 0))
    (log_Warn "Sysmon process termination events seem to be missing. WHIDS won't work as expected.").

(** The branch taken for an event of the IDS itself: [goto LoopTail]. *)
Definition skip_event (event : Event) : M unit :=
  let* h := getH in
  when (PrintAll h) (Println event).

(** The decision taken once the event has matched at least one signature
    or is filtered. *)
Definition decide_event (event : Event) (crit : Z) (filtered : bool) : M Event :=
  let* h := getH in
  if crit >=? CritTresh (config h) then
    let* _ := when (negb (PrintAll h) && negb (LogAll (config h))) (PipeEvent event) in
    (* Run hooks post detection *)
    let* event := run_hooks postHooks event in
    let* _ := modH (fun h => set_alertReported (uint64_incr (alertReported h)) h) in
    ret event
  else if filtered && EnableFiltering (config h) && negb (PrintAll h) && negb (LogAll (config h)) then
    let event := Del GeneInfoPath event in
    (* we pipe filtered event *)
    let* _ := PipeEvent event in
    ret event
  else ret event.

(** The loop body from the call to the engine down to the counter. *)
Definition detect_event (event : Event) : M unit :=
  let* (event, res) := Engine_MatchOrFilter event in
  let '(n, crit, filtered) := res in
  let* event :=
    if (0 <? length n)%nat || filtered then decide_event event crit filtered
    else ret event in
  let* h := getH in
  (* Print everything *)
  let* _ := when (PrintAll h) (Println event) in
  (* We log all events *)
  let* _ := when (LogAll (config h)) (PipeEvent event) in
  modH (fun h => set_eventScanned (uint64_incr (eventScanned h)) h).

(** The event seen by the self-event test: the record converted, then run
    through the pre detection hooks. *)
Definition prepare_event (xe : XMLEvent) : M Event :=
  let '(event, err) := XMLEventToGoEvtxMap xe in
  let* _ :=
    match err with
    | Some e => log_Error ("Failed to convert event: " +:+ e)
    | None => ret tt
    end in
  let* _ := warn_missing_termination in
  (* Runs pre detection hooks *)
  run_hooks preHooks event.

(** One turn of the [for xe := range xmlEvents] loop of Run. *)
Definition handle_record (xe : XMLEvent) : M unit :=
  let* event := prepare_event xe in
  let* h := getH in
  (* We skip if it is one of IDS event *)
  if IsHIDSEvent h event && negb (isSysmonProcessTerminate event)
  then skip_event event
  else detect_event event.

Fixpoint ingest (xmlEvents : list XMLEvent) : M unit :=
  match xmlEvents with
  | [] => ret tt
  | xe :: rest => let* _ := handle_record xe in ingest rest
  end.

End Agent.

Arguments HIDS : clear implicits.
Arguments State : clear implicits.
Arguments M : clear implicits.

(** ** Notions used in the statements *)

Section Notions.

Context {E Rule CRule : Type} `{!Gene E Rule CRule}.

(** A computation that leaves the [HIDS] structure as it found it. *)
Definition keeps_agent {A} (m : M E Rule A) : Prop :=
  forall h w, (m (h, w)).2.1 = h.

(** A computation that sends the manager only requests satisfying [P]. *)
Definition requests_only (P : ClientCall -> Prop) {A} (m : M E Rule A) : Prop :=
  forall st, exists tr, calls (m st).2.2 = calls st.2 ++ tr /\ Forall P tr.

(** The digest persisted for a container and the digest the manager
    reports for it, as needsContainerUpdate reads them. *)
Definition local_digest (h : HIDS E Rule) (w : World) (name : string) : string :=
  (ReadFileString (fs w) (containerPaths h name).2).1.

Definition reported_digest (h : HIDS E Rule) (name : string) : string :=
  (GetContainerSha256 (Client (forwarder h)) name).1.

(** *** The container load, declaratively

    The container files are the walked files with the container extension,
    each with the name it is loaded under; reading one gives its payload or
    an error. *)
Definition container_file (dir : Path) (fi : string) : option (string * Path) :=
  if HasSuffix fi containerExt
  then Some (SplitN_dot_head fi, Join dir fi)
  else None.

Definition container_files (items : list WalkItem) : list (string * Path) :=
  flat_map (fun wi => omap (container_file (Dirpath wi)) (Files wi)) items.

Definition read_container (d : FS) (p : Path) : string * option error :=
  let '(fd, err) := os_Open d p in
  match err with
  | Some e => ("", Some e)
  | None => gzip_NewReader fd
  end.

Definition loaded_containers (d : FS) (cf : list (string * Path)) : list (string * string) :=
  omap (fun c => match read_container d c.2 with
                 | (payload, None) => Some (c.1, payload)
                 | (_, Some _) => None
                 end) cf.

Definition container_errors (d : FS) (cf : list (string * Path)) : list error :=
  omap (fun c => (read_container d c.2).2) cf.

Definition load_all (l : list (string * string)) (e : E) : E :=
  fold_left (fun e c => LoadContainer c.1 c.2 e) l e.

(** The error reported after a series of loads: the last one, or the one
    held before when there was none. *)
Definition last_error (errs : list error) (lastErr : option error) : option error :=
  match last errs with
  | Some e => Some e
  | None => lastErr
  end.

(** Requests other than the content of the rules, and other than the
    content of a container. *)
Definition not_rules (c : ClientCall) : Prop := c <> CallGetRules.

Definition not_container (c : ClientCall) : Prop :=
  forall name, c <> CallGetContainer name.

End Notions.

Section IngestionNotions.

Context {E Rule XMLEvent : Type} `{!Telemetry XMLEvent}.

(** The lines logged while a record is prepared: the conversion failure,
    then the warning about process termination events. *)
Definition conversion_log (xe : XMLEvent) (w : World) : World :=
  match (XMLEventToGoEvtxMap xe).2 with
  | Some err => add_log (LError, "Failed to convert event: " +:+ err) w
  | None => w
  end.

Definition termination_log (h : HIDS E Rule) (w : World) : World :=
  if EnableHooks (config h) && negb (flagProcTermEn (tracked h))
     && (0 <? eventScanned h) && (eventScanned h mod 1000 =? 0)
  then add_log (LWarn, "Sysmon process termination events seem to be missing. WHIDS won't work as expected.") w
  else w.

(** The event is one of the IDS itself, by the words of the spec: its
    parent, own or source process identifier is the agent's, or the tracker
    records the agent as the parent of its own or source process. *)
Definition self_event (h : HIDS E Rule) (e : Event) : Prop :=
  GetString e pathSysmonParentProcessGUID = Some (guid (tracked h)) \/
  GetString e pathSysmonProcessGUID = Some (guid (tracked h)) \/
  GetString e pathSysmonSourceProcessGUID = Some (guid (tracked h)) \/
  exists g pt,
    (GetString e pathSysmonProcessGUID = Some g \/
     GetString e pathSysmonSourceProcessGUID = Some g) /\
    GetByGuid (tracked h) g = Some pt /\
    ParentProcessGUID pt = guid (tracked h).

End IngestionNotions.

(** ** Predicates on names used in the statements *)

Fixpoint string_exists (p : ascii -> bool) (s : string) : bool :=
  match s with
  | EmptyString => false
  | String c s' => p c || string_exists p s'
  end.

Definition has_dot (s : string) : bool := string_exists (fun c => Ascii.eqb c "."%char) s.
Definition has_separator (s : string) : bool := string_exists IsPathSeparator s.

(** ** A test double for the collaborators

    A small engine whose rules are the texts of the rule files, digests that
    tag their input, raw records that are the names of canned events, and an
    agent built on them.  They are the concrete inputs at which the
    statements below are exercised. *)

Module Sample.

Record ToyEngine := {
  ShowActions : bool;
  containers : list (string * string);
  rules : list string;
}.

Definition add_rule (r : string) (e : ToyEngine) : ToyEngine :=
  {| ShowActions := ShowActions e; containers := containers e; rules := rules e ++ [r] |}.

(** Loads the rule files in turn and stops at the first that is not a
    rule. *)
Fixpoint load_rule_files (fs : FS) (ps : list Path) (e : ToyEngine) : ToyEngine * option error :=
  match ps with
  | [] => (e, None)
  | p :: rest =>
      match ReadFileString fs p with
      | (_, Some err) => (e, Some err)
      | (text, None) =>
          if String.eqb text "" then (e, Some "invalid rule")
          else load_rule_files fs rest (add_rule text e)
      end
  end.

Definition rule_files (fs : FS) (dir : Path) : list Path :=
  flat_map (fun wi => omap (fun n => if HasSuffix n ".gen" then Some (Join (Dirpath wi) n) else None)
                           (Files wi))
           (Walk fs dir).

Definition field_number (e : Event) (p : EvtPath) : Z :=
  match e !! p with Some (VNumber n) => n | _ => 0 end.

Definition field_bool (e : Event) (p : EvtPath) : bool :=
  match e !! p with Some (VBool b) => b | _ => false end.

(** The verdict is read off the event: the signature, the criticality and
    the filtered flag it carries. *)
Definition match_or_filter (eng : ToyEngine) (e : Event) : ToyEngine * Event * (list string * Z * bool) :=
  let names := match GetString e ["Signature"] with Some s => [s] | None => [] end in
  let crit := field_number e ["Criticality"] in
  let filtered := field_bool e ["Filtered"] in
  let e' := if (0 <? length names)%nat || filtered
            then <[GeneInfoPath ++ ["Criticality"] := VNumber crit]> e else e in
  (eng, e', (names, crit, filtered)).

#[export] Instance gene : Gene ToyEngine string string := {
  NewEngine _ := {| ShowActions := false; containers := []; rules := [] |};
  set_ShowActions b e := {| ShowActions := b; containers := containers e; rules := rules e |};
  Compile r := if String.eqb r "" then ("", Some "invalid rule") else (r, None);
  AddRule := add_rule;
  LoadDirectory fs dir e := load_rule_files fs (rule_files fs dir) e;
  LoadContainer c payload e :=
    {| ShowActions := ShowActions e; containers := containers e ++ [(c, payload)];
       rules := rules e |};
  Count e := Z.of_nat (length (rules e));
  MatchOrFilter := match_or_filter;
}.

#[export] Instance digests : Digests := {
  Sha256 s := "sha256:" +:+ s;
  Sha256StringArray l := "sha256:" +:+ container_payload l;
}.

Definition hids_guid : string := "{HIDS}".

(** Canned events. *)
Definition ev_alert : Event :=
  {[ ["Signature"] := VString "Mimikatz"; ["Criticality"] := VNumber 8 ]}.
Definition ev_filtered : Event :=
  {[ ["Filtered"] := VBool true; ["Criticality"] := VNumber 0 ]}.
Definition ev_benign : Event :=
  {[ pathSysmonProcessGUID := VString "{other}" ]}.
Definition ev_self : Event :=
  {[ pathSysmonProcessGUID := VString hids_guid ]}.
Definition ev_self_exit : Event :=
  {[ pathSysmonProcessGUID := VString hids_guid; ["Event"; "System"; "EventID"] := VNumber 5 ]}.

Definition canned (name : string) : Event :=
  if String.eqb name "alert" then ev_alert
  else if String.eqb name "filtered" then ev_filtered
  else if String.eqb name "benign" then ev_benign
  else if String.eqb name "self" then ev_self
  else if String.eqb name "self-exit" then ev_self_exit
  else ∅.

(** A raw record is the name of a canned event; the record ["garbage"]
    cannot be encoded. *)
#[export] Instance telemetry : Telemetry string := {
  json_Marshal xe := if String.eqb xe "garbage" then ("", Some "json: unsupported value") else (xe, None);
  json_Unmarshal bytes := (canned bytes, None);
  isSysmonProcessTerminate e := Z.eqb (field_number e ["Event"; "System"; "EventID"]) 5;
}.

Definition rulesDB : Path := ["whids"; "rules"].
Definition containersDB : Path := ["whids"; "containers"].

Definition cfg (local logAll : bool) (crit : Z) : Config string := {|
  CritTresh := crit;
  EnableHooks := true;
  EnableFiltering := true;
  LogAll := logAll;
  Endpoint := true;
  FwdConfig := {| FwdLocal := local |};
  RulesConfig := {| RulesDB := rulesDB; ContainersDB := containersDB; UpdateInterval := 0 |};
  CanariesConfig := {| Enable := false; GenRuleSysmon := "canary-sysmon"; GenRuleFSAudit := "canary-fs" |};
|}.

Definition no_tracking : Tracked := {|
  flagProcTermEn := false; bootCompleted := false; guid := hids_guid;
  processTracker := ∅; memdumped := ∅; dumping := ∅; filedumped := ∅ |}.

(** A post detection hook: it records the event's signature in
    [memdumped]. *)
Definition hookDump : Hook := {|
  hook_name := "dump";
  hook_filter := fun _ => true;
  hook_action := fun t e =>
    ({| flagProcTermEn := flagProcTermEn t; bootCompleted := bootCompleted t;
        guid := guid t; processTracker := processTracker t;
        memdumped := {[ default "" (GetString e ["Signature"]) ]} ∪ memdumped t;
        dumping := dumping t; filedumped := filedumped t |}, e) |}.

Definition agent (local logAll : bool) (crit : Z) (c : ManagerClient) (eng : ToyEngine) : HIDS ToyEngine string := {|
  preHooks := [];
  postHooks := [hookDump];
  forwarder := {| Local := local; Client := c; Pipe := [] |};
  config := cfg local logAll crit;
  eventScanned := 0;
  alertReported := 0;
  tracked := no_tracking;
  Engine := eng;
  DryRun := false;
  PrintAll := false;
|}.

Definition disk (fl : list (Path * FileData)) : FS :=
  {| files := list_to_map fl; unwritable := ∅; unreadable := ∅ |}.

Definition world (d : FS) : World :=
  {| fs := d; calls := []; logs := []; stdout := [] |}.

Definition old_engine : ToyEngine :=
  {| ShowActions := true; containers := []; rules := ["r1"; "r2"; "r3"] |}.

(** A manager serving one rule file and the containers it is given. *)
Definition manager (rulesSha rules : string)
    (conts : list (string * (list string * string))) : ManagerClient := {|
  GetRulesSha256 := (rulesSha, None);
  GetRules := (rules, None);
  GetContainersList := (map fst conts, None);
  GetContainer name :=
    match list_find (fun c => c.1 = name) conts with
    | Some (_, (_, (lines, _))) => (lines, None)
    | None => ([], Some "not found")
    end;
  GetContainerSha256 name :=
    match list_find (fun c => c.1 = name) conts with
    | Some (_, (_, (_, sha))) => (sha, None)
    | None => ("", Some "not found")
    end;
|}.

(** A manager whose digests do not match what it serves. *)
Definition forged_manager : ManagerClient :=
  manager "sha256:forged" "rule-text" [("blacklist", (["evil.exe"], "sha256:forged"))].

(** A manager whose digests are those of what it serves. *)
Definition honest_manager : ManagerClient :=
  manager (Sha256 "rule-text") "rule-text"
    [("blacklist", (["evil.exe"], Sha256StringArray ["evil.exe"]))].

(** A manager that lists a container but fails to give its digest. *)
Definition flaky_manager : ManagerClient := {|
  GetRulesSha256 := ("", Some "connection reset");
  GetRules := ("", Some "connection reset");
  GetContainersList := (["blacklist"], None);
  GetContainer _ := ([], Some "connection reset");
  GetContainerSha256 _ := ("", Some "connection reset");
|}.

(** A manager serving a container whose name starts with a separator. *)
Definition slash_manager : ManagerClient :=
  manager (Sha256 "rule-text") "rule-text"
    [("/x", (["evil.exe"], Sha256StringArray ["evil.exe"]))].

Definition empty_disk : FS := disk [].

(** The rules and the container of [honest_manager], as persisted. *)
Definition synced_disk : FS := disk [
  (rulesDB ++ ["database.gen"], Plain "rule-text");
  (rulesDB ++ ["database.gen.sha256"], Plain (Sha256 "rule-text"));
  (containersDB ++ ["blacklist.cont.gz"], Gzip (container_payload ["evil.exe"]));
  (containersDB ++ ["blacklist.cont.gz.sha256"], Plain (Sha256StringArray ["evil.exe"]))
].

(** A rule file that is not a rule. *)
Definition broken_rules_disk : FS := disk [
  (rulesDB ++ ["database.gen"], Plain "")
].

(** A container file that is not a gzip stream, next to a good one and a
    good rule file. *)
Definition broken_container_disk : FS := disk [
  (containersDB ++ ["bad.cont.gz"], Plain "junk");
  (containersDB ++ ["good.cont.gz"], Gzip (container_payload ["evil.exe"]));
  (rulesDB ++ ["database.gen"], Plain "rule-text")
].

(** The agents of the examples: standalone, or connected to one of the
    managers; with the criticality threshold at 5, or at 0. *)
Definition standalone : HIDS ToyEngine string := agent true false 5 honest_manager old_engine.
Definition lenient : HIDS ToyEngine string := agent true false 0 honest_manager old_engine.
Definition honest_agent : HIDS ToyEngine string := agent false false 5 honest_manager old_engine.
Definition forged_agent : HIDS ToyEngine string := agent false false 5 forged_manager old_engine.
Definition flaky_agent : HIDS ToyEngine string := agent false false 5 flaky_manager old_engine.
Definition slash_agent : HIDS ToyEngine string := agent false false 5 slash_manager old_engine.

End Sample.

(** ** Notions used in the statements on synchronisation *)

Section SyncNotions.

Context {E Rule CRule : Type} `{!Gene E Rule CRule} `{!Digests}.

Implicit Types (h : HIDS E Rule) (w : World).

(** The manager serves the container with the digest it reports for it. *)
Definition served h (name : string) : Prop :=
  exists cont, GetContainer (Client (forwarder h)) name = (cont, None) /\
               Sha256StringArray cont = reported_digest h name.

(** The container and its digest can be stored, and the digest read
    back. *)
Definition storable h (d : FS) (name : string) : Prop :=
  ((containerPaths h name).1 ∉ unwritable d) /\
  ((containerPaths h name).2 ∉ unwritable d) /\
  ((containerPaths h name).2 ∉ unreadable d).

(** The digest stored for the container is the one the manager reports. *)
Definition up_to_date h w (name : string) : Prop :=
  local_digest h w name = reported_digest h name.

End SyncNotions.

(** ** States of the command runner *)

Module CommandRunnerStates.
Import CommandRunner.

(** The states the loop can be in: the interval is one of the two
    constants and the accumulator counts whole fast intervals, at most the
    60 of the window. *)
Definition reachable (l : Locals) : Prop :=
  (sleep l = burstSleep \/ sleep l = defaultSleep) /\
  exists k, 0 <= k <= 60 /\ burstDur l = k * burstSleep.

End CommandRunnerStates.

(** ** Channels *)

Definition ChannelAliases : gmap string string :=
  list_to_map
    [("sysmon", "Microsoft-Windows-Sysmon/Operational");
     ("security", "Security");
     ("ps", "Microsoft-Windows-PowerShell/Operational");
     ("defender", "Microsoft-Windows-Windows Defender/Operational");
     ("all", "All aliased channels")].

Definition allChannels : list string :=
  omap (fun ac : string * string =>
          if negb (String.eqb ac.1 "all") then Some ac.2 else None)
       (map_to_list ChannelAliases).

(** One turn of the loop of initChannels; the set is [h.channels]. *)
Definition add_channel (set : gset string) (c : string) : gset string :=
  if String.eqb c "all" then set ∪ list_to_set allChannels
  else match ChannelAliases !! c with
       | Some rc => set ∪ {[rc]}
       | None => set ∪ {[c]}
       end.

Definition initChannels (channels : list string) (set : gset string) : gset string :=
  fold_left add_channel channels set.

(** The channels behind the aliases. *)
Definition aliased_channels : list string :=
  ["Microsoft-Windows-Sysmon/Operational"; "Security";
   "Microsoft-Windows-PowerShell/Operational";
   "Microsoft-Windows-Windows Defender/Operational"].

(** The channel a configured name other than [all] stands for. *)
Definition channel_of (c : string) : string := default c (ChannelAliases !! c).

(** [strings.Contains]. *)
Fixpoint Contains (s substr : string) : bool :=
  String.prefix substr s ||
  match s with
  | EmptyString => false
  | String _ s' => Contains s' substr
  end.

(** DumpConfig structure definition *)
Record DumpConfig := {
  Mode : string;
  Dir : Path;
  Treshold : Z;
  MaxDumps : Z;
  Compression : bool;
  DumpUntracked : bool;
}.

(** IsModeEnabled checks if dump mode is enabled *)
Definition IsModeEnabled (d : DumpConfig) (mode : string) : bool :=
  if Contains (Mode d) "all" then true
  else Contains (Mode d) mode.

(** IsDumpEnabled returns true if any kind of dump is enabled; [c.Dump] is
    passed beside the configuration record. *)
Definition IsDumpEnabled {Rule} (c : Config Rule) (Dump : DumpConfig) : bool :=
  (* Dump can be enabled only in endpoint mode *)
  Endpoint c && (IsModeEnabled Dump "file" || IsModeEnabled Dump "registry"
                 || IsModeEnabled Dump "memory").

(** The name holds a vertical bar. *)
Definition has_bar (s : string) : bool := string_exists (fun c => Ascii.eqb c "|"%char) s.

(** ** Hook registration (initHooks)

    Modelled from the spec: the hooks, the filters and the hook manager are
    declared outside the files at hand.  Hooks and filters are known here by
    their names; a hook manager is the ordered collection of its
    registrations, in registration order. *)

Inductive HookFn :=
| hookSelfGUID | hookProcTerm | hookStats | hookTrack
| hookTerminator | hookImageLoad | hookSetImageSize | hookProcessIntegrityProcTamp
| hookEnrichServices | hookClipboardEvents | hookFileSystemAudit | hookEnrichAnySysmon
| hookDumpRegistry | hookDumpFiles | hookDumpProcess
| hookUpdateGeneScore | hookHandleActions.

Inductive FilterId :=
| fltImageSize | fltProcTermination | fltStats | fltTrack
| fltProcessCreate | fltImageLoad | fltImageTampering | fltAnySysmon
| fltClipboard | fltFSObjectAccess | fltRegSetValue | fltAnyEvent.

Definition HookMan := list (HookFn * FilterId).

(** [hm.Hook(h, f)]. *)
Definition Hook_ (h : HookFn) (f : FilterId) (hm : HookMan) : HookMan := hm ++ [(h, f)].

Definition is_dump_hook (r : HookFn * FilterId) : bool :=
  match r.1 with
  | hookDumpRegistry | hookDumpFiles | hookDumpProcess => true
  | _ => false
  end.

Section InitHooks.

Context {Rule : Type}.

(** initHooks on the two hook managers of the agent. *)
Definition initHooks (advanced : bool) (c : Config Rule) (Dump : DumpConfig)
    (preHooks postHooks : HookMan) : HookMan * HookMan :=
  (* We enable those hooks anyway since it is needed to skip
     events generated by WHIDS process. These ar very light hooks *)
  let preHooks := Hook_ hookSelfGUID fltImageSize preHooks in
  let preHooks := Hook_ hookProcTerm fltProcTermination preHooks in
  let preHooks := Hook_ hookStats fltStats preHooks in
  let preHooks := Hook_ hookTrack fltTrack preHooks in
  if advanced then
    (* Process terminator hook, terminating blacklisted (by action) processes *)
    let preHooks := Hook_ hookTerminator fltProcessCreate preHooks in
    let preHooks := Hook_ hookImageLoad fltImageLoad preHooks in
    let preHooks := Hook_ hookSetImageSize fltImageSize preHooks in
    let preHooks := Hook_ hookProcessIntegrityProcTamp fltImageTampering preHooks in
    let preHooks := Hook_ hookEnrichServices fltAnySysmon preHooks in
    let preHooks := Hook_ hookClipboardEvents fltClipboard preHooks in
    let preHooks := Hook_ hookFileSystemAudit fltFSObjectAccess preHooks in
    (* Must be run the last as it depends on other filters *)
    let preHooks := Hook_ hookEnrichAnySysmon fltAnySysmon preHooks in
    (* Registering post detection hooks *)
    (* if endpoint we enable dump features *)
    let postHooks :=
      if Endpoint c then
        let postHooks :=
          if IsModeEnabled Dump "registry"
          then Hook_ hookDumpRegistry fltRegSetValue postHooks else postHooks in
        let postHooks :=
          if IsModeEnabled Dump "file"
          then Hook_ hookDumpFiles fltAnySysmon postHooks else postHooks in
        if IsModeEnabled Dump "memory"
        then Hook_ hookDumpProcess fltAnySysmon postHooks else postHooks
      else postHooks in
    (* This hook must run before action handling as we want
       the gene score to be set before an eventual reporting *)
    let postHooks := Hook_ hookUpdateGeneScore fltAnyEvent postHooks in
    (* Handles actions defined in rules for any Sysmon event *)
    let postHooks := Hook_ hookHandleActions fltAnyEvent postHooks in
    (preHooks, postHooks)
  else (preHooks, postHooks).

End InitHooks.

(** ** Regular expressions ([regexp])

    The syntax the pattern of archived files needs, with a matcher by
    derivatives.  [MatchString] reports whether the text contains a match
    of the expression. *)

Inductive Regexp :=
| NoMatch
| Eps
| Class (p : ascii -> bool)
| Cat (r1 r2 : Regexp)
| Alt (r1 r2 : Regexp)
| Star (r : Regexp).

(** A literal text. *)
Fixpoint Lit (s : string) : Regexp :=
  match s with
  | EmptyString => Eps
  | String c s' => Cat (Class (Ascii.eqb c)) (Lit s')
  end.

(** [x?], and [x??] which prefers the empty match. *)
Definition Opt (r : Regexp) : Regexp := Alt r Eps.
Definition LazyOpt (r : Regexp) : Regexp := Alt Eps r.

(** [x{n}] and [x{n,}]. *)
Fixpoint Repeat (n : nat) (r : Regexp) : Regexp :=
  match n with
  | O => Eps
  | S n' => Cat r (Repeat n' r)
  end.
Definition AtLeast (n : nat) (r : Regexp) : Regexp := Cat (Repeat n r) (Star r).

(** [.] matches any character but the line feed. *)
Definition Dot : Regexp := Class (fun c => negb (Ascii.eqb c "010"%char)).
Definition AnyChar : Regexp := Class (fun _ => true).

Fixpoint nullable (r : Regexp) : bool :=
  match r with
  | NoMatch => false
  | Eps => true
  | Class _ => false
  | Cat r1 r2 => nullable r1 && nullable r2
  | Alt r1 r2 => nullable r1 || nullable r2
  | Star _ => true
  end.

Fixpoint deriv (c : ascii) (r : Regexp) : Regexp :=
  match r with
  | NoMatch => NoMatch
  | Eps => NoMatch
  | Class p => if p c then Eps else NoMatch
  | Cat r1 r2 =>
      if nullable r1 then Alt (Cat (deriv c r1) r2) (deriv c r2)
      else Cat (deriv c r1) r2
  | Alt r1 r2 => Alt (deriv c r1) (deriv c r2)
  | Star r1 => Cat (deriv c r1) (Star r1)
  end.

Fixpoint full_match (r : Regexp) (s : list ascii) : bool :=
  match s with
  | [] => nullable r
  | c :: s' => full_match (deriv c r) s'
  end.

Definition MatchString (r : Regexp) (s : string) : bool :=
  full_match (Cat (Star AnyChar) (Cat r (Star AnyChar))) (list_ascii_of_string s).

(** The texts an expression matches entirely. *)
Inductive matches : Regexp -> list ascii -> Prop :=
| m_eps : matches Eps []
| m_class p c : p c = true -> matches (Class p) [c]
| m_cat r1 r2 s1 s2 : matches r1 s1 -> matches r2 s2 -> matches (Cat r1 r2) (s1 ++ s2)
| m_alt_l r1 r2 s : matches r1 s -> matches (Alt r1 r2) s
| m_alt_r r1 r2 s : matches r2 s -> matches (Alt r1 r2) s
| m_star_nil r : matches (Star r) []
| m_star_cons r s1 s2 : matches r s1 -> matches (Star r) s2 -> matches (Star r) (s1 ++ s2).

(** [0-9A-F] *)
Definition is_upper_hex (c : ascii) : bool :=
  let n := nat_of_ascii c in
  ((48 <=? n)%nat && (n <=? 57)%nat) || ((65 <=? n)%nat && (n <=? 70)%nat).

(** archivedRe: an optional, lazy [CLIP-], then 32 or more of [0-9A-F],
    then optionally a dot followed by any characters. *)
Definition archivedRe : Regexp :=
  Cat (LazyOpt (Lit "CLIP-"))
      (Cat (AtLeast 32 (Class is_upper_hex))
           (Opt (Cat (Lit ".") (Star Dot)))).

(** ** Cleanup of the files archived by Sysmon (cleanArchivedRoutine)

    The loop of the routine, one pass per reading of the clock.  Times are
    nanoseconds; the modification times of the files and the files the
    agent cannot delete are those of the directory walked. *)

Definition Minute : Z := 60 * CommandRunner.Second.

(** [os.Remove] *)
Definition os_Remove (undeletable : gset Path) (d : FS) (p : Path) : FS * option error :=
  if bool_decide (p ∈ undeletable) then (d, Some "remove: access is denied")
  else match files d !! p with
       | None => (d, Some "remove: the system cannot find the file specified")
       | Some _ =>
           ({| files := delete p (files d);
               unwritable := unwritable d;
               unreadable := unreadable d |}, None)
       end.

Record ArchiveState := {
  arch_fs : FS;
  (* used to mark files for which we already reported errors *)
  reported : gset Path;
  arch_logs : list (LogLevel * string);
}.

Section CleanArchived.

Variable ModTime : Path -> Z.
Variable undeletable : gset Path.

(** The body of the inner loop, for one file of a walked directory. *)
Definition clean_file (expired : Z) (dirpath : Path) (name : string)
    (st : ArchiveState) : ArchiveState :=
  if MatchString archivedRe name then
    let path := Join dirpath name in
    if ModTime (dirpath ++ [name]) <? expired then
      (* we print out error only once *)
      match os_Remove undeletable (arch_fs st) path with
      | (d, Some err) =>
          if negb (bool_decide (path ∈ reported st)) then
            {| arch_fs := d;
               reported := reported st ∪ {[path]};
               arch_logs := arch_logs st
                            ++ [(LError, "Failed to remove archived file: " +:+ err)] |}
          else {| arch_fs := d; reported := reported st; arch_logs := arch_logs st |}
      | (d, None) =>
          {| arch_fs := d; reported := reported st; arch_logs := arch_logs st |}
      end
    else st
  else st.

Definition clean_item (expired : Z) (st : ArchiveState) (wi : WalkItem) : ArchiveState :=
  fold_left (fun st name => clean_file expired (Dirpath wi) name st) (Files wi) st.

(** One pass over the archive directory at time [now]; expiration fixed to
    five minutes. *)
Definition clean_pass (archivePath : Path) (st : ArchiveState) (now : Z) : ArchiveState :=
  let expired := now + Minute * -5 in
  fold_left (clean_item expired) (Walk (arch_fs st) archivePath) st.

(** The passes of the loop, one per reading of the clock. *)
Definition clean_loop (archivePath : Path) (nows : list Z) (st : ArchiveState) : ArchiveState :=
  fold_left (clean_pass archivePath) nows st.

(** A file the pass at [now] is to delete: below the directory, with the
    name of an archived file, older than five minutes. *)
Definition archived_expired (archivePath : Path) (now : Z) (p : Path) : bool :=
  bool_decide (p ≠ [] ∧ archivePath `prefix_of` removelast p)
  && MatchString archivedRe (Base p)
  && (ModTime p <? now + Minute * -5).

(** A file the pass at [now] removes. *)
Definition doomed root now (p : Path) : bool :=
  archived_expired root now p && negb (bool_decide (p ∈ undeletable)).

End CleanArchived.

(** What a step of the loop may do to the marks and to the log: marks are
    only added, and one line is logged per mark added. *)
Definition log_once (st st' : ArchiveState) : Prop :=
  reported st ⊆ reported st' /\
  (length (arch_logs st') + size (reported st) = length (arch_logs st) + size (reported st'))%nat.

(** ** Commands of the manager (handleManagerCommand)

    Modelled from the spec: the command is declared outside the files at
    hand.  It carries a name, arguments, an output, an error text, a flag
    telling that the output is JSON and a flag telling whether the execution
    machinery is to spawn a process for it; [Unrunnable] clears that flag
    and [FromExecCmd] binds the command to a process invocation.  The local
    handlers, the tracker snapshots and the execution machinery are
    collaborators. *)

Module ManagerCommands.

Record Command (Out : Type) := {
  Name : string;
  Args : list string;
  Stdout : option Out;
  Error : string;
  ExpectJSON : bool;
  runnable : bool;
}.
Arguments Name {Out} _.
Arguments Args {Out} _.
Arguments Stdout {Out} _.
Arguments Error {Out} _.
Arguments ExpectJSON {Out} _.
Arguments runnable {Out} _.

(** A process invocation: the program and its arguments. *)
Definition ExecCmd : Type := string * list string.

Class CommandHandlers (Out : Type) := {
  FromExecCmd : ExecCmd -> Command Out -> Command Out;
  ManagerIP : string;
  PrevIP : string -> string;
  NextIP : string -> string;
  OSQueryBin : string;
  IsFile : string -> bool;
  Atoi : string -> Z * option error;
  terminate : Z -> option error;
  cmdHash : string -> Out * option error;
  cmdStat : string -> Out * option error;
  cmdDir : string -> Out * option error;
  cmdWalk : string -> Out;
  cmdFind : string -> string -> Out * option error;
  Report : Out;
  PS : Out;
  Drivers : Out;
  Run : Command Out -> Command Out * option error;
  Command_String : Command Out -> string;
}.

Definition ContainRuleName : string := "EDR containment".

Section Commands.

Context {Out : Type} `{!CommandHandlers Out}.

Definition set_Name (x : string) (c : Command Out) : Command Out :=
  {| Name := x; Args := Args c; Stdout := Stdout c; Error := Error c;
     ExpectJSON := ExpectJSON c; runnable := runnable c |}.
Definition set_Args (x : list string) (c : Command Out) : Command Out :=
  {| Name := Name c; Args := x; Stdout := Stdout c; Error := Error c;
     ExpectJSON := ExpectJSON c; runnable := runnable c |}.
Definition set_Stdout (x : Out) (c : Command Out) : Command Out :=
  {| Name := Name c; Args := Args c; Stdout := Some x; Error := Error c;
     ExpectJSON := ExpectJSON c; runnable := runnable c |}.
Definition set_Error (x : string) (c : Command Out) : Command Out :=
  {| Name := Name c; Args := Args c; Stdout := Stdout c; Error := x;
     ExpectJSON := ExpectJSON c; runnable := runnable c |}.
Definition set_ExpectJSON (x : bool) (c : Command Out) : Command Out :=
  {| Name := Name c; Args := Args c; Stdout := Stdout c; Error := Error c;
     ExpectJSON := x; runnable := runnable c |}.
Definition Unrunnable (c : Command Out) : Command Out :=
  {| Name := Name c; Args := Args c; Stdout := Stdout c; Error := Error c;
     ExpectJSON := ExpectJSON c; runnable := false |}.

(** only allow connection to the manager configured *)
Definition containCmd : ExecCmd :=
  let ip := ManagerIP in
  ("netsh.exe",
   ["advfirewall"; "firewall"; "add"; "rule";
    "name=" +:+ ContainRuleName;
    "dir=out";
    "remoteip=0.0.0.0-" +:+ PrevIP ip +:+ "," +:+ NextIP ip +:+ "-255.255.255.255";
    "action=block"]).

Definition uncontainCmd : ExecCmd :=
  ("netsh.exe",
   ["advfirewall"; "firewall"; "delete"; "rule";
    "name=" +:+ ContainRuleName]).

(** The output or the error of a local handler, stored in the command. *)
Definition store (r : Out * option error) (cmd : Command Out) : Command Out :=
  match r with
  | (_, Some err) => set_Error err cmd
  | (out, None) => set_Stdout out cmd
  end.

(** The switch processing the commands: the command as it is handed to the
    execution machinery, and the processes terminated on the way. *)
Definition dispatch (cmd : Command Out) : Command Out * list Z :=
  let name := Name cmd in
  (* Aliases *)
  if String.eqb name "contain" then (FromExecCmd containCmd cmd, [])
  else if String.eqb name "uncontain" then (FromExecCmd uncontainCmd cmd, [])
  else if String.eqb name "osquery" then
    if IsFile OSQueryBin then
      let cmd := set_Name OSQueryBin cmd in
      let cmd := set_Args (["--json"; "-A"] ++ Args cmd) cmd in
      (set_ExpectJSON true cmd, [])
    else
      let cmd := Unrunnable cmd in
      (set_Error ("OSQuery binary file configured does not exist: " +:+ OSQueryBin) cmd, [])
  (* HIDs internal commands *)
  else if String.eqb name "terminate" then
    let cmd := Unrunnable cmd in
    match Args cmd with
    | spid :: _ =>
        match Atoi spid with
        | (_, Some err) => (set_Error ("failed to parse pid: " +:+ err) cmd, [])
        | (pid, None) =>
            match terminate pid with
            | Some err => (set_Error err cmd, [pid])
            | None => (cmd, [pid])
            end
        end
    | [] => (cmd, [])
    end
  else if String.eqb name "hash" then
    let cmd := set_ExpectJSON true (Unrunnable cmd) in
    match Args cmd with
    | a :: _ => (store (cmdHash a) cmd, [])
    | [] => (cmd, [])
    end
  else if String.eqb name "stat" then
    let cmd := set_ExpectJSON true (Unrunnable cmd) in
    match Args cmd with
    | a :: _ => (store (cmdStat a) cmd, [])
    | [] => (cmd, [])
    end
  else if String.eqb name "dir" then
    let cmd := set_ExpectJSON true (Unrunnable cmd) in
    match Args cmd with
    | a :: _ => (store (cmdDir a) cmd, [])
    | [] => (cmd, [])
    end
  else if String.eqb name "walk" then
    let cmd := set_ExpectJSON true (Unrunnable cmd) in
    match Args cmd with
    | a :: _ => (set_Stdout (cmdWalk a) cmd, [])
    | [] => (cmd, [])
    end
  else if String.eqb name "find" then
    let cmd := set_ExpectJSON true (Unrunnable cmd) in
    match Args cmd with
    | [a; b] => (store (cmdFind a b) cmd, [])
    | _ => (cmd, [])
    end
  else if String.eqb name "report" then
    (set_Stdout Report (set_ExpectJSON true (Unrunnable cmd)), [])
  else if String.eqb name "processes" then
    (set_Stdout PS (set_ExpectJSON true (Unrunnable cmd)), [])
  else if String.eqb name "drivers" then
    (set_Stdout Drivers (set_ExpectJSON true (Unrunnable cmd)), [])
  else (cmd, []).

(** handleManagerCommand: the switch, then the run of the command; the
    error of the run is logged. *)
Definition handleManagerCommand (cmd : Command Out) (logs : list (LogLevel * string))
    : Command Out * list Z * list (LogLevel * string) :=
  let '(cmd, killed) := dispatch cmd in
  (* we finally run the command *)
  match Run cmd with
  | (cmd, Some err) =>
      (cmd, killed,
       logs ++ [(LError, "failed to run command sent by manager " +:+ dquote
                         +:+ Command_String cmd +:+ dquote +:+ ": " +:+ err)])
  | (cmd, None) => (cmd, killed, logs)
  end.

(** The commands the agent handles itself. *)
Definition internal_commands : list string :=
  ["terminate"; "hash"; "stat"; "dir"; "walk"; "find"; "report"; "processes"; "drivers"].

Definition aliases : list string := ["contain"; "uncontain"; "osquery"].

End Commands.

End ManagerCommands.

(** ** The cron routine (cronRoutine)

    The routine keeps four timestamps and, every second, reads the clock
    and takes the first case of its switch that is due.  Instants are
    nanoseconds; [Sub] saturates at the bounds of [time.Duration]. *)

Module Cron.

Definition maxDuration : Z := 2 ^ 63 - 1.
Definition minDuration : Z := - 2 ^ 63.

(** [t.Sub(u)] *)
Definition Sub (t u : Z) : Z := Z.max minDuration (Z.min maxDuration (t - u)).

Definition Minute : Z := 60 * CommandRunner.Second.

Record Timestamps := {
  lastUpdateTs : Z;
  lastUploadTs : Z;
  lastArchDelTs : Z;
  lastCmdRunTs : Z;
}.

(** The cases of the switch. *)
Inductive Case := HandleUpdates | HandleUploads | HandleArchiveCleaning | HandleCommands.

Definition start (now : Z) : Timestamps :=
  {| lastUpdateTs := now; lastUploadTs := now; lastArchDelTs := now; lastCmdRunTs := now |}.

(** One turn of the loop with the clock reading [now]: the case taken, if
    any, and the timestamps after it. *)
Definition tick (UpdateInterval : Z) (ts : Timestamps) (now : Z) : option Case * Timestamps :=
  (* handle updates *)
  if Sub now (lastUpdateTs ts) >=? UpdateInterval then
    (Some HandleUpdates,
     {| lastUpdateTs := now; lastUploadTs := lastUploadTs ts;
        lastArchDelTs := lastArchDelTs ts; lastCmdRunTs := lastCmdRunTs ts |})
  (* handle uploads *)
  else if Sub now (lastUploadTs ts) >=? Minute then
    (Some HandleUploads,
     {| lastUpdateTs := lastUpdateTs ts; lastUploadTs := now;
        lastArchDelTs := lastArchDelTs ts; lastCmdRunTs := lastCmdRunTs ts |})
  (* handle sysmon archive cleaning *)
  else if Sub now (lastArchDelTs ts) >=? Minute then
    (Some HandleArchiveCleaning,
     {| lastUpdateTs := lastUpdateTs ts; lastUploadTs := lastUploadTs ts;
        lastArchDelTs := now; lastCmdRunTs := lastCmdRunTs ts |})
  (* handle command to run *)
  else if Sub now (lastCmdRunTs ts) >=? 5 * CommandRunner.Second then
    (Some HandleCommands,
     {| lastUpdateTs := lastUpdateTs ts; lastUploadTs := lastUploadTs ts;
        lastArchDelTs := lastArchDelTs ts; lastCmdRunTs := now |})
  else (None, ts).

(** The loop over the successive readings of the clock: the cases taken. *)
Fixpoint run (UpdateInterval : Z) (ts : Timestamps) (nows : list Z) : list (option Case) * Timestamps :=
  match nows with
  | [] => ([], ts)
  | now :: rest =>
      let '(c, ts1) := tick UpdateInterval ts now in
      let '(cs, ts2) := run UpdateInterval ts1 rest in
      (c :: cs, ts2)
  end.

(** Clock readings that never go back from [t]. *)
Fixpoint monotone (t : Z) (nows : list Z) : Prop :=
  match nows with
  | [] => True
  | now :: rest => t <= now /\ monotone now rest
  end.

End Cron.

(** ** More inputs for the statements

    Disks on which a file cannot be written, agents that log or print every
    event, a directory of archived files and handlers for the commands of
    the manager. *)

Module MoreSample.
Import Sample.

(** The rule file cannot be written. *)
Definition readonly_rules_disk : FS :=
  {| files := ∅; unwritable := {[ rulesDB ++ ["database.gen"] ]}; unreadable := ∅ |}.

(** The digest file of the rules cannot be written. *)
Definition readonly_digest_disk : FS :=
  {| files := ∅; unwritable := {[ rulesDB ++ ["database.gen.sha256"] ]}; unreadable := ∅ |}.

(** The rules of [honest_manager] as persisted, without its container. *)
Definition rules_synced_disk : FS := disk [
  (rulesDB ++ ["database.gen"], Plain "rule-text");
  (rulesDB ++ ["database.gen.sha256"], Plain (Sha256 "rule-text"))
].

(** A standalone agent that logs every event. *)
Definition logging_agent : HIDS ToyEngine string := agent true true 5 honest_manager old_engine.

(** A standalone agent that prints every event. *)
Definition printing_agent : HIDS ToyEngine string := {|
  preHooks := [];
  postHooks := [hookDump];
  forwarder := {| Local := true; Client := honest_manager; Pipe := [] |};
  config := cfg true false 5;
  eventScanned := 0;
  alertReported := 0;
  tracked := no_tracking;
  Engine := old_engine;
  DryRun := false;
  PrintAll := true;
|}.

(** Dump configurations. *)
Definition dump_mode (m : string) : DumpConfig :=
  {| Mode := m; Dir := ["whids"; "dumps"]; Treshold := 8; MaxDumps := 4;
     Compression := true; DumpUntracked := false |}.

(** An archive directory with one old archived file. *)
Definition archive_dir : Path := ["Sysmon"].
Definition archived_file : Path := archive_dir ++ ["0123456789ABCDEF0123456789ABCDEF.exe"].
Definition archive_disk : FS := disk [(archived_file, Plain "MZ")].
Definition archive_state : ArchiveState :=
  {| arch_fs := archive_disk; reported := ∅; arch_logs := [] |}.
Definition old_files (p : Path) : Z := 0.

(** Handlers answering with fixed texts; no osquery binary is installed and
    no process can be terminated. *)
#[export] Instance handlers : ManagerCommands.CommandHandlers string := {
  ManagerCommands.FromExecCmd e c :=
    {| ManagerCommands.Name := e.1; ManagerCommands.Args := e.2;
       ManagerCommands.Stdout := ManagerCommands.Stdout c;
       ManagerCommands.Error := ManagerCommands.Error c;
       ManagerCommands.ExpectJSON := ManagerCommands.ExpectJSON c;
       ManagerCommands.runnable := true |};
  ManagerCommands.ManagerIP := "10.0.0.1";
  ManagerCommands.PrevIP _ := "10.0.0.0";
  ManagerCommands.NextIP _ := "10.0.0.2";
  ManagerCommands.OSQueryBin := "osqueryi.exe";
  ManagerCommands.IsFile _ := false;
  ManagerCommands.Atoi s := if String.eqb s "42" then (42, None) else (0, Some "invalid syntax");
  ManagerCommands.terminate _ := Some "access is denied";
  ManagerCommands.cmdHash p := ("hash of " +:+ p, None);
  ManagerCommands.cmdStat p := ("stat of " +:+ p, None);
  ManagerCommands.cmdDir p := ("", Some "not a directory");
  ManagerCommands.cmdWalk p := "walk of " +:+ p;
  ManagerCommands.cmdFind p pattern := ("", Some "bad pattern");
  ManagerCommands.Report := "report";
  ManagerCommands.PS := "processes";
  ManagerCommands.Drivers := "drivers";
  ManagerCommands.Run c := (c, None);
  ManagerCommands.Command_String c := ManagerCommands.Name c;
}.

Definition command (name : string) (args : list string) : ManagerCommands.Command string :=
  {| ManagerCommands.Name := name; ManagerCommands.Args := args;
     ManagerCommands.Stdout := None; ManagerCommands.Error := "";
     ManagerCommands.ExpectJSON := false; ManagerCommands.runnable := true |}.

End MoreSample.

(** * Properties *)

(** ** Machine integers *)

Lemma int64_add_exact a b : - 2 ^ 63 <= a + b < 2 ^ 63 -> int64_add a b = a + b.
Proof.
  unfold int64_add. change (2 ^ 64) with (2 * 2 ^ 63).
  set (k := 2 ^ 63). assert (0 < k) by reflexivity.
  intros Hab. rewrite Z.mod_small by lia. lia.
Qed.

Lemma uint64_incr_exact n : 0 <= n < 2 ^ 64 - 1 -> uint64_incr n = n + 1.
Proof. unfold uint64_incr. intros Hn. apply Z.mod_small. lia. Qed.

(** ** The command runner *)

Module CommandRunnerFacts.
Import CommandRunner.

Section Burst.

Context {Cmd : Type}.

Lemma on_fetch_idle (f : Fetched Cmd) l : is_command f = false -> on_fetch f l = l.
Proof. destruct f; [discriminate | reflexivity | reflexivity]. Qed.

(** A fast tick below the window: the accumulator grows by the fast
    interval and the interval stays fast. *)
Lemma iteration_fast (f : Fetched Cmd) d :
  is_command f = false -> 0 <= d < tgtBurstDur ->
  iteration f {| sleep := burstSleep; burstDur := d |}
  = ({| sleep := burstSleep; burstDur := d + burstSleep |}, burstSleep).
Proof.
  intros Hf Hd. unfold iteration. rewrite (on_fetch_idle _ _ Hf).
  unfold check_window, accumulate. cbn [sleep burstDur].
  destruct (Z.geb_spec d tgtBurstDur) as [Hge|_]; [lia|]. cbn [sleep burstDur].
  rewrite Z.eqb_refl. rewrite int64_add_exact; [reflexivity|].
  assert (2 ^ 63 = 9223372036854775808) as -> by reflexivity.
  unfold tgtBurstDur, burstSleep, Second, Millisecond in *. lia.
Qed.

(** The window is reached: the interval reverts to the default. *)
Lemma iteration_revert (f : Fetched Cmd) s d :
  is_command f = false -> tgtBurstDur <= d ->
  iteration f {| sleep := s; burstDur := d |}
  = ({| sleep := defaultSleep; burstDur := d |}, defaultSleep).
Proof.
  intros Hf Hd. unfold iteration. rewrite (on_fetch_idle _ _ Hf).
  unfold check_window, accumulate. cbn [sleep burstDur].
  destruct (Z.geb_spec d tgtBurstDur) as [_|Hlt]; [|lia]. reflexivity.
Qed.

Lemma run_after_window (fs : list (Fetched Cmd)) s d :
  Forall (fun f => is_command f = false) fs -> tgtBurstDur <= d ->
  run fs {| sleep := s; burstDur := d |}
  = (repeat defaultSleep (length fs), {| sleep := (if fs is [] then s else defaultSleep); burstDur := d |}).
Proof.
  intros Hfs Hd. revert s. induction Hfs as [|f fs Hf _ IH]; intros s; [reflexivity|].
  cbn [run]. rewrite (iteration_revert f s d Hf Hd), IH.
  destruct fs; reflexivity.
Qed.

Lemma run_in_window (fs : list (Fetched Cmd)) (n : nat) d :
  Forall (fun f => is_command f = false) fs -> length fs = n ->
  0 <= d -> d + Z.of_nat n * burstSleep <= tgtBurstDur ->
  run fs {| sleep := burstSleep; burstDur := d |}
  = (repeat burstSleep n, {| sleep := burstSleep; burstDur := d + Z.of_nat n * burstSleep |}).
Proof.
  intros Hfs. revert n d. induction Hfs as [|f fs Hf _ IH]; intros n d Hn Hd Hle.
  - subst n. simpl. repeat f_equal. lia.
  - destruct n as [|n]; [discriminate|]. injection Hn as Hn.
    assert (0 < burstSleep) by reflexivity.
    rewrite Nat2Z.inj_succ in *.
    cbn [run].
    rewrite (iteration_fast f d Hf) by (unfold tgtBurstDur, burstSleep, Second, Millisecond in *; lia).
    rewrite (IH n (d + burstSleep) Hn) by (unfold tgtBurstDur, burstSleep, Second, Millisecond in *; lia).
    simpl repeat. do 2 f_equal. unfold Z.succ. ring.
Qed.

Lemma run_app (fs1 fs2 : list (Fetched Cmd)) l :
  run (fs1 ++ fs2) l
  = let '(ds1, l1) := run fs1 l in
    let '(ds2, l2) := run fs2 l1 in (ds1 ++ ds2, l2).
Proof.
  revert l. induction fs1 as [|f fs1 IH]; intros l.
  - simpl. destruct (run fs2 l). reflexivity.
  - cbn [app run]. destruct (iteration f l) as [l1 d]. rewrite IH.
    destruct (run fs1 l1) as [ds1 l2]. destruct (run fs2 l2). reflexivity.
Qed.

Lemma iteration_command (c : Cmd) l :
  iteration (GotCommand c) l
  = ({| sleep := burstSleep; burstDur := burstSleep |}, burstSleep).
Proof. reflexivity. Qed.

(** C8: receiving a command sets the interval to the fast value and the
    accumulator to zero; on a fast tick the accumulator grows by the fast
    interval, and the interval reverts to the default exactly when the
    accumulator has reached the window; the window of 30 s is 60 fast
    intervals of 500 ms, so after a single command exactly 60 sleeps are
    fast and every later one is slow. *)
Theorem command_burst (c : Cmd) (l : Locals) (idle : list (Fetched Cmd)) (k : nat)
    (Hidle : Forall (fun f => is_command f = false) idle)
    (Hlen : length idle = (59 + k)%nat) :
  on_fetch (GotCommand c) l = {| sleep := burstSleep; burstDur := 0 |} /\
  (forall (f : Fetched Cmd) d, is_command f = false -> 0 <= d ->
     iteration f {| sleep := burstSleep; burstDur := d |}
     = if d >=? tgtBurstDur
       then ({| sleep := defaultSleep; burstDur := d |}, defaultSleep)
       else ({| sleep := burstSleep; burstDur := d + burstSleep |}, burstSleep)) /\
  tgtBurstDur = 60 * burstSleep /\
  (run (GotCommand c :: idle) l).1 = repeat burstSleep 60 ++ repeat defaultSleep k.
Proof.
  split; [reflexivity|]. split; [|split; [reflexivity|]].
  - intros f d Hf Hd. destruct (Z.geb_spec d tgtBurstDur) as [Hge|Hlt].
    + apply iteration_revert; assumption.
    + apply iteration_fast; [assumption | lia].
  - cbn [run]. rewrite iteration_command.
    rewrite <- (take_drop 59 idle), run_app.
    assert (Htake : length (take 59 idle) = 59%nat) by (rewrite length_take; lia).
    assert (Hdrop : length (drop 59 idle) = k) by (rewrite length_drop; lia).
    rewrite (run_in_window (take 59 idle) 59 burstSleep);
      [| apply Forall_take, Hidle | exact Htake | discriminate | discriminate].
    rewrite (run_after_window (drop 59 idle));
      [| apply Forall_drop, Hidle | discriminate].
    rewrite Hdrop. reflexivity.
Qed.

End Burst.

Lemma command_burst_witness :
  (run (GotCommand tt :: repeat NothingToDo 61) initial).1
  = repeat burstSleep 60 ++ [defaultSleep; defaultSleep].
Proof.
  refine (proj2 (proj2 (proj2
    (command_burst tt initial (repeat NothingToDo 61) 2 _ eq_refl)))).
  repeat constructor.
Defined.

End CommandRunnerFacts.

(** ** Names, paths and the round trip of a container name *)

Section Names.

Lemma split_sep_no_separator s :
  has_separator s = false -> split_sep s = [s].
Proof.
  induction s as [|c s IH]; simpl; [reflexivity|].
  unfold has_separator in *; simpl.
  intros [Hc Hs]%orb_false_iff. rewrite Hc, (IH Hs). reflexivity.
Qed.

Lemma string_exists_app p s t :
  string_exists p (s +:+ t) = string_exists p s || string_exists p t.
Proof.
  induction s as [|c s IH]; simpl; [reflexivity|].
  rewrite IH. apply orb_assoc.
Qed.

Lemma SplitN_dot_head_app name rest :
  has_dot name = false ->
  SplitN_dot_head (name +:+ String "."%char rest) = name.
Proof.
  induction name as [|c s IH]; simpl; [reflexivity|].
  unfold has_dot in *; simpl.
  intros [Hc Hs]%orb_false_iff. rewrite Hc, (IH Hs). reflexivity.
Qed.

Lemma HasSuffix_refl s : HasSuffix s s = true.
Proof. destruct s; cbn [HasSuffix]; rewrite String.eqb_refl; reflexivity. Qed.

Lemma HasSuffix_app s suffix : HasSuffix (s +:+ suffix) suffix = true.
Proof.
  induction s as [|c s IH].
  - apply HasSuffix_refl.
  - change (String c s +:+ suffix) with (String c (s +:+ suffix)).
    cbn [HasSuffix].
    destruct (String.eqb _ _); [reflexivity | exact IH].
Qed.

Lemma clean_step_keeps acc c :
  (3 <= String.length c)%nat -> clean_step acc c = acc ++ [c].
Proof.
  intros Hlen. unfold clean_step.
  destruct c as [|a [|b [|d c]]]; simpl in Hlen; try lia.
  cbn [String.eqb orb].
  destruct (Ascii.eqb a "."); [destruct (Ascii.eqb b ".")|]; reflexivity.
Qed.

Lemma length_append s t : String.length (s +:+ t) = (String.length s + String.length t)%nat.
Proof. induction s; simpl; [reflexivity | congruence]. Qed.

Lemma Join_file dir f :
  has_separator f = false -> (3 <= String.length f)%nat ->
  Join dir f = dir ++ [f].
Proof.
  intros Hsep Hlen. unfold Join.
  rewrite (split_sep_no_separator _ Hsep). simpl.
  apply clean_step_keeps, Hlen.
Qed.

Lemma Base_snoc dir f : Base (dir ++ [f]) = f.
Proof. unfold Base. apply last_last. Qed.

Lemma container_file_name (dir : Path) (name : string) :
  has_separator name = false ->
  Join dir (name +:+ containerExt) = dir ++ [name +:+ containerExt].
Proof.
  intros Hsep. apply Join_file.
  - unfold has_separator in *. rewrite string_exists_app, Hsep. reflexivity.
  - rewrite length_append. simpl. lia.
Qed.

End Names.

Section RoundTrip.

Context {E Rule CRule : Type} `{!Gene E Rule CRule}.

(** C10 (amended): for every container name containing no '.' and no path
    separator, the file [containerPaths] designates is named
    name + ".cont.gz"; once the container is persisted there, the walk of
    the container directory lists that file, [loadContainers] recognises
    its extension and loads it into the engine under exactly the original
    name; and for some name containing a '.', the name derived from the
    file differs from the original: it is cut at the first dot. *)
Theorem container_name_round_trip
    (h : HIDS E Rule) (w : World) (name payload : string)
    (Hdot : has_dot name = false)
    (Hsep : has_separator name = false)
    (Hw : (containerPaths h name).1 ∉ unwritable (fs w))
    (Hr : (containerPaths h name).1 ∉ unreadable (fs w)) :
  let db := ContainersDB (RulesConfig (config h)) in
  let file := Base (containerPaths h name).1 in
  (file = name +:+ containerExt /\
   HasSuffix file containerExt = true /\
   SplitN_dot_head file = name) /\
  (let '(err, st) := create_gzip (containerPaths h name).1 payload (h, w) in
   err = None /\
   {| Dirpath := db; Files := [file] |} ∈ Walk (fs st.2) db /\
   load_container_file db file None st
   = (None, (set_Engine (LoadContainer name payload (Engine h)) h, st.2))) /\
  (exists dotted,
     has_dot dotted = true /\
     SplitN_dot_head (Base (containerPaths h dotted).1) = SplitN_dot_head dotted /\
     SplitN_dot_head (Base (containerPaths h dotted).1) <> dotted).
Proof.
  intros db file. subst file.
  assert (Hp : (containerPaths h name).1 = db ++ [name +:+ containerExt])
    by (apply container_file_name, Hsep).
  rewrite Hp in *. rewrite Base_snoc.
  assert (Hhead : SplitN_dot_head (name +:+ containerExt) = name)
    by (apply SplitN_dot_head_app, Hdot).
  assert (Hsuf : HasSuffix (name +:+ containerExt) containerExt = true)
    by apply HasSuffix_app.
  split; [auto|]. split.
  - unfold create_gzip, bind, getW, modW, ret. simpl.
    rewrite bool_decide_eq_false_2 by exact Hw. simpl.
    split; [reflexivity|]. split.
    + unfold Walk. apply list_elem_of_omap.
      exists (db ++ [name +:+ containerExt], Gzip payload). split.
      * apply elem_of_map_to_list. simpl. apply lookup_insert_eq.
      * unfold walk_item. simpl. rewrite removelast_last, Base_snoc.
        rewrite bool_decide_eq_true_2; [reflexivity|].
        split; [destruct db; discriminate | reflexivity].
    + unfold load_container_file. rewrite Hsuf, Hhead.
      rewrite (container_file_name db name Hsep).
      unfold bind, getW, ret, Engine_LoadContainer, modH, os_Open. simpl.
      rewrite lookup_insert_eq.
      rewrite bool_decide_eq_false_2 by exact Hr. reflexivity.
  - exists "a.b". split; [reflexivity|].
    unfold containerPaths, Join. simpl. fold db.
    change (clean_step db "a.b.cont.gz") with (db ++ ["a.b.cont.gz"]).
    rewrite (Base_snoc db). split; [reflexivity | discriminate].
Qed.

End RoundTrip.

(** ** Rules, containers and the engine *)

Ltac monad_unfold :=
  repeat progress
    (unfold request, readFileString, when, log_Error, log_Warn,
       bind, ret, getH, getW, modH, modW in *;
     cbn beta iota zeta delta [fst snd] in *).

Lemma eqb_neq_false (a b : string) : a <> b -> String.eqb a b = false.
Proof. intros H. apply String.eqb_neq, H. Qed.

Section Sync.

Context {E Rule CRule : Type} `{!Gene E Rule CRule} `{!Digests}.

Implicit Types (h : HIDS E Rule) (w : World).

Lemma bind_run {A B} (m : M E Rule A) (k : A -> M E Rule B) st a st' :
  m st = (a, st') -> bind m k st = k a st'.
Proof. intros Hm. unfold bind. rewrite Hm. reflexivity. Qed.

(** *** Computations that leave the agent alone *)

Local Abbreviation kept := (@keeps_agent E Rule _).

Lemma keeps_agent_ret {A} (a : A) : kept (ret a : M E Rule A).
Proof. intros h w. reflexivity. Qed.

Lemma keeps_agent_bind {A B} (m : M E Rule A) (k : A -> M E Rule B) :
  kept m -> (forall a, kept (k a)) -> kept (bind m k).
Proof.
  intros Hm Hk h w. unfold bind.
  specialize (Hm h w). destruct (m (h, w)) as [a [h' w']]. cbn in Hm. subst h'.
  apply Hk.
Qed.

Lemma keeps_agent_getH : kept (getH : M E Rule _).
Proof. intros h w. reflexivity. Qed.

Lemma keeps_agent_getW : kept (getW : M E Rule _).
Proof. intros h w. reflexivity. Qed.

Lemma keeps_agent_modW f : kept (modW f : M E Rule _).
Proof. intros h w. reflexivity. Qed.

Lemma keeps_agent_request {A} c (f : ManagerClient -> A) : kept (request c f : M E Rule _).
Proof. intros h w. reflexivity. Qed.

Lemma keeps_agent_readFileString p : kept (readFileString p : M E Rule _).
Proof. intros h w. reflexivity. Qed.

Lemma keeps_agent_WriteFile p d : kept (WriteFile p d : M E Rule _).
Proof.
  intros h w. unfold WriteFile. monad_unfold.
  destruct (bool_decide _); reflexivity.
Qed.

Lemma keeps_agent_create_gzip p d : kept (create_gzip p d : M E Rule _).
Proof.
  intros h w. unfold create_gzip. monad_unfold.
  destruct (bool_decide _); reflexivity.
Qed.

Lemma keeps_agent_log_Error msg : kept (log_Error msg : M E Rule _).
Proof. intros h w. reflexivity. Qed.

Ltac keeps_agent_step :=
  match goal with
  | |- keeps_agent (bind _ _) => apply keeps_agent_bind; [|intros ?]
  | |- keeps_agent (ret _) => apply keeps_agent_ret
  | |- keeps_agent (match ?x with _ => _ end) => destruct x
  | |- keeps_agent (let '(_, _) := ?x in _) => destruct x
  | |- keeps_agent _ =>
      first [ apply keeps_agent_getH | apply keeps_agent_getW | apply keeps_agent_modW
            | apply keeps_agent_request | apply keeps_agent_readFileString
            | apply keeps_agent_WriteFile | apply keeps_agent_create_gzip
            | apply keeps_agent_log_Error | assumption ]
  end.

Lemma keeps_agent_needsContainerUpdate name : kept (needsContainerUpdate name).
Proof. unfold needsContainerUpdate. repeat keeps_agent_step. Qed.

Lemma keeps_agent_fetch_container name : kept (fetch_container name).
Proof. unfold fetch_container. repeat keeps_agent_step. Qed.

Lemma keeps_agent_fetch_containers l : kept (fetch_containers l).
Proof.
  induction l as [|name l IH]; cbn [fetch_containers].
  - apply keeps_agent_ret.
  - apply keeps_agent_bind; [apply keeps_agent_needsContainerUpdate|].
    intros [|]; [|exact IH].
    apply keeps_agent_bind; [apply keeps_agent_fetch_container|].
    intros [e|]; [apply keeps_agent_ret | exact IH].
Qed.

Lemma keeps_agent_run {A} (m : M E Rule A) h w :
  kept m -> m (h, w) = ((m (h, w)).1, (h, (m (h, w)).2.2)).
Proof.
  intros Hm. specialize (Hm h w).
  destruct (m (h, w)) as [a [h' w']]. cbn in *. subst. reflexivity.
Qed.

(** *** What each step of the container loop does *)

Lemma needsContainerUpdate_run h w name :
  needsContainerUpdate name (h, w)
  = (negb (String.eqb (local_digest h w name) (reported_digest h name)),
     (h, add_call (CallGetContainerSha256 name) w)).
Proof.
  unfold needsContainerUpdate, local_digest, reported_digest. monad_unfold.
  destruct (containerPaths h name) as [p q]. cbn [fst snd].
  destruct (GetContainerSha256 (Client (forwarder h)) name) as [remote rerr].
  cbn [fst snd add_call fs].
  destruct (ReadFileString (fs w) q) as [loc lerr]. reflexivity.
Qed.

Lemma fetch_containers_cons name rest h w :
  fetch_containers (name :: rest) (h, w)
  = let w1 := add_call (CallGetContainerSha256 name) w in
    if negb (String.eqb (local_digest h w name) (reported_digest h name))
    then match fetch_container name (h, w1) with
         | (Some e, st) => (Some e, st)
         | (None, st) => fetch_containers rest st
         end
    else fetch_containers rest (h, w1).
Proof.
  cbn [fetch_containers].
  rewrite (bind_run _ _ _ _ _ (needsContainerUpdate_run h w name)).
  destruct (negb _); [|reflexivity].
  unfold bind. destruct (fetch_container name _) as [[e|] st]; reflexivity.
Qed.

Lemma fetch_containers_app pre l h w :
  fetch_containers (pre ++ l) (h, w)
  = match fetch_containers pre (h, w) with
    | (None, st) => fetch_containers l st
    | r => r
    end.
Proof.
  revert w. induction pre as [|name pre IH]; intros w; [reflexivity|].
  rewrite <- app_comm_cons, !fetch_containers_cons. cbv zeta.
  destruct (negb _); [|apply IH].
  rewrite (keeps_agent_run _ _ _ (keeps_agent_fetch_container name)).
  destruct (fetch_container name _) as [[e|] st]; cbn [fst snd]; [reflexivity | apply IH].
Qed.

(** A container that is served and whose recomputed digest is not the
    reported one: nothing is written. *)
Lemma fetch_container_mismatch name h w cont :
  GetContainer (Client (forwarder h)) name = (cont, None) ->
  Sha256StringArray cont <> reported_digest h name ->
  fetch_container name (h, w)
  = (Some (integrity_error name),
     (h, add_call (CallGetContainerSha256 name) (add_call (CallGetContainer name) w))).
Proof.
  unfold reported_digest. intros Hget Hbad.
  unfold fetch_container. monad_unfold. rewrite Hget. monad_unfold.
  destruct (GetContainerSha256 (Client (forwarder h)) name) as [sha serr].
  monad_unfold. rewrite (eqb_neq_false _ _ Hbad). reflexivity.
Qed.

Lemma fs_add_calls tr w : fs (add_calls tr w) = fs w.
Proof. revert w. induction tr as [|c tr IH]; intros w; [reflexivity|]. cbn. rewrite IH. reflexivity. Qed.

(** Containers whose persisted digest is the reported one are passed
    over. *)
Lemma fetch_containers_up_to_date l h w :
  Forall (fun name => local_digest h w name = reported_digest h name) l ->
  fetch_containers l (h, w) = (None, (h, add_calls (map CallGetContainerSha256 l) w)).
Proof.
  intros Hl. revert w Hl. induction l as [|name l IH]; intros w Hl; [reflexivity|].
  inversion Hl as [|? ? Hname Hrest]; subst.
  rewrite fetch_containers_cons. cbv zeta.
  rewrite Hname, String.eqb_refl. cbn [negb map add_calls fold_left].
  apply IH. exact Hrest.
Qed.

(** *** The rules *)

Lemma needsRulesUpdate_run h w :
  needsRulesUpdate (h, w)
  = if Local (forwarder h) then (false, (h, w))
    else match GetRulesSha256 (Client (forwarder h)) with
         | (_, Some _) => (false, (h, add_call CallGetRulesSha256 w))
         | (sha, None) =>
             (negb (String.eqb (ReadFileString (fs w) (RulesPaths h).2).1 sha),
              (h, add_call CallGetRulesSha256 w))
         end.
Proof.
  unfold needsRulesUpdate. monad_unfold.
  destruct (RulesPaths h) as [p q]. cbn [snd].
  destruct (Local (forwarder h)); [reflexivity|]. monad_unfold.
  destruct (GetRulesSha256 (Client (forwarder h))) as [sha [e|]]; [reflexivity|].
  monad_unfold. cbn [fs add_call].
  destruct (ReadFileString (fs w) q) as [loc lerr]. reflexivity.
Qed.

Lemma fetchRules_mismatch h w sha rules :
  FwdLocal (FwdConfig (config h)) = false ->
  GetRulesSha256 (Client (forwarder h)) = (sha, None) ->
  GetRules (Client (forwarder h)) = (rules, None) ->
  sha <> Sha256 rules ->
  fetchRulesFromManager (h, w)
  = (Some "failed to verify rules integrity",
     (h, add_call CallGetRules (add_call CallGetRulesSha256 w))).
Proof.
  intros Hlocal Hsha Hrules Hbad.
  unfold fetchRulesFromManager. monad_unfold.
  destruct (RulesPaths h) as [p q]. rewrite Hlocal. monad_unfold.
  rewrite Hsha. monad_unfold. rewrite Hrules. monad_unfold.
  rewrite (eqb_neq_false _ _ Hbad). reflexivity.
Qed.

Lemma fetchContainers_run h w l :
  FwdLocal (FwdConfig (config h)) = false ->
  GetContainersList (Client (forwarder h)) = (l, None) ->
  fetchContainersFromManager (h, w)
  = fetch_containers l (h, add_call CallGetContainersList w).
Proof.
  intros Hlocal Hlist. unfold fetchContainersFromManager. monad_unfold.
  rewrite Hlocal. monad_unfold. rewrite Hlist. reflexivity.
Qed.

(** C1: when the digest recomputed over the retrieved rules is not the
    digest the manager reported, fetchRulesFromManager returns the
    integrity error and the file system is the one it started from, so
    neither the rules file nor its digest sidecar is written; and when the
    container loop reaches a stale container whose recomputed digest is not
    the reported one, fetchContainersFromManager returns the integrity
    error of that container and the file system is the one the loop had
    when it reached it (the one the operation started from when the
    containers before it were up to date), so neither the container file
    nor its sidecar is written. *)
Theorem fetch_integrity h w :
  (forall sha rules,
     FwdLocal (FwdConfig (config h)) = false ->
     GetRulesSha256 (Client (forwarder h)) = (sha, None) ->
     GetRules (Client (forwarder h)) = (rules, None) ->
     sha <> Sha256 rules ->
     exists w',
       fetchRulesFromManager (h, w) = (Some "failed to verify rules integrity", (h, w')) /\
       fs w' = fs w) /\
  (forall pre name rest cont w1,
     FwdLocal (FwdConfig (config h)) = false ->
     GetContainersList (Client (forwarder h)) = (pre ++ name :: rest, None) ->
     fetch_containers pre (h, add_call CallGetContainersList w) = (None, (h, w1)) ->
     local_digest h w1 name <> reported_digest h name ->
     GetContainer (Client (forwarder h)) name = (cont, None) ->
     Sha256StringArray cont <> reported_digest h name ->
     exists w',
       fetchContainersFromManager (h, w) = (Some (integrity_error name), (h, w')) /\
       fs w' = fs w1 /\
       (Forall (fun c => local_digest h w c = reported_digest h c) pre -> fs w' = fs w)).
Proof.
  split.
  - intros sha rules Hlocal Hsha Hrules Hbad.
    eexists. split; [apply (fetchRules_mismatch h w sha rules); assumption | reflexivity].
  - intros pre name rest cont w1 Hlocal Hlist Hpre Hstale Hget Hbad.
    rewrite (fetchContainers_run h w _ Hlocal Hlist).
    rewrite fetch_containers_app, Hpre, fetch_containers_cons. cbv zeta.
    rewrite (eqb_neq_false _ _ Hstale). cbn [negb].
    rewrite (fetch_container_mismatch name h _ cont Hget Hbad).
    eexists. split; [reflexivity|]. split; [reflexivity|].
    intros Hfresh. cbn [fs add_call].
    assert (Hsame : forall c, local_digest h (add_call CallGetContainersList w) c = local_digest h w c)
      by reflexivity.
    rewrite fetch_containers_up_to_date in Hpre
      by (eapply Forall_impl; [exact Hfresh | intros c Hc; rewrite Hsame; exact Hc]).
    injection Hpre as <-. rewrite fs_add_calls. reflexivity.
Qed.

(** *** Requests sent to the manager *)

Local Abbreviation asks := (@requests_only E Rule).

Lemma asks_quiet {A} P (m : M E Rule A) :
  (forall st, calls (m st).2.2 = calls st.2) -> asks P m.
Proof. intros Hm st. exists []. rewrite app_nil_r. split; [apply Hm | constructor]. Qed.

Lemma asks_bind {A B} P (m : M E Rule A) (k : A -> M E Rule B) :
  asks P m -> (forall a, asks P (k a)) -> asks P (bind m k).
Proof.
  intros Hm Hk st. unfold bind.
  destruct (Hm st) as (tr1 & Hc1 & Ht1).
  destruct (m st) as [a st1]. cbn [snd] in Hc1.
  destruct (Hk a st1) as (tr2 & Hc2 & Ht2).
  exists (tr1 ++ tr2). split.
  - rewrite Hc2, Hc1, app_assoc. reflexivity.
  - apply Forall_app; split; assumption.
Qed.

Lemma asks_ret {A} P (a : A) : asks P (ret a).
Proof. apply asks_quiet. reflexivity. Qed.

Lemma asks_getH P : asks P getH.
Proof. apply asks_quiet. reflexivity. Qed.

Lemma asks_getW P : asks P getW.
Proof. apply asks_quiet. reflexivity. Qed.

Lemma asks_modH P f : asks P (modH f).
Proof. apply asks_quiet. reflexivity. Qed.

Lemma asks_log_Error P msg : asks P (log_Error msg).
Proof. apply asks_quiet. reflexivity. Qed.

Lemma asks_readFileString P p : asks P (readFileString p).
Proof. apply asks_quiet. reflexivity. Qed.

Lemma asks_WriteFile P p d : asks P (WriteFile p d).
Proof.
  apply asks_quiet. intros [h w]. unfold WriteFile. monad_unfold.
  destruct (bool_decide _); reflexivity.
Qed.

Lemma asks_create_gzip P p d : asks P (create_gzip p d).
Proof.
  apply asks_quiet. intros [h w]. unfold create_gzip. monad_unfold.
  destruct (bool_decide _); reflexivity.
Qed.

Lemma asks_request {A} (P : ClientCall -> Prop) c (f : ManagerClient -> A) :
  P c -> asks P (request c f).
Proof. intros Hc [h w]. exists [c]. split; [reflexivity | repeat constructor; exact Hc]. Qed.

Ltac asks_step :=
  match goal with
  | |- requests_only _ (bind _ _) => apply asks_bind; [|intros ?]
  | |- requests_only _ (ret _) => apply asks_ret
  | |- requests_only _ (request _ _) => apply asks_request; try discriminate
  | |- requests_only _ (match ?x with _ => _ end) => destruct x
  | |- requests_only _ (let '(_, _) := ?x in _) => destruct x
  | |- requests_only _ _ =>
      first [ apply asks_getH | apply asks_getW | apply asks_modH
            | apply asks_readFileString | apply asks_WriteFile
            | apply asks_create_gzip | apply asks_log_Error | assumption ]
  end.

Section Requests.

Variable P : ClientCall -> Prop.
Hypothesis P_rules_digest : P CallGetRulesSha256.
Hypothesis P_list : P CallGetContainersList.
Hypothesis P_container_digest : forall name, P (CallGetContainerSha256 name).

Lemma asks_needsRulesUpdate : asks P needsRulesUpdate.
Proof.
  unfold needsRulesUpdate.
  apply asks_bind; [apply asks_getH|]. intros h.
  destruct (RulesPaths h) as [p q].
  destruct (Local (forwarder h)); [apply asks_ret|].
  apply asks_bind; [apply asks_request, P_rules_digest|].
  intros [sha [e|]]; [apply asks_ret|]. repeat asks_step.
Qed.

Lemma asks_needsContainerUpdate name : asks P (needsContainerUpdate name).
Proof.
  unfold needsContainerUpdate.
  apply asks_bind; [apply asks_getH|]. intros h.
  destruct (containerPaths h name) as [p q].
  apply asks_bind; [apply asks_request, P_container_digest|].
  intros [sha e]. repeat asks_step.
Qed.

Lemma asks_any_needs_update l : asks P (any_needs_update l).
Proof.
  induction l as [|name l IH]; cbn [any_needs_update]; [apply asks_ret|].
  apply asks_bind; [apply asks_needsContainerUpdate|].
  intros [|]; [apply asks_ret | exact IH].
Qed.

Lemma asks_needsContainersUpdate : asks P needsContainersUpdate.
Proof.
  unfold needsContainersUpdate.
  apply asks_bind; [apply asks_getH|]. intros h.
  destruct (Local (forwarder h)); [apply asks_ret|].
  apply asks_bind; [apply asks_request, P_list|].
  intros [l [e|]]; [apply asks_ret | apply asks_any_needs_update].
Qed.

Lemma asks_fetchRulesFromManager : P CallGetRules -> asks P fetchRulesFromManager.
Proof.
  intros P_rules. unfold fetchRulesFromManager.
  apply asks_bind; [apply asks_getH|]. intros h.
  destruct (RulesPaths h) as [p q].
  destruct (FwdLocal _); [apply asks_ret|].
  apply asks_bind; [apply asks_request, P_rules_digest|].
  intros [sha [e|]]; [apply asks_ret|].
  apply asks_bind; [apply asks_request, P_rules|].
  intros [rules [e|]]; [apply asks_ret|].
  destruct (negb _); [apply asks_ret|]. repeat asks_step.
Qed.

Lemma asks_fetch_container name :
  P (CallGetContainer name) -> asks P (fetch_container name).
Proof.
  intros P_container. unfold fetch_container.
  apply asks_bind; [apply asks_request, P_container|].
  intros [cont [e|]]; [apply asks_ret|].
  apply asks_bind; [apply asks_request, P_container_digest|].
  intros [sha e]. destruct (negb _); [apply asks_ret|].
  apply asks_bind; [apply asks_getH|]. intros h.
  destruct (containerPaths h name) as [p q]. repeat asks_step.
Qed.

Lemma asks_fetch_containers l :
  (forall name, P (CallGetContainer name)) -> asks P (fetch_containers l).
Proof.
  intros P_container.
  induction l as [|name l IH]; cbn [fetch_containers]; [apply asks_ret|].
  apply asks_bind; [apply asks_needsContainerUpdate|].
  intros [|]; [|exact IH].
  apply asks_bind; [apply asks_fetch_container, P_container|].
  intros [e|]; [apply asks_ret | exact IH].
Qed.

Lemma asks_fetchContainersFromManager :
  (forall name, P (CallGetContainer name)) -> asks P fetchContainersFromManager.
Proof.
  intros P_container. unfold fetchContainersFromManager.
  apply asks_bind; [apply asks_getH|]. intros h.
  destruct (FwdLocal _); [apply asks_ret|].
  apply asks_bind; [apply asks_request, P_list|].
  intros [l [e|]]; [apply asks_ret | apply asks_fetch_containers, P_container].
Qed.

End Requests.

Lemma asks_load_container_file P dir name lastErr :
  asks P (load_container_file dir name lastErr).
Proof.
  unfold load_container_file, Engine_LoadContainer.
  destruct (HasSuffix _ _); [|apply asks_ret].
  apply asks_bind; [apply asks_getW|]. intros w.
  destruct (os_Open _ _) as [fd [e|]]; [apply asks_ret|].
  destruct (gzip_NewReader fd) as [r [e|]]; [apply asks_ret|].
  repeat asks_step.
Qed.

Lemma asks_load_files P dir names lastErr : asks P (load_files dir names lastErr).
Proof.
  revert lastErr. induction names as [|fi names IH]; intros lastErr; cbn [load_files].
  - apply asks_ret.
  - apply asks_bind; [apply asks_load_container_file | intros e; apply IH].
Qed.

Lemma asks_load_items P items lastErr : asks P (load_items items lastErr).
Proof.
  revert lastErr. induction items as [|wi items IH]; intros lastErr; cbn [load_items].
  - apply asks_ret.
  - apply asks_bind; [apply asks_load_files | intros e; apply IH].
Qed.

Lemma asks_rebuild P rr rc force : asks P (rebuild rr rc force).
Proof.
  unfold rebuild. destruct (rr || rc || force); [|apply asks_ret].
  apply asks_bind; [apply asks_modH|]. intros _.
  apply asks_bind.
  { unfold loadContainers. repeat asks_step. apply asks_load_items. }
  intros [e|]; [apply asks_ret|].
  destruct (rr || force); [|apply asks_ret].
  apply asks_bind.
  { unfold load_canary_rules, add_canary, Engine_AddRule.
    apply asks_bind; [apply asks_getH|]. intros h.
    unfold when. destruct (Enable _); [|apply asks_ret].
    repeat asks_step. }
  intros _. unfold Engine_LoadDirectory. repeat asks_step.
Qed.

Lemma asks_refresh_rules P :
  P CallGetRulesSha256 -> forall (stale : bool), (stale = true -> P CallGetRules) ->
  asks P (if stale
          then bind fetchRulesFromManager
                 (fun err => match err with
                             | Some e =>
                                 bind (log_Error ("Failed to fetch rules from manager: " +:+ e))
                                      (fun _ => ret false)
                             | None => ret true
                             end)
          else ret false).
Proof.
  intros P1 [|] HP; [|apply asks_ret].
  apply asks_bind; [apply asks_fetchRulesFromManager; auto|].
  intros [e|]; [|apply asks_ret]. repeat asks_step.
Qed.

Lemma asks_refresh_containers P :
  P CallGetContainersList -> (forall name, P (CallGetContainerSha256 name)) ->
  forall (stale : bool), (stale = true -> forall name, P (CallGetContainer name)) ->
  asks P (if stale
          then bind fetchContainersFromManager
                 (fun err => match err with
                             | Some e =>
                                 bind (log_Error ("Failed to fetch containers from manager: " +:+ e))
                                      (fun _ => ret false)
                             | None => ret true
                             end)
          else ret false).
Proof.
  intros P1 P2 [|] HP; [|apply asks_ret].
  apply asks_bind; [apply asks_fetchContainersFromManager; auto|].
  intros [e|]; [|apply asks_ret]. repeat asks_step.
Qed.

(** The requests of one run of updateEngine: digests and the list of
    containers always; the rules only when they are found stale, a
    container only when one is found stale. *)
Lemma updateEngine_requests (P : ClientCall -> Prop) force st :
  P CallGetRulesSha256 -> P CallGetContainersList ->
  (forall name, P (CallGetContainerSha256 name)) ->
  ((needsRulesUpdate st).1 = true -> P CallGetRules) ->
  ((needsContainersUpdate (needsRulesUpdate st).2).1 = true ->
     forall name, P (CallGetContainer name)) ->
  exists tr, calls (updateEngine force st).2.2 = calls st.2 ++ tr /\ Forall P tr.
Proof.
  intros P1 P2 P3 Hrules Hconts.
  unfold updateEngine, refresh.
  pose proof (asks_needsRulesUpdate P P1 st) as (tr1 & Hc1 & Ht1).
  unfold bind at 1 2.
  destruct (needsRulesUpdate st) as [rr0 st1]. cbn [fst snd] in *.
  pose proof (asks_needsContainersUpdate P P2 P3 st1) as (tr2 & Hc2 & Ht2).
  unfold bind at 1.
  destruct (needsContainersUpdate st1) as [rc0 st2]. cbn [fst snd] in *.
  pose proof (asks_refresh_rules P P1 rr0 Hrules st2) as (tr3 & Hc3 & Ht3).
  unfold bind at 1.
  destruct (_ st2) as [rr st3]. cbn [fst snd] in *.
  pose proof (asks_refresh_containers P P2 P3 rc0 Hconts st3) as (tr4 & Hc4 & Ht4).
  unfold bind at 1.
  destruct (_ st3) as [rc st4]. cbn [fst snd] in *.
  unfold ret.
  pose proof (asks_rebuild P rr rc force st4) as (tr5 & Hc5 & Ht5).
  exists (tr1 ++ tr2 ++ tr3 ++ tr4 ++ tr5). split.
  - rewrite Hc5, Hc4, Hc3, Hc2, Hc1, <- !app_assoc. reflexivity.
  - repeat (apply Forall_app; split); assumption.
Qed.

(** *** Loading the containers *)

Lemma set_Engine_same h : set_Engine (Engine h) h = h.
Proof. destruct h. reflexivity. Qed.

Lemma set_Engine_twice e e' h : set_Engine e (set_Engine e' h) = set_Engine e h.
Proof. reflexivity. Qed.

Lemma load_container_file_run dir fi lastErr h w :
  load_container_file dir fi lastErr (h, w)
  = match container_file dir fi with
    | None => (lastErr, (h, w))
    | Some (cont, p) =>
        match read_container (fs w) p with
        | (_, Some e) => (Some e, (h, w))
        | (payload, None) =>
            (lastErr, (set_Engine (LoadContainer cont payload (Engine h)) h, w))
        end
    end.
Proof.
  unfold load_container_file, container_file, read_container, Engine_LoadContainer.
  destruct (HasSuffix fi containerExt); [|reflexivity].
  monad_unfold.
  destruct (os_Open (fs w) (Join dir fi)) as [fd [e|]]; [reflexivity|].
  destruct (gzip_NewReader fd) as [r [e|]]; reflexivity.
Qed.

Lemma load_files_run dir names lastErr h w :
  load_files dir names lastErr (h, w)
  = let cf := omap (container_file dir) names in
    (last_error (container_errors (fs w) cf) lastErr,
     (set_Engine (load_all (loaded_containers (fs w) cf) (Engine h)) h, w)).
Proof.
  revert lastErr h. induction names as [|fi names IH]; intros lastErr h.
  - cbn. rewrite set_Engine_same. reflexivity.
  - cbn [load_files]. unfold bind at 1. rewrite load_container_file_run.
    cbn [omap list_omap]. unfold omap in IH.
    destruct (container_file dir fi) as [[cont p]|]; [|apply IH].
    cbv zeta. unfold container_errors, loaded_containers. cbn [omap list_omap fst snd].
    destruct (read_container (fs w) p) as [payload [e|]]; cbn [snd].
    + rewrite IH. cbv zeta. unfold last_error, container_errors, loaded_containers.
      rewrite last_cons. destruct (last _); reflexivity.
    + rewrite IH. reflexivity.
Qed.

Lemma load_items_run items lastErr h w :
  load_items items lastErr (h, w)
  = let cf := container_files items in
    (last_error (container_errors (fs w) cf) lastErr,
     (set_Engine (load_all (loaded_containers (fs w) cf) (Engine h)) h, w)).
Proof.
  revert lastErr h. induction items as [|wi items IH]; intros lastErr h.
  - cbn. rewrite set_Engine_same. reflexivity.
  - cbn [load_items]. unfold bind at 1. rewrite load_files_run. cbv beta iota zeta.
    rewrite IH. cbv zeta. cbn [container_files flat_map].
    fold (container_files items).
    unfold container_errors, loaded_containers, load_all, last_error.
    rewrite !omap_app, fold_left_app, last_app. cbn [Engine set_Engine].
    destruct (last (omap _ (container_files items))); reflexivity.
Qed.

(** loadContainers against its declarative reading: the containers that
    can be read are loaded in the order of the walk, the others are
    skipped, and the error returned is the last one met. *)
Lemma loadContainers_run h w :
  loadContainers (h, w)
  = let cf := container_files (Walk (fs w) (ContainersDB (RulesConfig (config h)))) in
    (last (container_errors (fs w) cf),
     (set_Engine (load_all (loaded_containers (fs w) cf) (Engine h)) h, w)).
Proof.
  unfold loadContainers. monad_unfold. rewrite load_items_run.
  cbv zeta. unfold last_error. destruct (last _); reflexivity.
Qed.

(** *** The rebuild *)

Lemma rebuild_run rr rc force h w :
  rr || rc || force = true ->
  rebuild rr rc force (h, w)
  = let cf := container_files (Walk (fs w) (ContainersDB (RulesConfig (config h)))) in
    let h1 := set_Engine (load_all (loaded_containers (fs w) cf) newActionnableEngine) h in
    match last (container_errors (fs w) cf) with
    | Some e => (Some ("error loading containers: " +:+ e), (h1, w))
    | None =>
        if rr || force then
          let '(_, (h2, w2)) := load_canary_rules (h1, w) in
          let '(e3, err) := LoadDirectory (fs w2) (RulesDB (RulesConfig (config h2))) (Engine h2) in
          (match err with
           | Some e => Some ("failed to load rules: " +:+ e)
           | None => None
           end, (set_Engine e3 h2, w2))
        else (None, (h1, w))
    end.
Proof.
  intros Hgo. unfold rebuild. rewrite Hgo.
  unfold bind at 1. unfold modH at 1. cbn [fst snd].
  unfold bind at 1. rewrite loadContainers_run. cbv beta iota zeta.
  cbn [fs config set_Engine Engine].
  destruct (last _) as [e|]; [reflexivity|].
  destruct (rr || force); [|reflexivity].
  unfold bind at 1.
  destruct (load_canary_rules _) as [[] [h2 w2]].
  unfold Engine_LoadDirectory. monad_unfold.
  destruct (LoadDirectory _ _ _) as [e3 [e|]]; reflexivity.
Qed.

(** C3 (amended): when some container files fail to load, loadContainers
    skips them, loads all the other containers (those whose file opens and
    is a gzip stream) in the order of the walk and returns the last error
    met; updateEngine then returns that error,
    prefixed, and stops: the active engine is the new engine holding the
    containers that could be read, and neither the canary rules nor the
    rule directory are loaded into it. *)
Theorem container_load_failures h w force rr rc h1 w1 e
    (Hsync : refresh (h, w) = ((rr, rc), (h1, w1)))
    (Hgo : rr || rc || force = true)
    (Herr : last (container_errors (fs w1)
              (container_files (Walk (fs w1) (ContainersDB (RulesConfig (config h1))))))
            = Some e) :
  let cf := container_files (Walk (fs w1) (ContainersDB (RulesConfig (config h1)))) in
  (forall cont payload,
     (cont, payload) ∈ loaded_containers (fs w1) cf <->
     exists p, (cont, p) ∈ cf /\ read_container (fs w1) p = (payload, None)) /\
  loadContainers (set_Engine newActionnableEngine h1, w1)
  = (Some e,
     (set_Engine (load_all (loaded_containers (fs w1) cf) newActionnableEngine) h1, w1)) /\
  updateEngine force (h, w)
  = (Some ("error loading containers: " +:+ e),
     (set_Engine (load_all (loaded_containers (fs w1) cf) newActionnableEngine) h1, w1)).
Proof.
  intros cf. split; [|split].
  - intros cont payload. unfold loaded_containers. rewrite list_elem_of_omap. split.
    + intros ([c p] & Hin & Hread). cbn [fst snd] in Hread.
      destruct (read_container (fs w1) p) as [payload' [err|]] eqn:Hp; [discriminate|].
      injection Hread as -> ->. exists p. split; [exact Hin | exact Hp].
    + intros (p & Hin & Hread). exists (cont, p). cbn [fst snd].
      rewrite Hread. split; [exact Hin | reflexivity].
  - rewrite loadContainers_run. cbv zeta. cbn [fs config set_Engine Engine].
    fold cf. unfold cf at 1. rewrite Herr. reflexivity.
  - unfold updateEngine. rewrite (bind_run _ _ _ _ _ Hsync).
    rewrite (rebuild_run _ _ _ _ _ Hgo). cbv zeta. rewrite Herr. reflexivity.
Qed.

(** C2 (amended): when loading the rule directory fails, updateEngine
    returns the error, prefixed; the active engine is then the new engine as
    the failed load left it (built from a fresh engine, the containers and
    the canary rules); the engine that was active before plays no part in
    the outcome of the rebuild. *)
Theorem rule_load_failure h w force rr rc h1 w1 h2 w2 e3 err
    (Hsync : refresh (h, w) = ((rr, rc), (h1, w1)))
    (Hgo : rr || force = true)
    (Hconts : last (container_errors (fs w1)
                (container_files (Walk (fs w1) (ContainersDB (RulesConfig (config h1))))))
              = None)
    (Hcanary : load_canary_rules
                 (set_Engine
                    (load_all
                       (loaded_containers (fs w1)
                          (container_files (Walk (fs w1) (ContainersDB (RulesConfig (config h1))))))
                       newActionnableEngine) h1, w1)
               = (tt, (h2, w2)))
    (Hrules : LoadDirectory (fs w2) (RulesDB (RulesConfig (config h2))) (Engine h2)
              = (e3, Some err)) :
  updateEngine force (h, w)
  = (Some ("failed to load rules: " +:+ err), (set_Engine e3 h2, w2)) /\
  Engine (updateEngine force (h, w)).2.1 = e3 /\
  (forall previous,
     rebuild rr rc force (set_Engine previous h1, w1) = rebuild rr rc force (h1, w1)).
Proof.
  assert (Hrun : updateEngine force (h, w)
                 = (Some ("failed to load rules: " +:+ err), (set_Engine e3 h2, w2))).
  { unfold updateEngine. rewrite (bind_run _ _ _ _ _ Hsync).
    rewrite rebuild_run by (destruct rr, rc, force; try reflexivity; discriminate).
    cbv zeta. rewrite Hconts, Hgo, Hcanary, Hrules. reflexivity. }
  split; [exact Hrun|]. split; [rewrite Hrun; reflexivity|].
  intros previous.
  rewrite !rebuild_run by (destruct rr, rc, force; try reflexivity; discriminate).
  reflexivity.
Qed.

(** *** Staleness *)

Lemma local_digest_fs h w w' name :
  fs w = fs w' -> local_digest h w name = local_digest h w' name.
Proof. unfold local_digest. intros ->. reflexivity. Qed.

Lemma any_needs_update_up_to_date l h w :
  Forall (fun name => local_digest h w name = reported_digest h name) l ->
  any_needs_update l (h, w) = (false, (h, add_calls (map CallGetContainerSha256 l) w)).
Proof.
  intros Hl. revert w Hl. induction l as [|name l IH]; intros w Hl; [reflexivity|].
  inversion Hl as [|? ? Hname Hrest]; subst.
  cbn [any_needs_update].
  rewrite (bind_run _ _ _ _ _ (needsContainerUpdate_run h w name)).
  rewrite Hname, String.eqb_refl. cbn [negb map add_calls fold_left].
  apply IH. exact Hrest.
Qed.

Lemma needsContainersUpdate_run h w :
  needsContainersUpdate (h, w)
  = if Local (forwarder h) then (false, (h, w))
    else match GetContainersList (Client (forwarder h)) with
         | (_, Some _) => (false, (h, add_call CallGetContainersList w))
         | (l, None) => any_needs_update l (h, add_call CallGetContainersList w)
         end.
Proof.
  unfold needsContainersUpdate. monad_unfold.
  destruct (Local (forwarder h)); [reflexivity|]. monad_unfold.
  destruct (GetContainersList (Client (forwarder h))) as [l [e|]]; reflexivity.
Qed.

Lemma needsRulesUpdate_world h w :
  (needsRulesUpdate (h, w)).2.1 = h /\ fs (needsRulesUpdate (h, w)).2.2 = fs w.
Proof.
  rewrite needsRulesUpdate_run.
  destruct (Local (forwarder h)); [split; reflexivity|].
  destruct (GetRulesSha256 (Client (forwarder h))) as [sha [e|]]; split; reflexivity.
Qed.

Lemma needsContainersUpdate_up_to_date h w l :
  GetContainersList (Client (forwarder h)) = (l, None) ->
  Forall (fun name => local_digest h w name = reported_digest h name) l ->
  (needsContainersUpdate (h, w)).1 = false.
Proof.
  intros Hlist Hl. rewrite needsContainersUpdate_run, Hlist.
  destruct (Local (forwarder h)); [reflexivity|].
  rewrite any_needs_update_up_to_date; [reflexivity|].
  eapply Forall_impl; [exact Hl|]. intros name Hname. exact Hname.
Qed.

(** C9 (amended): when the persisted digest of the rules equals the digest
    the manager reports, needsRulesUpdate is false and a run of updateEngine
    never asks for the rules; when the persisted digest of a container
    equals the reported one, needsContainerUpdate is false, the fetch loop
    passes it over, and when this holds of every listed container
    needsContainersUpdate is false and a run of updateEngine asks for no
    container; both predicates are false when the forwarder is marked
    Local; needsRulesUpdate is false when the fetch of the rules digest
    fails, needsContainersUpdate is false when the fetch of the list of
    containers fails; the error of the fetch of a container's digest is not
    looked at: the container is stale exactly when its persisted digest
    differs from the text that came back. *)
Theorem staleness_predicates h w :
  (forall sha,
     GetRulesSha256 (Client (forwarder h)) = (sha, None) ->
     (ReadFileString (fs w) (RulesPaths h).2).1 = sha ->
     (needsRulesUpdate (h, w)).1 = false /\
     forall force, exists tr,
       calls (updateEngine force (h, w)).2.2 = calls w ++ tr /\ Forall not_rules tr) /\
  (forall name,
     local_digest h w name = reported_digest h name ->
     (needsContainerUpdate name (h, w)).1 = false /\
     forall rest,
       fetch_containers (name :: rest) (h, w)
       = fetch_containers rest (h, add_call (CallGetContainerSha256 name) w)) /\
  (forall l,
     GetContainersList (Client (forwarder h)) = (l, None) ->
     Forall (fun name => local_digest h w name = reported_digest h name) l ->
     (needsContainersUpdate (h, w)).1 = false /\
     forall force, exists tr,
       calls (updateEngine force (h, w)).2.2 = calls w ++ tr /\ Forall not_container tr) /\
  (Local (forwarder h) = true ->
     needsRulesUpdate (h, w) = (false, (h, w)) /\
     needsContainersUpdate (h, w) = (false, (h, w))) /\
  (forall sha e,
     GetRulesSha256 (Client (forwarder h)) = (sha, Some e) ->
     (needsRulesUpdate (h, w)).1 = false) /\
  (forall l e,
     GetContainersList (Client (forwarder h)) = (l, Some e) ->
     (needsContainersUpdate (h, w)).1 = false) /\
  (forall name,
     (needsContainerUpdate name (h, w)).1
     = negb (String.eqb (local_digest h w name) (reported_digest h name))).
Proof.
  split; [|split; [|split; [|split; [|split; [|split]]]]].
  - intros sha Hsha Hloc.
    assert (Hfresh : (needsRulesUpdate (h, w)).1 = false).
    { rewrite needsRulesUpdate_run, Hsha.
      destruct (Local (forwarder h)); [reflexivity|].
      cbn [fst]. rewrite Hloc, String.eqb_refl. reflexivity. }
    split; [exact Hfresh|]. intros force.
    apply (updateEngine_requests not_rules force (h, w));
      first [ discriminate | rewrite Hfresh; discriminate | intros _ name; discriminate ].
  - intros name Hname. split.
    + rewrite needsContainerUpdate_run. cbn [fst].
      rewrite Hname, String.eqb_refl. reflexivity.
    + intros rest. rewrite fetch_containers_cons. cbv zeta.
      rewrite Hname, String.eqb_refl. reflexivity.
  - intros l Hlist Hl. split.
    + eapply needsContainersUpdate_up_to_date; eassumption.
    + intros force.
      apply (updateEngine_requests not_container force (h, w));
        try (intros name; discriminate);
        try (intros name n; discriminate);
        try (intros _ name; discriminate).
      intros Hstale. exfalso. revert Hstale.
      destruct (needsRulesUpdate_world h w) as [Hh Hfs].
      destruct (needsRulesUpdate (h, w)) as [b [h' w']]. cbn [fst snd] in *. subst h'.
      erewrite needsContainersUpdate_up_to_date; [discriminate | eassumption |].
      eapply Forall_impl; [exact Hl|]. intros name Hname.
      rewrite <- Hname. apply local_digest_fs. exact Hfs.
  - intros Hlocal. split.
    + rewrite needsRulesUpdate_run, Hlocal. reflexivity.
    + rewrite needsContainersUpdate_run, Hlocal. reflexivity.
  - intros sha e Hsha. rewrite needsRulesUpdate_run, Hsha.
    destruct (Local _); reflexivity.
  - intros l e Hlist. rewrite needsContainersUpdate_run, Hlist.
    destruct (Local _); reflexivity.
  - intros name. rewrite needsContainerUpdate_run. reflexivity.
Qed.

End Sync.

(** ** The ingestion loop *)


Section Ingestion.

Context {E Rule CRule XMLEvent : Type}.
Context `{!Gene E Rule CRule} `{!Telemetry XMLEvent}.

Implicit Types (h : HIDS E Rule) (w : World) (e : Event).

(** *** The steps of the loop body, run *)

Lemma run_hooks_run (which : HIDS E Rule -> list Hook) e h w :
  run_hooks which e (h, w)
  = ((RunHooksOn (which h) (tracked h) e).2,
     (set_tracked (RunHooksOn (which h) (tracked h) e).1 h, w)).
Proof.
  unfold run_hooks. monad_unfold.
  destruct (RunHooksOn (which h) (tracked h) e) as [t e']. reflexivity.
Qed.

Lemma prepare_event_run xe h w :
  prepare_event xe (h, w)
  = let r := RunHooksOn (preHooks h) (tracked h) (XMLEventToGoEvtxMap xe).1 in
    (r.2, (set_tracked r.1 h, termination_log h (conversion_log xe w))).
Proof.
  unfold prepare_event, conversion_log, termination_log, warn_missing_termination.
  destruct (XMLEventToGoEvtxMap xe) as [ev [err|]]; cbn [fst snd];
    monad_unfold;
    destruct (EnableHooks (config h) && negb (flagProcTermEn (tracked h))
              && (0 <? eventScanned h) && (eventScanned h mod 1000 =? 0));
    monad_unfold; rewrite run_hooks_run; reflexivity.
Qed.

Lemma decide_event_run e crit filtered h w :
  decide_event e crit filtered (h, w)
  = if crit >=? CritTresh (config h) then
      let h1 := if negb (PrintAll h) && negb (LogAll (config h)) then pipe e h else h in
      let r := RunHooksOn (postHooks h1) (tracked h1) e in
      (r.2, (set_alertReported (uint64_incr (alertReported h1)) (set_tracked r.1 h1), w))
    else if filtered && EnableFiltering (config h) && negb (PrintAll h) && negb (LogAll (config h))
    then (Del GeneInfoPath e, (pipe (Del GeneInfoPath e) h, w))
    else (e, (h, w)).
Proof.
  unfold decide_event, PipeEvent. monad_unfold.
  destruct (crit >=? CritTresh (config h)).
  - destruct (negb (PrintAll h) && negb (LogAll (config h)));
      monad_unfold; rewrite run_hooks_run; reflexivity.
  - destruct (filtered && EnableFiltering (config h) && negb (PrintAll h)
              && negb (LogAll (config h))); reflexivity.
Qed.

Lemma detect_event_run e h w :
  detect_event e (h, w)
  = let '(eng, e2, (n, crit, filtered)) := MatchOrFilter (Engine h) e in
    let '(e3, (h3, w3)) :=
      (if (0 <? length n)%nat || filtered
       then decide_event e2 crit filtered
       else ret e2) (set_Engine eng h, w) in
    let w4 := if PrintAll h3 then add_stdout e3 w3 else w3 in
    let h4 := if LogAll (config h3) then pipe e3 h3 else h3 in
    (tt, (set_eventScanned (uint64_incr (eventScanned h4)) h4, w4)).
Proof.
  unfold detect_event, Engine_MatchOrFilter, PipeEvent, Println. monad_unfold.
  destruct (MatchOrFilter (Engine h) e) as [[eng e2] [[n crit] filtered]].
  monad_unfold.
  destruct ((0 <? length n)%nat || filtered).
  - destruct (decide_event e2 crit filtered _) as [e3 [h3 w3]]. cbn [fst snd].
    destruct (PrintAll h3), (LogAll (config h3)); reflexivity.
  - cbn [fst snd PrintAll config set_Engine].
    destruct (PrintAll h), (LogAll (config h)); reflexivity.
Qed.

Lemma handle_record_run xe h w :
  handle_record xe (h, w)
  = let '(e1, (h1, w1)) := prepare_event xe (h, w) in
    if IsHIDSEvent h1 e1 && negb (isSysmonProcessTerminate e1)
    then (tt, (h1, if PrintAll h1 then add_stdout e1 w1 else w1))
    else detect_event e1 (h1, w1).
Proof.
  unfold handle_record, skip_event, Println. monad_unfold.
  destruct (prepare_event xe (h, w)) as [e1 [h1 w1]]. cbn [fst snd].
  destruct (IsHIDSEvent h1 e1 && negb (isSysmonProcessTerminate e1)); [|reflexivity].
  cbn [fst snd]. destruct (PrintAll h1); reflexivity.
Qed.

(** *** The counters *)

Lemma decide_event_scanned e crit filtered h w :
  eventScanned (decide_event e crit filtered (h, w)).2.1 = eventScanned h.
Proof.
  rewrite decide_event_run.
  destruct (crit >=? _).
  - cbv zeta. destruct (negb _ && negb _); reflexivity.
  - destruct (filtered && _ && _ && _); reflexivity.
Qed.

Lemma detect_event_scanned e h w :
  eventScanned (detect_event e (h, w)).2.1 = uint64_incr (eventScanned h).
Proof.
  rewrite detect_event_run.
  destruct (MatchOrFilter (Engine h) e) as [[eng e2] [[n crit] filtered]].
  pose proof (decide_event_scanned e2 crit filtered (set_Engine eng h) w) as Hd.
  destruct ((0 <? length n)%nat || filtered).
  - destruct (decide_event _ _ _ _) as [e3 [h3 w3]]. cbn [fst snd] in *.
    destruct (LogAll (config h3)); cbn; rewrite Hd; reflexivity.
  - unfold ret. destruct (LogAll _); reflexivity.
Qed.

(** *** The self-event test *)

Lemma parent_is_hids_true h g :
  parent_is_hids h g = true <->
  exists pt, GetByGuid (tracked h) g = Some pt /\ ParentProcessGUID pt = guid (tracked h).
Proof.
  unfold parent_is_hids. destruct (GetByGuid (tracked h) g) as [pt|].
  - rewrite String.eqb_eq. split.
    + intros Hp. exists pt. split; [reflexivity | exact Hp].
    + intros (pt' & Hpt & Hp). injection Hpt as <-. exact Hp.
  - split; [discriminate | intros (pt & Hpt & _); discriminate].
Qed.

Lemma is_guid_true h (o : option string) :
  match o with
  | Some g => String.eqb g (guid (tracked h))
  | None => false
  end = true <-> o = Some (guid (tracked h)).
Proof.
  destruct o as [g|]; [|split; discriminate].
  rewrite String.eqb_eq. split; [intros ->; reflexivity | intros [= ->]; reflexivity].
Qed.

Lemma is_actor_true h (o : option string) :
  match o with
  | Some g => String.eqb g (guid (tracked h)) || parent_is_hids h g
  | None => false
  end = true <->
  o = Some (guid (tracked h)) \/
  exists g pt, o = Some g /\ GetByGuid (tracked h) g = Some pt /\
               ParentProcessGUID pt = guid (tracked h).
Proof.
  destruct o as [g|].
  - rewrite orb_true_iff, String.eqb_eq, parent_is_hids_true. split.
    + intros [-> | (pt & Hpt & Hpar)]; [left; reflexivity|].
      right. exists g, pt. auto.
    + intros [[= ->] | (g' & pt & [= <-] & Hpt & Hpar)]; [left; reflexivity|].
      right. exists pt. auto.
  - split; [discriminate|]. intros [|(g & pt & Hg & _)]; discriminate.
Qed.

Lemma IsHIDSEvent_true h e : IsHIDSEvent h e = true <-> self_event h e.
Proof.
  assert (Hor : IsHIDSEvent h e
    = match GetString e pathSysmonParentProcessGUID with
      | Some pguid => String.eqb pguid (guid (tracked h))
      | None => false
      end
      || (match GetString e pathSysmonProcessGUID with
          | Some g => String.eqb g (guid (tracked h)) || parent_is_hids h g
          | None => false
          end
          || match GetString e pathSysmonSourceProcessGUID with
             | Some sguid => String.eqb sguid (guid (tracked h)) || parent_is_hids h sguid
             | None => false
             end)).
  { unfold IsHIDSEvent.
    destruct (match GetString e pathSysmonParentProcessGUID with
              | Some _ => _ | None => _ end); [reflexivity|].
    destruct (match GetString e pathSysmonProcessGUID with
              | Some _ => _ | None => _ end); reflexivity. }
  rewrite Hor, !orb_true_iff, is_guid_true, !is_actor_true.
  unfold self_event. split.
  - intros [Hp | [[Hg | (g & pt & Hg & Ht)] | [Hs | (g & pt & Hs & Ht)]]];
      eauto 10.
  - intros [Hp | [Hg | [Hs | (g & pt & [Hg | Hs] & Ht)]]]; eauto 10.
Qed.

(** *** The event after [Del] *)

Lemma Del_below p e k : p `prefix_of` k -> Del p e !! k = None.
Proof.
  intros Hk. unfold Del. apply map_lookup_filter_None. right.
  intros x _ Hnot. apply Hnot. exact Hk.
Qed.

Lemma Del_elsewhere p e k : ~ p `prefix_of` k -> Del p e !! k = e !! k.
Proof.
  intros Hk. unfold Del. destruct (e !! k) as [x|] eqn:He.
  - apply map_lookup_filter_Some. split; [exact He | exact Hk].
  - apply map_lookup_filter_None. left. exact He.
Qed.

(** *** The claims on the loop *)

(** C4 (amended): for every raw record, the event the loop goes on with is
    the map the conversion returned, complete or not, run through the pre
    detection hooks; a conversion failure only adds a line to the log; the
    scanned-event counter is incremented exactly once (wrapping at 2^64)
    unless that event is a skipped event of the IDS itself, in which case
    it is left as it was. *)
Theorem scanned_counter xe h w :
  let '(e1, (h1, w1)) := prepare_event xe (h, w) in
  e1 = (RunHooksOn (preHooks h) (tracked h) (XMLEventToGoEvtxMap xe).1).2 /\
  w1 = termination_log h (conversion_log xe w) /\
  eventScanned (handle_record xe (h, w)).2.1
  = if IsHIDSEvent h1 e1 && negb (isSysmonProcessTerminate e1)
    then eventScanned h
    else uint64_incr (eventScanned h).
Proof.
  rewrite handle_record_run, prepare_event_run. cbv zeta.
  split; [reflexivity|]. split; [reflexivity|].
  destruct (IsHIDSEvent _ _ && negb _); [reflexivity|].
  rewrite detect_event_scanned. reflexivity.
Qed.

(** C5: an event whose parent, own or source process identifier is the
    agent's, or whose own or source process has the agent as recorded
    parent in the tracker, is exactly an event IsHIDSEvent accepts; unless
    it is a process termination, the loop then leaves the agent as the pre
    detection hooks left it (no call to the engine, nothing piped to the
    forwarder, no post detection hook, counters untouched) and only prints
    the event when PrintAll is set; a process termination goes through
    detection like any other event and is counted. *)
Theorem self_events_skipped xe h w e1 h1 w1
    (Hprep : prepare_event xe (h, w) = (e1, (h1, w1))) :
  (self_event h1 e1 <-> IsHIDSEvent h1 e1 = true) /\
  (self_event h1 e1 -> isSysmonProcessTerminate e1 = false ->
     handle_record xe (h, w)
     = (tt, (h1, if PrintAll h1 then add_stdout e1 w1 else w1))) /\
  (isSysmonProcessTerminate e1 = true ->
     handle_record xe (h, w) = detect_event e1 (h1, w1) /\
     eventScanned (handle_record xe (h, w)).2.1 = uint64_incr (eventScanned h)).
Proof.
  split; [symmetry; apply IsHIDSEvent_true|].
  rewrite handle_record_run, Hprep. cbv beta iota. split.
  - intros Hself%IsHIDSEvent_true Hterm. rewrite Hself, Hterm. reflexivity.
  - intros Hterm. rewrite Hterm, andb_false_r. split; [reflexivity|].
    rewrite detect_event_scanned.
    rewrite prepare_event_run in Hprep. injection Hprep as _ <- _. reflexivity.
Qed.

(** C6 (amended): for every event that is not skipped (in particular every
    event that is not one of the IDS), that matched at least one signature
    or is filtered, and whose criticality is greater than or equal to the
    threshold, with LogAll and PrintAll disabled, the loop pipes the event
    to the forwarder exactly once (as the engine returned it), runs the post
    detection hooks on it, and increments the alert counter exactly once
    (by one, below the top of uint64); nothing is printed. *)
Theorem alert_forwarded xe h w e1 h1 w1 eng e2 n crit filtered
    (Hprep : prepare_event xe (h, w) = (e1, (h1, w1)))
    (Hkept : IsHIDSEvent h1 e1 && negb (isSysmonProcessTerminate e1) = false)
    (Hmatch : MatchOrFilter (Engine h1) e1 = (eng, e2, (n, crit, filtered)))
    (Hhit : (0 < length n)%nat \/ filtered = true)
    (Hcrit : CritTresh (config h) <= crit)
    (Hprint : PrintAll h = false)
    (Hlog : LogAll (config h) = false) :
  let hf := (handle_record xe (h, w)).2.1 in
  Pipe (forwarder hf) = Pipe (forwarder h) ++ [e2] /\
  tracked hf = (RunHooksOn (postHooks h) (tracked h1) e2).1 /\
  alertReported hf = uint64_incr (alertReported h) /\
  (0 <= alertReported h < 2 ^ 64 - 1 -> alertReported hf = alertReported h + 1) /\
  eventScanned hf = uint64_incr (eventScanned h) /\
  (handle_record xe (h, w)).2.2 = w1.
Proof.
  rewrite prepare_event_run in Hprep. injection Hprep as He1 Hh1 Hw1.
  intros hf. subst hf.
  rewrite handle_record_run, prepare_event_run. cbv zeta.
  rewrite He1, Hh1, Hw1, Hkept, detect_event_run, Hmatch.
  assert (Hgo : (0 <? length n)%nat || filtered = true).
  { destruct Hhit as [Hn | ->]; [|apply orb_true_r].
    apply Nat.ltb_lt in Hn. rewrite Hn. reflexivity. }
  rewrite Hgo, decide_event_run.
  subst h1. cbn [config set_Engine set_tracked PrintAll].
  destruct (Z.geb_spec crit (CritTresh (config h))) as [_|Hlt]; [|lia].
  rewrite Hprint, Hlog. cbn. rewrite Hprint, Hlog. cbn.
  split; [reflexivity|]. split; [reflexivity|]. split; [reflexivity|].
  split; [apply uint64_incr_exact|]. split; reflexivity.
Qed.

(** C7: for every event that is not skipped, that is filtered and whose
    criticality is below the threshold, with filtering enabled and LogAll
    and PrintAll disabled, the loop pipes the event to the forwarder
    exactly once, with the scoring metadata field and everything below it
    removed and every other field kept; the alert counter is unchanged and
    the post detection hooks do not run. *)
Theorem filtered_forwarded xe h w e1 h1 w1 eng e2 n crit
    (Hprep : prepare_event xe (h, w) = (e1, (h1, w1)))
    (Hkept : IsHIDSEvent h1 e1 && negb (isSysmonProcessTerminate e1) = false)
    (Hmatch : MatchOrFilter (Engine h1) e1 = (eng, e2, (n, crit, true)))
    (Hcrit : crit < CritTresh (config h))
    (Hfilter : EnableFiltering (config h) = true)
    (Hprint : PrintAll h = false)
    (Hlog : LogAll (config h) = false) :
  let hf := (handle_record xe (h, w)).2.1 in
  Pipe (forwarder hf) = Pipe (forwarder h) ++ [Del GeneInfoPath e2] /\
  (forall k, GeneInfoPath `prefix_of` k -> Del GeneInfoPath e2 !! k = None) /\
  (forall k, ~ GeneInfoPath `prefix_of` k -> Del GeneInfoPath e2 !! k = e2 !! k) /\
  alertReported hf = alertReported h /\
  tracked hf = tracked h1 /\
  eventScanned hf = uint64_incr (eventScanned h) /\
  (handle_record xe (h, w)).2.2 = w1.
Proof.
  rewrite prepare_event_run in Hprep. injection Hprep as He1 Hh1 Hw1.
  intros hf. subst hf.
  rewrite handle_record_run, prepare_event_run. cbv zeta.
  rewrite He1, Hh1, Hw1, Hkept, detect_event_run, Hmatch.
  rewrite orb_true_r, decide_event_run.
  subst h1. cbn [config set_Engine set_tracked PrintAll].
  destruct (Z.geb_spec crit (CritTresh (config h))) as [Hge|_]; [lia|].
  rewrite Hfilter, Hprint, Hlog. cbn. rewrite Hprint, Hlog. cbn.
  repeat split; try reflexivity.
  - intros k. apply Del_below.
  - intros k. apply Del_elsewhere.
Qed.

End Ingestion.

(** ** More on names and paths *)

Lemma append_nil_r s : s +:+ "" = s.
Proof.
  induction s as [|c s IH]; [reflexivity|].
  change (String c s +:+ "") with (String c (s +:+ "")). f_equal. exact IH.
Qed.

Lemma append_inj_r s t u : s +:+ u = t +:+ u -> s = t.
Proof.
  revert t. induction s as [|c s IH]; intros t Heq.
  - destruct t as [|d t]; [reflexivity|]. exfalso.
    apply (f_equal String.length) in Heq. rewrite !length_append in Heq.
    cbn in Heq. lia.
  - destruct t as [|d t].
    + exfalso. apply (f_equal String.length) in Heq. rewrite !length_append in Heq.
      cbn in Heq. lia.
    + change (String c (s +:+ u) = String d (t +:+ u)) in Heq.
      injection Heq as -> Heq. f_equal. apply IH, Heq.
Qed.

Lemma path_append_snoc (dir : Path) f ext : path_append (dir ++ [f]) ext = dir ++ [f +:+ ext].
Proof.
  unfold path_append. destruct (dir ++ [f]) eqn:Hd.
  - destruct dir; discriminate.
  - rewrite <- Hd, removelast_last, last_last. reflexivity.
Qed.

Lemma path_append_neq (p : Path) ext : ext <> "" -> path_append p ext <> p.
Proof.
  intros Hext. destruct p as [|x p] using rev_ind; [discriminate|].
  rewrite path_append_snoc. intros Heq%app_inj_tail. destruct Heq as [_ Heq].
  apply Hext. apply (f_equal String.length) in Heq. rewrite !length_append in Heq.
  destruct ext; [reflexivity | cbn in Heq; lia].
Qed.

Lemma append_assoc_r s t u : (s +:+ t) +:+ u = s +:+ (t +:+ u).
Proof.
  induction s as [|c s IH]; [reflexivity|].
  change (String c ((s +:+ t) +:+ u) = String c (s +:+ (t +:+ u))). f_equal. exact IH.
Qed.

Lemma append_last_inj s t a b :
  s +:+ String a "" = t +:+ String b "" -> a = b.
Proof.
  revert t. induction s as [|c s IH]; intros [|d t] Heq.
  - injection Heq as ->. reflexivity.
  - change (String a "" = String d (t +:+ String b "")) in Heq.
    injection Heq as _ Heq. destruct t; discriminate.
  - change (String c (s +:+ String a "") = String b "") in Heq.
    injection Heq as _ Heq. destruct s; discriminate.
  - change (String c (s +:+ String a "") = String d (t +:+ String b "")) in Heq.
    injection Heq as _ Heq. exact (IH _ Heq).
Qed.

Section ContainerPaths.

Context {E Rule : Type}.

Implicit Types (h : HIDS E Rule).

Lemma containerPaths_file h name :
  has_separator name = false ->
  containerPaths h name
  = (ContainersDB (RulesConfig (config h)) ++ [name +:+ containerExt],
     ContainersDB (RulesConfig (config h)) ++ [(name +:+ containerExt) +:+ ".sha256"]).
Proof.
  intros Hsep. unfold containerPaths.
  rewrite (container_file_name _ name Hsep), path_append_snoc. reflexivity.
Qed.

Lemma container_sidecar_inj h n m :
  has_separator n = false -> has_separator m = false ->
  (containerPaths h n).2 = (containerPaths h m).2 -> n = m.
Proof.
  intros Hn Hm. rewrite !containerPaths_file by assumption. cbn [snd].
  intros Heq. apply app_inv_head in Heq. injection Heq as Heq.
  apply append_inj_r in Heq. apply append_inj_r in Heq. exact Heq.
Qed.

Lemma container_file_not_sidecar h n m :
  has_separator n = false -> has_separator m = false ->
  (containerPaths h n).1 <> (containerPaths h m).2.
Proof.
  intros Hn Hm. rewrite !containerPaths_file by assumption. cbn [fst snd].
  intros Heq. apply app_inv_head in Heq. injection Heq as Heq.
  change containerExt with (".cont.g" +:+ "z") in Heq at 1.
  change ".sha256" with (".sha25" +:+ "6") in Heq.
  rewrite <- !append_assoc_r in Heq.
  apply append_last_inj in Heq. discriminate.
Qed.

(** X5. Containers whose names hold no path separator never share a file:
    the container files of two such names, and their digest files, differ
    unless the names are equal, and no container file is the digest file of
    a container. *)
Theorem container_paths_disjoint h n m :
  has_separator n = false -> has_separator m = false ->
  ((containerPaths h n).1 = (containerPaths h m).1 -> n = m) /\
  ((containerPaths h n).2 = (containerPaths h m).2 -> n = m) /\
  (containerPaths h n).1 <> (containerPaths h m).2.
Proof.
  intros Hn Hm. split; [|split].
  - rewrite !containerPaths_file by assumption. cbn [fst].
    intros Heq. apply app_inv_head in Heq. injection Heq as Heq.
    exact (append_inj_r _ _ _ Heq).
  - apply container_sidecar_inj; assumption.
  - apply container_file_not_sidecar; assumption.
Qed.

End ContainerPaths.

(** ** More on the file system *)

Lemma os_Open_put_eq d p x :
  p ∉ unreadable d -> os_Open (fs_put p x d) p = (Some x, None).
Proof.
  intros Hr. unfold os_Open, fs_put. cbn [files unreadable].
  rewrite lookup_insert_eq, bool_decide_eq_false_2 by exact Hr. reflexivity.
Qed.

Lemma os_Open_put_ne d p q x :
  p <> q -> os_Open (fs_put p x d) q = os_Open d q.
Proof.
  intros Hne. unfold os_Open, fs_put. cbn [files unreadable].
  rewrite lookup_insert_ne by exact Hne. reflexivity.
Qed.

Lemma ReadFileString_put_eq d p data :
  p ∉ unreadable d -> ReadFileString (fs_put p (Plain data) d) p = (data, None).
Proof. intros Hr. unfold ReadFileString. rewrite os_Open_put_eq by exact Hr. reflexivity. Qed.

Lemma ReadFileString_put_ne d p q x :
  p <> q -> ReadFileString (fs_put p x d) q = ReadFileString d q.
Proof. intros Hne. unfold ReadFileString. rewrite os_Open_put_ne by exact Hne. reflexivity. Qed.

Section MoreSync.

Context {E Rule CRule : Type} `{!Gene E Rule CRule} `{!Digests}.

Implicit Types (h : HIDS E Rule) (w : World).

Lemma set_fs_same w : set_fs (fs w) w = w.
Proof. destruct w. reflexivity. Qed.

Lemma RulesPaths_distinct h : (RulesPaths h).1 <> (RulesPaths h).2.
Proof.
  unfold RulesPaths. cbn [fst snd]. intros Heq. symmetry in Heq. revert Heq.
  apply path_append_neq. discriminate.
Qed.

(** fetchRulesFromManager once the rules are served and verified: the
    digest is written first, and its error dropped; the rules are written
    next, and their error returned. *)
Lemma fetchRules_verified h w rules :
  FwdLocal (FwdConfig (config h)) = false ->
  GetRulesSha256 (Client (forwarder h)) = (Sha256 rules, None) ->
  GetRules (Client (forwarder h)) = (rules, None) ->
  fetchRulesFromManager (h, w)
  = let w1 := add_call CallGetRules (add_call CallGetRulesSha256 w) in
    let d1 := if bool_decide ((RulesPaths h).2 ∈ unwritable (fs w))
              then fs w
              else fs_put (RulesPaths h).2 (Plain (Sha256 rules)) (fs w) in
    if bool_decide ((RulesPaths h).1 ∈ unwritable (fs w))
    then (Some "open: access is denied", (h, set_fs d1 w1))
    else (None, (h, set_fs (fs_put (RulesPaths h).1 (Plain rules) d1) w1)).
Proof.
  intros Hlocal Hsha Hrules.
  unfold fetchRulesFromManager. monad_unfold.
  destruct (RulesPaths h) as [p q]. cbn [fst snd]. rewrite Hlocal. monad_unfold.
  rewrite Hsha. monad_unfold. rewrite Hrules. monad_unfold.
  rewrite String.eqb_refl. cbn [negb].
  unfold WriteFile. monad_unfold. cbn [fs add_call].
  destruct (bool_decide (q ∈ unwritable (fs w))); monad_unfold; cbn [fs set_fs add_call fs_put unwritable];
    destruct (bool_decide (p ∈ unwritable (fs w))); reflexivity.
Qed.

(** X1. A rules fetch that is served, verified and written leaves the rules
    and their digest on disk and returns no error; if the digest file can be
    read back, the rules are no longer stale. *)
Theorem rules_fetch_converges h w rules :
  FwdLocal (FwdConfig (config h)) = false ->
  GetRulesSha256 (Client (forwarder h)) = (Sha256 rules, None) ->
  GetRules (Client (forwarder h)) = (rules, None) ->
  (RulesPaths h).1 ∉ unwritable (fs w) ->
  (RulesPaths h).2 ∉ unwritable (fs w) ->
  (RulesPaths h).2 ∉ unreadable (fs w) ->
  let r := fetchRulesFromManager (h, w) in
  r.1 = None /\
  r.2.1 = h /\
  files (fs r.2.2) !! (RulesPaths h).1 = Some (Plain rules) /\
  files (fs r.2.2) !! (RulesPaths h).2 = Some (Plain (Sha256 rules)) /\
  (needsRulesUpdate r.2).1 = false.
Proof.
  intros Hlocal Hsha Hrules Hw1 Hw2 Hr2. cbv zeta.
  rewrite (fetchRules_verified h w rules Hlocal Hsha Hrules). cbv zeta.
  rewrite (bool_decide_eq_false_2 _ Hw1), (bool_decide_eq_false_2 _ Hw2).
  cbn [fst snd fs set_fs].
  pose proof (RulesPaths_distinct h) as Hne.
  split; [reflexivity|]. split; [reflexivity|].
  split; [unfold fs_put; cbn [files]; apply lookup_insert_eq|].
  split.
  { unfold fs_put; cbn [files]. rewrite lookup_insert_ne by exact Hne.
    apply lookup_insert_eq. }
  rewrite needsRulesUpdate_run.
  destruct (Local (forwarder h)); [reflexivity|].
  rewrite Hsha. cbn [fst snd fs set_fs].
  rewrite ReadFileString_put_ne by exact Hne.
  rewrite ReadFileString_put_eq by exact Hr2.
  cbn [fst]. rewrite String.eqb_refl. reflexivity.
Qed.

(** X2. A torn update: when the digest file can be written and the rule
    file cannot, the fetch returns the write error, the rule file is the one
    found, and the digest file already holds the digest of the rules that
    were not written; the agent then no longer sees its rules as stale. *)
Theorem rules_fetch_torn h w rules :
  FwdLocal (FwdConfig (config h)) = false ->
  GetRulesSha256 (Client (forwarder h)) = (Sha256 rules, None) ->
  GetRules (Client (forwarder h)) = (rules, None) ->
  (RulesPaths h).1 ∈ unwritable (fs w) ->
  (RulesPaths h).2 ∉ unwritable (fs w) ->
  (RulesPaths h).2 ∉ unreadable (fs w) ->
  let r := fetchRulesFromManager (h, w) in
  r.1 = Some "open: access is denied" /\
  files (fs r.2.2) !! (RulesPaths h).1 = files (fs w) !! (RulesPaths h).1 /\
  files (fs r.2.2) !! (RulesPaths h).2 = Some (Plain (Sha256 rules)) /\
  (needsRulesUpdate r.2).1 = false.
Proof.
  intros Hlocal Hsha Hrules Hw1 Hw2 Hr2. cbv zeta.
  rewrite (fetchRules_verified h w rules Hlocal Hsha Hrules). cbv zeta.
  rewrite (bool_decide_eq_true_2 _ Hw1), (bool_decide_eq_false_2 _ Hw2).
  cbn [fst snd fs set_fs].
  pose proof (RulesPaths_distinct h) as Hne.
  split; [reflexivity|].
  split.
  { unfold fs_put; cbn [files]. apply lookup_insert_ne. congruence. }
  split; [unfold fs_put; cbn [files]; apply lookup_insert_eq|].
  rewrite needsRulesUpdate_run.
  destruct (Local (forwarder h)); [reflexivity|].
  rewrite Hsha. cbn [fst snd fs set_fs].
  rewrite ReadFileString_put_eq by exact Hr2.
  cbn [fst]. rewrite String.eqb_refl. reflexivity.
Qed.

(** X3. The error of writing the digest file is dropped: when only the
    digest file cannot be written, the fetch writes the rules and returns no
    error, the digest file is the one found, and the staleness test answers
    after the fetch what it answered before it. *)
Theorem rules_fetch_digest_write_unchecked h w rules :
  FwdLocal (FwdConfig (config h)) = false ->
  GetRulesSha256 (Client (forwarder h)) = (Sha256 rules, None) ->
  GetRules (Client (forwarder h)) = (rules, None) ->
  (RulesPaths h).1 ∉ unwritable (fs w) ->
  (RulesPaths h).2 ∈ unwritable (fs w) ->
  let r := fetchRulesFromManager (h, w) in
  r.1 = None /\
  files (fs r.2.2) !! (RulesPaths h).1 = Some (Plain rules) /\
  files (fs r.2.2) !! (RulesPaths h).2 = files (fs w) !! (RulesPaths h).2 /\
  (needsRulesUpdate r.2).1 = (needsRulesUpdate (h, w)).1.
Proof.
  intros Hlocal Hsha Hrules Hw1 Hw2. cbv zeta.
  rewrite (fetchRules_verified h w rules Hlocal Hsha Hrules). cbv zeta.
  rewrite (bool_decide_eq_false_2 _ Hw1), (bool_decide_eq_true_2 _ Hw2).
  cbn [fst snd fs set_fs].
  pose proof (RulesPaths_distinct h) as Hne.
  split; [reflexivity|].
  split; [unfold fs_put; cbn [files]; apply lookup_insert_eq|].
  split.
  { unfold fs_put; cbn [files]. apply lookup_insert_ne. exact Hne. }
  rewrite !needsRulesUpdate_run.
  destruct (Local (forwarder h)); [reflexivity|].
  rewrite Hsha. cbn [fst snd fs set_fs].
  rewrite ReadFileString_put_ne by exact Hne. reflexivity.
Qed.

(** The body of the container loop once the container is served and
    verified: the file is created, and the error of writing the digest file
    is dropped. *)
Lemma fetch_container_verified name h w cont :
  GetContainer (Client (forwarder h)) name = (cont, None) ->
  Sha256StringArray cont = reported_digest h name ->
  fetch_container name (h, w)
  = let w1 := add_call (CallGetContainerSha256 name) (add_call (CallGetContainer name) w) in
    if bool_decide ((containerPaths h name).1 ∈ unwritable (fs w))
    then (Some "open: access is denied", (h, w1))
    else
      let d1 := fs_put (containerPaths h name).1 (Gzip (container_payload cont)) (fs w) in
      (None,
       (h, set_fs (if bool_decide ((containerPaths h name).2 ∈ unwritable (fs w))
                   then d1
                   else fs_put (containerPaths h name).2 (Plain (Sha256StringArray cont)) d1)
                  w1)).
Proof.
  intros Hcont Hsha. unfold reported_digest in Hsha.
  unfold fetch_container. monad_unfold. rewrite Hcont. monad_unfold.
  destruct (GetContainerSha256 (Client (forwarder h)) name) as [sha e] eqn:Hdig.
  cbn [fst] in Hsha. monad_unfold.
  rewrite Hsha, String.eqb_refl. cbn [negb].
  unfold create_gzip, WriteFile. monad_unfold. cbn [fs add_call].
  destruct (containerPaths h name) as [p q]. cbn [fst snd]. monad_unfold.
  cbn [fs add_call].
  destruct (bool_decide (p ∈ unwritable (fs w))); monad_unfold; [reflexivity|].
  cbn [fs set_fs add_call fs_put unwritable].
  destruct (bool_decide (q ∈ unwritable (fs w))); monad_unfold; reflexivity.
Qed.

Lemma fetch_containers_converges_aux h l : forall w done,
  Forall (fun n => has_separator n = false) l ->
  Forall (served h) l ->
  Forall (storable h (fs w)) l ->
  Forall (fun n => has_separator n = false) done ->
  Forall (up_to_date h w) done ->
  exists w',
    fetch_containers l (h, w) = (None, (h, w')) /\
    unwritable (fs w') = unwritable (fs w) /\
    unreadable (fs w') = unreadable (fs w) /\
    Forall (up_to_date h w') done /\
    Forall (up_to_date h w') l.
Proof.
  induction l as [|n rest IH]; intros w done Hsep Hserved Hstore Hdsep Hdone.
  - exists w. repeat split; [exact Hdone | constructor].
  - inversion Hsep as [|? ? Hn Hsep']; subst.
    inversion Hserved as [|? ? [cont [Hcont Hsha]] Hserved']; subst.
    inversion Hstore as [|? ? [Hw1 [Hw2 Hr2]] Hstore']; subst.
    rewrite fetch_containers_cons. cbv zeta.
    destruct (negb (String.eqb (local_digest h w n) (reported_digest h n))) eqn:Hneed.
    + rewrite (fetch_container_verified n h _ cont Hcont Hsha). cbv zeta.
      cbn [fs add_call].
      rewrite (bool_decide_eq_false_2 _ Hw1), (bool_decide_eq_false_2 _ Hw2).
      set (w2 := set_fs _ _).
      assert (Hn2 : up_to_date h w2 n).
      { unfold up_to_date, local_digest, w2. cbn [fs set_fs].
        rewrite ReadFileString_put_eq by exact Hr2. exact Hsha. }
      assert (Hkeep : forall m, has_separator m = false ->
                                up_to_date h w m -> up_to_date h w2 m).
      { intros m Hm Hup.
        destruct (decide (n = m)) as [->|Hne]; [exact Hn2|].
        unfold up_to_date, local_digest, w2 in *. cbn [fs set_fs].
        rewrite !ReadFileString_put_ne; [exact Hup| |].
        - apply container_file_not_sidecar; assumption.
        - intros Heq. apply Hne. exact (container_sidecar_inj h n m Hn Hm Heq). }
      destruct (IH w2 (n :: done)) as [w' [Hrun [Hu [Hr [Hd Hl]]]]].
      * exact Hsep'.
      * exact Hserved'.
      * exact Hstore'.
      * constructor; assumption.
      * constructor; [exact Hn2|].
        rewrite Forall_forall in Hdsep, Hdone. apply Forall_forall.
        intros m Hin. apply Hkeep; auto.
      * exists w'. split; [exact Hrun|]. split; [exact Hu|]. split; [exact Hr|].
        inversion Hd; subst. split; [assumption | constructor; assumption].
    + apply negb_false_iff, String.eqb_eq in Hneed.
      destruct (IH (add_call (CallGetContainerSha256 n) w) (n :: done))
        as [w' [Hrun [Hu [Hr [Hd Hl]]]]].
      * exact Hsep'.
      * exact Hserved'.
      * exact Hstore'.
      * constructor; assumption.
      * constructor; [exact Hneed | exact Hdone].
      * exists w'. split; [exact Hrun|]. split; [exact Hu|]. split; [exact Hr|].
        inversion Hd; subst. split; [assumption | constructor; assumption].
Qed.

(** X4. The container synchronisation converges: when the manager serves
    its list, every listed container has a name without path separator, is
    served with the digest the manager reports for it and can be stored
    (container and digest files writable, digest file readable), the fetch
    returns no error and, on the disk it leaves, no container needs an
    update any more. *)
Theorem containers_fetch_converges h w l :
  FwdLocal (FwdConfig (config h)) = false ->
  GetContainersList (Client (forwarder h)) = (l, None) ->
  Forall (fun n => has_separator n = false) l ->
  Forall (served h) l ->
  Forall (storable h (fs w)) l ->
  let r := fetchContainersFromManager (h, w) in
  r.1 = None /\ r.2.1 = h /\
  Forall (fun n => local_digest h r.2.2 n = reported_digest h n) l /\
  (needsContainersUpdate r.2).1 = false.
Proof.
  intros Hlocal Hlist Hsep Hserved Hstore. cbv zeta.
  rewrite (fetchContainers_run h w l Hlocal Hlist).
  destruct (fetch_containers_converges_aux h l (add_call CallGetContainersList w) []
              Hsep Hserved Hstore (Forall_nil_2 _) (Forall_nil_2 _))
    as [w' [Hrun [_ [_ [_ Hl]]]]].
  rewrite Hrun. cbn [fst snd].
  split; [reflexivity|]. split; [reflexivity|]. split; [exact Hl|].
  exact (needsContainersUpdate_up_to_date h w' l Hlist Hl).
Qed.

End MoreSync.

Section Update.

Context {E Rule CRule : Type} `{!Gene E Rule CRule} `{!Digests}.

Implicit Types (h : HIDS E Rule) (w : World).









(** The world after the canary rules are loaded holds the same files and
    the same requests. *)
Lemma load_canary_rules_world h w :
  fs (load_canary_rules (h, w)).2.2 = fs w /\
  calls (load_canary_rules (h, w)).2.2 = calls w.
Proof.
  unfold load_canary_rules, add_canary, Engine_AddRule. monad_unfold.
  destruct (Enable (CanariesConfig (config h))); [|split; reflexivity].
  monad_unfold.
  destruct (Compile (GenRuleSysmon (CanariesConfig (config h)))) as [cr1 [e1|]];
    destruct (Compile (GenRuleFSAudit (CanariesConfig (config h)))) as [cr2 [e2|]];
    monad_unfold; split; reflexivity.
Qed.

Lemma rebuild_world rr rc force h w :
  fs (rebuild rr rc force (h, w)).2.2 = fs w /\
  calls (rebuild rr rc force (h, w)).2.2 = calls w.
Proof.
  destruct (rr || rc || force) eqn:Hgo.
  - rewrite (rebuild_run rr rc force h w Hgo). cbv zeta.
    destruct (last _); [split; reflexivity|].
    destruct (rr || force); [|split; reflexivity].
    match goal with |- context [load_canary_rules (?a, ?b)] =>
      pose proof (load_canary_rules_world a b) as Hw;
      destruct (load_canary_rules (a, b)) as [u [h2 w2]] end.
    cbn [fst snd] in Hw.
    destruct (LoadDirectory _ _ _) as [e3 err]. exact Hw.
  - unfold rebuild. rewrite Hgo. split; reflexivity.
Qed.

(** X7. An agent whose forwarder is local never reaches the manager and
    never writes a file when it updates its engine, forced or not; when the
    update is not forced it does nothing at all. *)
Theorem standalone_update_offline force h w :
  Local (forwarder h) = true ->
  let r := updateEngine force (h, w) in
  calls r.2.2 = calls w /\
  fs r.2.2 = fs w /\
  (force = false -> r = (None, (h, w))).
Proof.
  intros Hlocal. cbv zeta.
  assert (Hrun : updateEngine force (h, w) = rebuild false false force (h, w)).
  { unfold updateEngine, refresh. unfold bind at 1 2.
    rewrite needsRulesUpdate_run, Hlocal. unfold bind at 1.
    rewrite needsContainersUpdate_run, Hlocal. reflexivity. }
  rewrite Hrun.
  destruct (rebuild_world false false force h w) as [Hfs Hcalls].
  split; [exact Hcalls|]. split; [exact Hfs|].
  intros ->. reflexivity.
Qed.

(** X8. When only the containers were refreshed (the rules were not, and
    the update is not forced), the engine is replaced by a new engine into
    which the containers are loaded and nothing else: neither the canary
    rules nor the rule directory are loaded into it.  The update returns the
    last container error, if any. *)
Theorem container_only_update_drops_rules h w h' w' :
  refresh (h, w) = ((false, true), (h', w')) ->
  let cf := container_files (Walk (fs w') (ContainersDB (RulesConfig (config h')))) in
  updateEngine false (h, w)
  = (match last (container_errors (fs w') cf) with
     | Some e => Some ("error loading containers: " +:+ e)
     | None => None
     end,
     (set_Engine (load_all (loaded_containers (fs w') cf) newActionnableEngine) h', w')).
Proof.
  intros Hrefresh. cbv zeta.
  unfold updateEngine. unfold bind at 1. rewrite Hrefresh.
  rewrite (rebuild_run false true false h' w' eq_refl). cbv zeta.
  destruct (last _); reflexivity.
Qed.

End Update.

Section MoreIngestion.

Context {E Rule CRule XMLEvent : Type}.
Context `{!Gene E Rule CRule} `{!Telemetry XMLEvent}.

Implicit Types (h : HIDS E Rule) (w : World) (e : Event).

Lemma conversion_log_stdout (xe : XMLEvent) w : stdout (conversion_log xe w) = stdout w.
Proof. unfold conversion_log. destruct (XMLEventToGoEvtxMap xe).2; reflexivity. Qed.

Lemma termination_log_stdout h w : stdout (termination_log h w) = stdout w.
Proof. unfold termination_log. destruct (_ && _); reflexivity. Qed.

Ltac bounds_close k a :=
  exists k, a; eexists; cbn;
  split; [lia|];
  split; [|split; [reflexivity|split; [reflexivity|]]];
  [|first [reflexivity | symmetry; apply app_nil_r]];
  cbn; lia.

(** What one record does to the counters and to the forwarder. *)
Lemma handle_record_bounds (xe : XMLEvent) h w :
  let hf := (handle_record xe (h, w)).2.1 in
  exists (k a : nat) (sent : list Event),
    (a <= k <= 1)%nat /\ (length sent <= k)%nat /\
    eventScanned hf = Nat.iter k uint64_incr (eventScanned h) /\
    alertReported hf = Nat.iter a uint64_incr (alertReported h) /\
    Pipe (forwarder hf) = Pipe (forwarder h) ++ sent.
Proof.
  cbv zeta. rewrite handle_record_run, prepare_event_run. cbv beta iota zeta.
  destruct h as [pre post fwd [ct eh ef la ep fc rc cc] es ar tr eng0 dry pa].
  set (h := Build_HIDS _ _ _ _ _ _ _ _ _ _).
  set (r := RunHooksOn (preHooks h) (tracked h) (XMLEventToGoEvtxMap xe).1).
  destruct (_ && negb (isSysmonProcessTerminate _)).
  - bounds_close 0%nat 0%nat.
  - rewrite detect_event_run.
    destruct (MatchOrFilter _ _) as [[eng e2] [[n crit] filtered]].
    destruct ((0 <? length n)%nat || filtered).
    + rewrite decide_event_run. subst h. cbn.
      destruct (crit >=? ct).
      * destruct pa, la; bounds_close 1%nat 1%nat.
      * destruct filtered, ef, pa, la; bounds_close 1%nat 0%nat.
    + subst h. cbn. destruct pa, la; bounds_close 1%nat 0%nat.
Qed.

Lemma ingest_cons (xe : XMLEvent) rest h w :
  ingest (xe :: rest) (h, w) = ingest rest (handle_record xe (h, w)).2.
Proof.
  cbn [ingest]. unfold bind.
  destruct (handle_record xe (h, w)) as [u st]. reflexivity.
Qed.

(** X9. Over any batch of records the loop scans at most one event per
    record, reports at most one alert per scanned event and forwards at most
    one event per scanned event; what the forwarder held is kept in front of
    what is sent.  The counters advance by uint64 increments. *)
Theorem ingest_bounds (l : list XMLEvent) h w :
  let hf := (ingest l (h, w)).2.1 in
  exists (k a : nat) (sent : list Event),
    (a <= k <= length l)%nat /\ (length sent <= k)%nat /\
    eventScanned hf = Nat.iter k uint64_incr (eventScanned h) /\
    alertReported hf = Nat.iter a uint64_incr (alertReported h) /\
    Pipe (forwarder hf) = Pipe (forwarder h) ++ sent.
Proof.
  cbv zeta. revert h w. induction l as [|xe rest IH]; intros h w.
  - exists 0%nat, 0%nat, []. cbn. rewrite app_nil_r. repeat split; lia.
  - rewrite ingest_cons.
    destruct (handle_record_bounds xe h w) as [k1 [a1 [s1 [Hk1 [Hs1 [He1 [Ha1 Hp1]]]]]]].
    cbv zeta in He1, Ha1, Hp1.
    destruct (handle_record xe (h, w)) as [u [h1 w1]]. cbn [fst snd] in *.
    destruct (IH h1 w1) as [k2 [a2 [s2 [Hk2 [Hs2 [He2 [Ha2 Hp2]]]]]]].
    exists (k2 + k1)%nat, (a2 + a1)%nat, (s1 ++ s2).
    split; [cbn [length]; lia|].
    split; [rewrite length_app; lia|].
    rewrite !Nat.iter_add, <- He1, <- Ha1, app_assoc, <- Hp1.
    split; [exact He2|]. split; [exact Ha2 | exact Hp2].
Qed.

(** X10. With LogAll set, every event that is not skipped is forwarded
    exactly once, at the end of the turn: as the post detection hooks left
    it when it raised an alert, as the engine returned it otherwise; a
    filtered event keeps its gene information. *)
Theorem log_all_forwards_each_event (xe : XMLEvent) h w e1 h1 w1 eng e2 n crit filtered
    (Hprep : prepare_event xe (h, w) = (e1, (h1, w1)))
    (Hkept : IsHIDSEvent h1 e1 && negb (isSysmonProcessTerminate e1) = false)
    (Hmatch : MatchOrFilter (Engine h1) e1 = (eng, e2, (n, crit, filtered)))
    (Hlog : LogAll (config h) = true) :
  let hf := (handle_record xe (h, w)).2.1 in
  let alert := ((0 <? length n)%nat || filtered) && (crit >=? CritTresh (config h)) in
  Pipe (forwarder hf)
  = Pipe (forwarder h)
    ++ [if alert then (RunHooksOn (postHooks h) (tracked h1) e2).2 else e2] /\
  alertReported hf
  = (if alert then uint64_incr (alertReported h) else alertReported h) /\
  eventScanned hf = uint64_incr (eventScanned h).
Proof.
  rewrite prepare_event_run in Hprep. injection Hprep as He1 Hh1 Hw1.
  cbv zeta. rewrite handle_record_run, prepare_event_run. cbv beta iota zeta.
  rewrite He1, Hh1, Hkept, detect_event_run, Hmatch. subst h1.
  destruct h as [pre post fwd [ct eh ef la ep fc rc cc] es ar tr eng0 dry pa].
  cbn in Hlog. subst la.
  destruct ((0 <? length n)%nat || filtered).
  - rewrite decide_event_run. cbn.
    destruct (crit >=? ct); cbn.
    + rewrite andb_false_r. cbn. repeat split.
    + rewrite !andb_false_r. cbn. repeat split.
  - cbn. repeat split.
Qed.

(** X11. With PrintAll set, every record prints exactly one event, the
    events of the agent itself included; nothing is forwarded unless LogAll
    is set too, and what is then forwarded is the event printed. *)
Theorem print_all_prints_each_record (xe : XMLEvent) h w
    (Hprint : PrintAll h = true) :
  let r := handle_record xe (h, w) in
  exists e,
    stdout r.2.2 = stdout w ++ [e] /\
    (Pipe (forwarder r.2.1) = Pipe (forwarder h) \/
     (LogAll (config h) = true /\ Pipe (forwarder r.2.1) = Pipe (forwarder h) ++ [e])) /\
    (LogAll (config h) = false -> Pipe (forwarder r.2.1) = Pipe (forwarder h)).
Proof.
  cbv zeta. rewrite handle_record_run, prepare_event_run. cbv beta iota zeta.
  assert (Hout : stdout (termination_log h (conversion_log xe w)) = stdout w)
    by (rewrite termination_log_stdout; apply conversion_log_stdout).
  revert Hout. generalize (termination_log h (conversion_log xe w)). intros w1 Hout.
  destruct h as [pre post fwd [ct eh ef la ep fc rc cc] es ar tr eng0 dry pa].
  cbn in Hprint. subst pa.
  destruct (_ && negb (isSysmonProcessTerminate _)).
  - cbn. rewrite Hout. eexists. split; [reflexivity|]. split; [left; reflexivity|].
    intros _; reflexivity.
  - rewrite detect_event_run.
    destruct (MatchOrFilter _ _) as [[eng e2] [[n crit] filtered]].
    destruct ((0 <? length n)%nat || filtered).
    + rewrite decide_event_run. cbn.
      destruct (crit >=? ct); cbn.
      * rewrite Hout. destruct la; cbn; eexists; (split; [reflexivity|]);
          (split; [|intros; first [reflexivity | discriminate]]);
          first [left; reflexivity | right; split; reflexivity].
      * rewrite !andb_false_r. cbn. rewrite Hout.
        destruct la; cbn; eexists; (split; [reflexivity|]);
          (split; [|intros; first [reflexivity | discriminate]]);
          first [left; reflexivity | right; split; reflexivity].
    + cbn. rewrite Hout.
      destruct la; cbn; eexists; (split; [reflexivity|]);
        (split; [|intros; first [reflexivity | discriminate]]);
        first [left; reflexivity | right; split; reflexivity].
Qed.

(** X12. With LogAll off, an event that is not skipped and that either
    matched nothing and is not filtered, or is below the threshold without
    being a filtered event under filtering, is only counted: nothing is
    forwarded, the alert counter and the hook state are as the pre detection
    hooks left them, and the scanned counter is incremented. *)
Theorem quiet_event (xe : XMLEvent) h w e1 h1 w1 eng e2 n crit filtered
    (Hprep : prepare_event xe (h, w) = (e1, (h1, w1)))
    (Hkept : IsHIDSEvent h1 e1 && negb (isSysmonProcessTerminate e1) = false)
    (Hmatch : MatchOrFilter (Engine h1) e1 = (eng, e2, (n, crit, filtered)))
    (Hlog : LogAll (config h) = false)
    (Hquiet : (n = [] /\ filtered = false) \/
              (crit < CritTresh (config h) /\
               (filtered = false \/ EnableFiltering (config h) = false))) :
  let hf := (handle_record xe (h, w)).2.1 in
  Pipe (forwarder hf) = Pipe (forwarder h) /\
  alertReported hf = alertReported h /\
  tracked hf = tracked h1 /\
  Engine hf = eng /\
  eventScanned hf = uint64_incr (eventScanned h).
Proof.
  rewrite prepare_event_run in Hprep. injection Hprep as He1 Hh1 Hw1.
  cbv zeta. rewrite handle_record_run, prepare_event_run. cbv beta iota zeta.
  rewrite He1, Hh1, Hkept, detect_event_run, Hmatch. subst h1.
  destruct h as [pre post fwd [ct eh ef la ep fc rc cc] es ar tr eng0 dry pa].
  cbn in Hlog, Hquiet. subst la.
  destruct Hquiet as [[-> ->] | [Hlt Hf]].
  - cbn. destruct pa; cbn; repeat split.
  - destruct ((0 <? length n)%nat || filtered).
    + rewrite decide_event_run. cbn.
      destruct (Z.geb_spec crit ct) as [Hge|_]; [lia|].
      destruct Hf as [-> | ->]; cbn; rewrite ?andb_false_r; cbn;
        destruct pa; cbn; repeat split.
    + cbn. destruct pa; cbn; repeat split.
Qed.

End MoreIngestion.

Module CommandRunnerInvariant.
Import CommandRunner CommandRunnerFacts CommandRunnerStates.

Section AnyAnswers.

Context {Cmd : Type}.

Lemma reachable_initial : reachable initial.
Proof. split; [right; reflexivity|]. exists 0. split; [lia|reflexivity]. Qed.

Lemma reachable_iteration (f : Fetched Cmd) l :
  reachable l ->
  reachable (iteration f l).1 /\ (iteration f l).2 = sleep (iteration f l).1.
Proof.
  intros [Hs [k [Hk Hd]]]. split; [|reflexivity].
  destruct (is_command f) eqn:Hf.
  - destruct f as [c| |e]; try discriminate.
    rewrite iteration_command. cbn [fst]. split; [left; reflexivity|].
    exists 1. split; [lia|]. cbn [burstDur]. lia.
  - destruct l as [s d]. cbn [sleep burstDur] in Hs, Hd.
    destruct (Z_lt_le_dec d tgtBurstDur) as [Hlt|Hge].
    + destruct Hs as [-> | ->].
      * rewrite (iteration_fast f d Hf) by (subst d; unfold burstSleep, Millisecond in *; lia).
        cbn [fst]. split; [left; reflexivity|].
        exists (k + 1). cbn [burstDur]. subst d.
        unfold tgtBurstDur, burstSleep, Second, Millisecond in *. split; lia.
      * unfold iteration. rewrite (on_fetch_idle f _ Hf).
        unfold check_window, accumulate. cbn [sleep burstDur].
        destruct (Z.geb_spec d tgtBurstDur) as [Hge|_]; [lia|]. cbn [sleep burstDur fst].
        change (defaultSleep =? burstSleep) with false. cbn [sleep burstDur fst].
        split; [right; reflexivity|]. exists k. split; [lia|exact Hd].
    + rewrite (iteration_revert f s d Hf Hge). cbn [fst].
      split; [right; reflexivity|]. exists k. split; [lia|exact Hd].
Qed.

(** X13. Whatever the manager answers, in any order, every sleep of the
    loop is the fast interval or the default one, and the accumulator never
    leaves the window: it is a whole number of fast intervals between 0 and
    30 s, so the int64 addition never wraps. *)
Theorem runner_invariant (fs : list (Fetched Cmd)) :
  let r := run fs initial in
  Forall (fun d => d = burstSleep \/ d = defaultSleep) r.1 /\
  (sleep r.2 = burstSleep \/ sleep r.2 = defaultSleep) /\
  0 <= burstDur r.2 <= tgtBurstDur /\
  exists k, burstDur r.2 = k * burstSleep.
Proof.
  cbv zeta.
  assert (Hgen : forall l, reachable l ->
            Forall (fun d => d = burstSleep \/ d = defaultSleep) (run fs l).1 /\
            reachable (run fs l).2).
  { induction fs as [|f fs' IH]; intros l Hl.
    - split; [constructor | exact Hl].
    - cbn [run]. destruct (reachable_iteration f l Hl) as [Hl1 Hd].
      destruct (iteration f l) as [l1 d]. cbn [fst snd] in Hl1, Hd.
      destruct (IH l1 Hl1) as [Hds Hl2].
      destruct (run fs' l1) as [ds l2]. cbn [fst snd] in *.
      split; [|exact Hl2]. constructor; [|exact Hds].
      subst d. exact (proj1 Hl1). }
  destruct (Hgen initial reachable_initial) as [Hds [Hs [k [Hk Hd]]]].
  split; [exact Hds|]. split; [exact Hs|].
  split; [|exists k; exact Hd].
  rewrite Hd. unfold tgtBurstDur, burstSleep, Second, Millisecond. lia.
Qed.

Lemma Forall_take_le {A} (P : A -> Prop) (m n : nat) (l : list A) :
  (m <= n)%nat -> Forall P (take n l) -> Forall P (take m l).
Proof.
  intros Hle H. replace m with (Nat.min m n) by lia.
  rewrite <- take_take. apply Forall_take. exact H.
Qed.

Lemma burst_continues (fs : list (Fetched Cmd)) : forall (j : nat),
  (j <= 60)%nat ->
  Forall (fun d => d = burstSleep)
    (take (60 - j) (run fs {| sleep := burstSleep; burstDur := Z.of_nat j * burstSleep |}).1).
Proof.
  induction fs as [|f fs' IH]; intros j Hj.
  - cbn [run fst]. rewrite take_nil. constructor.
  - destruct (decide (j = 60%nat)) as [->|Hne]; [constructor|].
    cbn [run].
    destruct (is_command f) eqn:Hf.
    + destruct f as [c| |e]; try discriminate.
      rewrite iteration_command.
      specialize (IH 1%nat ltac:(lia)).
      change (Z.of_nat 1 * burstSleep) with burstSleep in IH.
      destruct (run fs' _) as [ds l2]. cbn [fst] in *.
      replace (60 - j)%nat with (S (59 - j)) by lia. cbn [take].
      constructor; [reflexivity|].
      apply (Forall_take_le _ (59 - j) (60 - 1)); [lia | exact IH].
    + rewrite (iteration_fast f _ Hf)
        by (unfold tgtBurstDur, burstSleep, Second, Millisecond; lia).
      specialize (IH (S j) ltac:(lia)).
      replace (Z.of_nat (S j) * burstSleep) with (Z.of_nat j * burstSleep + burstSleep) in IH by lia.
      destruct (run fs' _) as [ds l2]. cbn [fst] in *.
      replace (60 - j)%nat with (S (60 - S j)) by lia. cbn [take].
      constructor; [reflexivity | exact IH].
Qed.

(** X14. Whatever follows a command (more commands, errors, nothing to
    do), the sleep of the turn that received it and the 59 next ones are all
    the fast interval. *)
Theorem burst_lasts_a_window (c : Cmd) (fs : list (Fetched Cmd)) (l : Locals) :
  Forall (fun d => d = burstSleep) (take 60 (run (GotCommand c :: fs) l).1).
Proof.
  cbn [run]. rewrite iteration_command.
  pose proof (burst_continues fs 1 ltac:(lia)) as H.
  change (Z.of_nat 1 * burstSleep) with burstSleep in H.
  destruct (run fs _) as [ds l2]. cbn [fst] in *.
  cbn [take]. constructor; [reflexivity | exact H].
Qed.

End AnyAnswers.

End CommandRunnerInvariant.

Lemma allChannels_elem c : c ∈ allChannels <-> c ∈ aliased_channels.
Proof.
  assert (Heq : allChannels
                = ["Security"; "Microsoft-Windows-Sysmon/Operational";
                   "Microsoft-Windows-Windows Defender/Operational";
                   "Microsoft-Windows-PowerShell/Operational"])
    by (vm_compute; reflexivity).
  rewrite Heq. unfold aliased_channels. rewrite !elem_of_cons, !elem_of_nil. tauto.
Qed.

Lemma add_channel_elem set a c :
  c ∈ add_channel set a
  <-> c ∈ set \/ (a = "all" /\ c ∈ aliased_channels) \/ (a <> "all" /\ c = channel_of a).
Proof.
  unfold add_channel, channel_of.
  destruct (String.eqb_spec a "all") as [->|Hne].
  - rewrite elem_of_union, elem_of_list_to_set, allChannels_elem.
    split; [intros [H|H]; [left|right; left]; auto|].
    intros [H|[[_ H]|[H _]]]; [left| right |]; auto. congruence.
  - destruct (ChannelAliases !! a) as [rc|]; cbn [default];
      rewrite elem_of_union, elem_of_singleton;
      (split; [intros [H|H]; [left|right; right]; auto|]);
      (intros [H|[[H _]|[_ H]]]; [left| |right]; auto; congruence).
Qed.

Lemma initChannels_elem (channels : list string) (set : gset string) (c : string) :
  c ∈ initChannels channels set
  <-> c ∈ set \/
      ("all" ∈ channels /\ c ∈ aliased_channels) \/
      (exists a, a ∈ channels /\ a <> "all" /\ c = channel_of a).
Proof.
  unfold initChannels. revert set.
  induction channels as [|a rest IH]; intros set; cbn [fold_left].
  - split; [auto|]. intros [H|[[H _]|[a [H _]]]]; [exact H| |]; inversion H.
  - rewrite IH, add_channel_elem. split.
    + intros [[H|[[-> H]|[Hne H]]]|[[Hin H]|[b [Hin [Hne H]]]]].
      * left; exact H.
      * right; left. split; [left | exact H].
      * right; right. exists a. split; [left | auto].
      * right; left. split; [right; exact Hin | exact H].
      * right; right. exists b. split; [right; exact Hin | auto].
    + intros [H|[[Hin H]|[b [Hin [Hne H]]]]].
      * left; left; exact H.
      * apply elem_of_cons in Hin as [Heq|Hin].
        -- left; right; left. split; [congruence | exact H].
        -- right; left. auto.
      * apply elem_of_cons in Hin as [->|Hin].
        -- left; right; right. auto.
        -- right; right. exists b. auto.
Qed.

Lemma alias_of_description a :
  ChannelAliases !! a = Some "All aliased channels" -> a = "all".
Proof.
  intros H. apply elem_of_list_to_map_2 in H.
  rewrite !elem_of_cons, elem_of_nil in H.
  destruct H as [H|[H|[H|[H|[H|[]]]]]]; try discriminate H.
  injection H as ->. reflexivity.
Qed.

(** X15. The channels the agent listens to after initChannels: those it
    had, the four aliased channels when [all] is among the configured names,
    and for every other configured name the channel it is an alias of, or
    the name itself when it is no alias.  The description held by the alias
    [all] is listened to only if it was already, or is configured by
    name. *)
Theorem initChannels_spec (channels : list string) (set : gset string) (c : string) :
  (c ∈ initChannels channels set
   <-> c ∈ set \/
       ("all" ∈ channels /\ c ∈ aliased_channels) \/
       (exists a, a ∈ channels /\ a <> "all" /\ c = channel_of a)) /\
  ("All aliased channels" ∈ initChannels channels set
   <-> "All aliased channels" ∈ set \/ "All aliased channels" ∈ channels).
Proof.
  split; [apply initChannels_elem|].
  rewrite initChannels_elem. split.
  - intros [H|[[_ H]|[a [Hin [Hne H]]]]].
    + left. exact H.
    + unfold aliased_channels in H. rewrite !elem_of_cons, elem_of_nil in H.
      destruct H as [H|[H|[H|[H|[]]]]]; discriminate H.
    + unfold channel_of in H. destruct (ChannelAliases !! a) as [rc|] eqn:Ha; cbn in H.
      * subst rc. apply alias_of_description in Ha. contradiction.
      * subst a. right. exact Hin.
  - intros [H|H]; [left; exact H|].
    right; right. exists "All aliased channels".
    split; [exact H|]. split; [discriminate|].
    vm_compute. reflexivity.
Qed.

(** X16. The set of channels depends on the configured names as a set
    only: neither their order nor repetitions matter. *)
Theorem initChannels_order_free (l1 l2 : list string) (set : gset string) :
  (forall a, a ∈ l1 <-> a ∈ l2) ->
  initChannels l1 set = initChannels l2 set.
Proof.
  intros Hsame. apply set_eq. intros c. rewrite !initChannels_elem.
  split; (intros [H|[[Hin H]|[a [Hin H]]]];
          [left; exact H
          |right; left; split; [apply Hsame; exact Hin | exact H]
          |right; right; exists a; split; [apply Hsame; exact Hin | exact H]]).
Qed.

(** X17. Beside [all], an alias adds nothing: the channels are those
    obtained without it. *)
Theorem all_covers_aliases (a rc : string) (channels : list string) (set : gset string) :
  ChannelAliases !! a = Some rc -> a <> "all" -> "all" ∈ channels ->
  initChannels (a :: channels) set = initChannels channels set.
Proof.
  intros Ha Hne Hall. apply set_eq. intros c. rewrite !initChannels_elem.
  assert (Hrc : rc ∈ aliased_channels).
  { apply allChannels_elem. unfold allChannels. apply list_elem_of_omap.
    exists (a, rc). split; [apply elem_of_map_to_list; exact Ha|].
    cbn [fst snd]. destruct (String.eqb_spec a "all"); [contradiction | reflexivity]. }
  split.
  - intros [H|[[Hin H]|[b [Hin [Hb H]]]]].
    + left; exact H.
    + right; left. auto.
    + apply elem_of_cons in Hin as [->|Hin].
      * right; left. split; [exact Hall|]. unfold channel_of in H. rewrite Ha in H.
        subst c. exact Hrc.
      * right; right. exists b. auto.
  - intros [H|[[Hin H]|[b [Hin H]]]].
    + left; exact H.
    + right; left. split; [right; exact Hin | exact H].
    + right; right. exists b. split; [right; exact Hin | exact H].
Qed.

Lemma prefix_spec p s : String.prefix p s = true <-> exists post, s = p +:+ post.
Proof.
  revert s. induction p as [|c p IH]; intros s.
  - split; [intros _; exists s; reflexivity | intros _; destruct s; reflexivity].
  - destruct s as [|d s]; cbn [String.prefix].
    + split; [discriminate | intros [post H]; discriminate].
    + destruct (Ascii.ascii_dec c d) as [->|Hne].
      * rewrite IH. split; intros [post H]; exists post.
        -- change (String d s = String d (p +:+ post)). f_equal. exact H.
        -- change (String d s = String d (p +:+ post)) in H. injection H as H. exact H.
      * split; [discriminate|]. intros [post H].
        change (String d s = String c (p +:+ post)) in H. injection H as H _. congruence.
Qed.

Lemma Contains_spec s m :
  Contains s m = true <-> exists pre post, s = pre +:+ (m +:+ post).
Proof.
  induction s as [|c s IH]; cbn [Contains]; rewrite orb_true_iff, prefix_spec.
  - split.
    + intros [[post H]|H]; [|discriminate]. exists "", post. exact H.
    + intros [[|d pre] [post H]]; [left; exists post; exact H | discriminate].
  - rewrite IH. split.
    + intros [[post H]|[pre [post H]]].
      * exists "", post. exact H.
      * exists (String c pre), post.
        change (String c s = String c (pre +:+ (m +:+ post))). f_equal. exact H.
    + intros [[|d pre] [post H]].
      * left. exists post. exact H.
      * right. exists pre, post.
        change (String c s = String d (pre +:+ (m +:+ post))) in H.
        injection H as _ H. exact H.
Qed.

Lemma append_eq_append x y a b :
  x +:+ y = a +:+ b ->
  exists l, (x = a +:+ l /\ b = l +:+ y) \/ (a = x +:+ l /\ y = l +:+ b).
Proof.
  revert a. induction x as [|c x IH]; intros a Heq.
  - exists a. right. split; [reflexivity | exact Heq].
  - destruct a as [|d a].
    + exists (String c x). left. split; [reflexivity | symmetry; exact Heq].
    + change (String c (x +:+ y) = String d (a +:+ b)) in Heq.
      injection Heq as -> Heq.
      destruct (IH a Heq) as [l [[H1 H2]|[H1 H2]]]; exists l; [left|right];
        (split; [|assumption]);
        [change (String d x = String d (a +:+ l)) | change (String d a = String d (x +:+ l))];
        f_equal; assumption.
Qed.

Lemma Contains_join a b m :
  has_bar m = false ->
  Contains (a +:+ ("|" +:+ b)) m = Contains a m || Contains b m.
Proof.
  intros Hbar. apply eq_true_iff_eq.
  rewrite orb_true_iff, !Contains_spec. split.
  - intros [pre [post Heq]].
    destruct (append_eq_append _ _ _ _ Heq) as [l [[Ha Hm]|[Hpre Hb]]].
    + destruct (append_eq_append _ _ _ _ Hm) as [l2 [[Hm2 Hb2]|[Hl Hpost]]].
      * destruct l2 as [|c l2].
        -- left. exists pre, "". rewrite append_nil_r in Hm2. subst. 
           rewrite append_nil_r. reflexivity.
        -- change ("|" +:+ b) with (String "|"%char b) in Hb2.
           change (String "|"%char b = String c (l2 +:+ post)) in Hb2.
           injection Hb2 as <- _. subst m.
           unfold has_bar in Hbar. rewrite string_exists_app in Hbar.
           cbn in Hbar. rewrite orb_true_r in Hbar. discriminate.
      * left. exists pre, l2. subst. reflexivity.
    + destruct l as [|c l].
      * change ("" +:+ (m +:+ post)) with (m +:+ post) in Hb.
        destruct m as [|c m].
        -- left. exists a, "". rewrite append_nil_r. reflexivity.
        -- change ("|" +:+ b) with (String "|"%char b) in Hb.
           change (String "|"%char b = String c (m +:+ post)) in Hb.
           injection Hb as <- _. cbn in Hbar. discriminate.
      * change ("|" +:+ b) with (String "|"%char b) in Hb.
        change (String "|"%char b = String c (l +:+ (m +:+ post))) in Hb.
        injection Hb as _ Hb. right. exists l, post. exact Hb.
  - intros [[pre [post Heq]]|[pre [post Heq]]].
    + exists pre, (post +:+ ("|" +:+ b)). subst a. rewrite !append_assoc_r. reflexivity.
    + exists (a +:+ ("|" +:+ pre)), post. subst b. rewrite !append_assoc_r. reflexivity.
Qed.

(** X18. A dump mode is enabled when the configured text contains the word
    [all] or the name of the mode, anywhere: the test is on substrings. *)
Theorem IsModeEnabled_spec (d : DumpConfig) (mode : string) :
  IsModeEnabled d mode = true
  <-> exists pre post, Mode d = pre +:+ ("all" +:+ post) \/ Mode d = pre +:+ (mode +:+ post).
Proof.
  unfold IsModeEnabled. destruct (Contains (Mode d) "all") eqn:Hall.
  - apply Contains_spec in Hall as [pre [post H]].
    split; [intros _; exists pre, post; left; exact H | reflexivity].
  - rewrite Contains_spec. split.
    + intros [pre [post H]]. exists pre, post. right. exact H.
    + intros [pre [post [H|H]]]; [|exists pre, post; exact H].
      assert (Contains (Mode d) "all" = true) by (apply Contains_spec; eauto).
      congruence.
Qed.

(** X19. Modes combined with a vertical bar: a mode whose name holds no
    bar is enabled by the combination exactly when one of the two sides
    enables it. *)
Theorem IsModeEnabled_combined (d d1 d2 : DumpConfig) (mode : string) :
  Mode d = Mode d1 +:+ ("|" +:+ Mode d2) ->
  has_bar mode = false ->
  IsModeEnabled d mode = IsModeEnabled d1 mode || IsModeEnabled d2 mode.
Proof.
  intros Hmode Hbar. unfold IsModeEnabled. rewrite Hmode.
  rewrite (Contains_join _ _ "all" eq_refl), (Contains_join _ _ mode Hbar).
  destruct (Contains (Mode d1) "all"), (Contains (Mode d2) "all"),
    (Contains (Mode d1) mode), (Contains (Mode d2) mode); reflexivity.
Qed.

Section InitHooksFacts.

Context {Rule : Type}.

(** X20. What initHooks registers on two new hook managers: the four light
    hooks first, whatever the configuration; without the advanced hooks,
    nothing else; with them, hookEnrichAnySysmon is the last pre detection
    hook, the post detection hooks end with hookUpdateGeneScore then
    hookHandleActions, only dump hooks come before these two, and there is
    one exactly when IsDumpEnabled holds. *)
Theorem initHooks_registrations (advanced : bool) (c : Config Rule) (Dump : DumpConfig) :
  let '(pre, post) := initHooks advanced c Dump [] [] in
  take 4 pre = [(hookSelfGUID, fltImageSize); (hookProcTerm, fltProcTermination);
                (hookStats, fltStats); (hookTrack, fltTrack)] /\
  if advanced then
    last pre = Some (hookEnrichAnySysmon, fltAnySysmon) /\
    exists dumps,
      post = dumps ++ [(hookUpdateGeneScore, fltAnyEvent); (hookHandleActions, fltAnyEvent)] /\
      forallb is_dump_hook dumps = true /\
      negb (Nat.eqb (length dumps) 0) = IsDumpEnabled c Dump
  else length pre = 4%nat /\ post = [].
Proof.
  unfold initHooks, IsDumpEnabled, Hook_. destruct advanced.
  - cbn [app take]. split; [reflexivity|].
    split; [reflexivity|].
    destruct (Endpoint c); cbn [andb].
    + exists ((if IsModeEnabled Dump "registry" then [(hookDumpRegistry, fltRegSetValue)] else [])
              ++ (if IsModeEnabled Dump "file" then [(hookDumpFiles, fltAnySysmon)] else [])
              ++ (if IsModeEnabled Dump "memory" then [(hookDumpProcess, fltAnySysmon)] else [])).
      destruct (IsModeEnabled Dump "registry"), (IsModeEnabled Dump "file"),
        (IsModeEnabled Dump "memory"); cbn [app orb];
        (split; [reflexivity|]); split; reflexivity.
    + exists []. split; [reflexivity|]. split; reflexivity.
  - cbn [app take]. split; [reflexivity|]. split; reflexivity.
Qed.

End InitHooksFacts.

Lemma nullable_spec r : nullable r = true <-> matches r [].
Proof.
  split.
  - induction r as [| |p|r1 IH1 r2 IH2|r1 IH1 r2 IH2|r IH]; cbn [nullable]; intros H.
    + discriminate.
    + constructor.
    + discriminate.
    + apply andb_true_iff in H as [H1 H2].
      change (@nil ascii) with (@nil ascii ++ []). constructor; auto.
    + apply orb_true_iff in H as [H|H]; [apply m_alt_l | apply m_alt_r]; auto.
    + constructor.
  - intros H. remember (@nil ascii) as t eqn:Ht.
    induction H as [|p c Hp|r1 r2 s1 s2 H1 IH1 H2 IH2|r1 r2 s H IH|r1 r2 s H IH|r|r s1 s2 H1 IH1 H2 IH2];
      cbn [nullable]; try reflexivity.
    + discriminate.
    + apply app_eq_nil in Ht as [-> ->]. rewrite IH1, IH2; reflexivity.
    + rewrite IH; auto.
    + rewrite IH; auto. apply orb_true_r.
Qed.

Lemma deriv_sound c r : forall s, matches (deriv c r) s -> matches r (c :: s).
Proof.
  induction r as [| |p|r1 IH1 r2 IH2|r1 IH1 r2 IH2|r IH]; cbn [deriv]; intros s H.
  - inversion H.
  - inversion H.
  - destruct (p c) eqn:Hp; inversion H; subst. constructor. exact Hp.
  - destruct (nullable r1) eqn:Hn.
    + inversion H as [| |? ? ? ? | ? ? ? Hl | ? ? ? Hr | |]; subst.
      * inversion Hl; subst.
        change (c :: s1 ++ s2) with ((c :: s1) ++ s2). constructor; auto.
      * change (c :: s) with ([] ++ c :: s). constructor; auto.
        apply nullable_spec. exact Hn.
    + inversion H; subst.
      change (c :: s1 ++ s2) with ((c :: s1) ++ s2). constructor; auto.
  - inversion H; subst; [apply m_alt_l | apply m_alt_r]; auto.
  - inversion H; subst.
    change (c :: s1 ++ s2) with ((c :: s1) ++ s2). constructor; auto.
Qed.

Lemma deriv_complete c r s : matches r (c :: s) -> matches (deriv c r) s.
Proof.
  intros H. remember (c :: s) as t eqn:Ht. revert s Ht.
  induction H as [|p d Hp|r1 r2 s1 s2 H1 IH1 H2 IH2|r1 r2 s0 H IH|r1 r2 s0 H IH|r|r s1 s2 H1 IH1 H2 IH2];
    intros s Ht; cbn [deriv].
  - discriminate.
  - injection Ht as -> <-. rewrite Hp. constructor.
  - destruct s1 as [|d s1].
    + cbn [app] in Ht. subst s2.
      assert (Hn : nullable r1 = true) by (apply nullable_spec; exact H1).
      rewrite Hn. apply m_alt_r. apply IH2. reflexivity.
    + cbn [app] in Ht. injection Ht as -> <-.
      destruct (nullable r1); [apply m_alt_l|]; constructor; auto.
  - apply m_alt_l. auto.
  - apply m_alt_r. auto.
  - discriminate.
  - destruct s1 as [|d s1].
    + cbn [app] in Ht. apply IH2. exact Ht.
    + cbn [app] in Ht. injection Ht as -> <-. constructor; auto.
Qed.

Lemma full_match_spec s : forall r, full_match r s = true <-> matches r s.
Proof.
  induction s as [|c s IH]; intros r; cbn [full_match].
  - apply nullable_spec.
  - rewrite IH. split; [apply deriv_sound | apply deriv_complete].
Qed.

Lemma matches_any s : matches (Star AnyChar) s.
Proof.
  induction s as [|c s IH]; [constructor|].
  change (c :: s) with ([c] ++ s). constructor; [|exact IH].
  constructor. reflexivity.
Qed.

(** MatchString looks for a match anywhere in the text. *)
Lemma MatchString_spec r s :
  MatchString r s = true
  <-> exists pre mid post,
        list_ascii_of_string s = pre ++ mid ++ post /\ matches r mid.
Proof.
  unfold MatchString. rewrite full_match_spec. split.
  - intros H. inversion H as [| |? ? pre rest Hpre Hrest| | | |]; subst.
    inversion Hrest as [| |? ? mid post Hmid Hpost| | | |]; subst.
    exists pre, mid, post. split; [congruence | exact Hmid].
  - intros [pre [mid [post [-> Hmid]]]].
    constructor; [apply matches_any|]. constructor; [exact Hmid | apply matches_any].
Qed.

Lemma matches_Repeat_class p n s :
  matches (Repeat n (Class p)) s <-> length s = n /\ forallb p s = true.
Proof.
  revert s. induction n as [|n IH]; intros s; cbn [Repeat].
  - split.
    + intros H. inversion H. split; reflexivity.
    + intros [Hl _]. destruct s; [constructor | discriminate].
  - split.
    + intros H. inversion H as [| |? ? s1 s2 H1 H2| | | |]; subst.
      inversion H1; subst. apply IH in H2 as [Hl Hp].
      cbn. rewrite Hl, Hp. split; [reflexivity|]. rewrite andb_true_r. assumption.
    + intros [Hl Hp]. destruct s as [|c s]; [discriminate|].
      cbn in Hl, Hp. apply andb_true_iff in Hp as [Hc Hp].
      change (c :: s) with ([c] ++ s). constructor; [constructor; exact Hc|].
      apply IH. split; [lia | exact Hp].
Qed.

Lemma archivedRe_run (name : string) :
  MatchString archivedRe name = true ->
  exists pre run post,
    list_ascii_of_string name = pre ++ run ++ post /\
    length run = 32%nat /\ forallb is_upper_hex run = true.
Proof.
  intros H. apply MatchString_spec in H as [pre [mid [post [Heq Hmid]]]].
  unfold archivedRe, AtLeast in Hmid.
  inversion Hmid as [| |? ? s1 s23 H1 H23| | | |]; subst.
  inversion H23 as [| |? ? s2 s3 H2 H3| | | |]; subst.
  inversion H2 as [| |? ? run more Hrun Hmore| | | |]; subst.
  apply (proj1 (matches_Repeat_class is_upper_hex 32 run)) in Hrun as [Hlen Hhex].
  exists (pre ++ s1), run, (more ++ s3 ++ post).
  split; [|split; assumption].
  rewrite Heq, <- !app_assoc. reflexivity.
Qed.

(** X21. The names the archive cleanup takes for archived files are the
    names holding, anywhere, 32 consecutive characters among 0-9 and A-F:
    the prefix CLIP- and the extension play no part. *)
Theorem archived_name_spec (name : string) :
  MatchString archivedRe name = true
  <-> exists pre run post,
        list_ascii_of_string name = pre ++ run ++ post /\
        length run = 32%nat /\ forallb is_upper_hex run = true.
Proof.
  split; [apply archivedRe_run|].
  intros [pre [run [post [Heq [Hlen Hhex]]]]].
  apply MatchString_spec. exists pre, run, post. split; [exact Heq|].
  unfold archivedRe, AtLeast.
  replace run with ([] ++ (run ++ []) ++ []) by (rewrite !app_nil_r; reflexivity).
  constructor; [apply m_alt_l; constructor|].
  constructor; [|apply m_alt_r; constructor].
  constructor; [|constructor].
  apply (proj2 (matches_Repeat_class is_upper_hex 32 run)). split; assumption.
Qed.

Section CleanArchivedFacts.

Variable ModTime : Path -> Z.
Variable undeletable : gset Path.

Lemma log_once_refl st : log_once st st.
Proof. split; [reflexivity | lia]. Qed.

Lemma log_once_trans st1 st2 st3 : log_once st1 st2 -> log_once st2 st3 -> log_once st1 st3.
Proof. intros [H1 H2] [H3 H4]. split; [set_solver | lia]. Qed.

Lemma clean_file_log_once expired dir name st :
  log_once st (clean_file ModTime undeletable expired dir name st).
Proof.
  unfold clean_file.
  destruct (MatchString archivedRe name); [|apply log_once_refl].
  destruct (_ <? _); [|apply log_once_refl].
  destruct (os_Remove _ _ _) as [d [err|]]; [|split; cbn; [reflexivity | lia]].
  destruct (bool_decide_reflect (Join dir name ∈ reported st)) as [Hin|Hnot]; cbn [negb].
  - split; cbn; [reflexivity | lia].
  - split; cbn; [set_solver|].
    rewrite length_app, size_union, size_singleton by set_solver. cbn. lia.
Qed.

Lemma fold_log_once {A} (f : ArchiveState -> A -> ArchiveState) (l : list A) :
  (forall st a, log_once st (f st a)) ->
  forall st, log_once st (fold_left f l st).
Proof.
  intros Hf. induction l as [|a l IH]; intros st; cbn [fold_left].
  - apply log_once_refl.
  - eapply log_once_trans; [apply Hf | apply IH].
Qed.

Lemma clean_pass_log_once root st now :
  log_once st (clean_pass ModTime undeletable root st now).
Proof.
  unfold clean_pass. apply fold_log_once. intros st1 wi.
  unfold clean_item. apply fold_log_once. intros st2 name.
  apply clean_file_log_once.
Qed.

(** X22. However many passes the cleanup loop makes, it logs one line per
    path it failed to remove: starting with nothing reported, the number of
    lines logged is the number of paths marked as reported. *)
Theorem clean_loop_logs_once root (nows : list Z) (d : FS) :
  let st := clean_loop ModTime undeletable root nows
              {| arch_fs := d; reported := ∅; arch_logs := [] |} in
  length (arch_logs st) = size (reported st).
Proof.
  cbv zeta.
  pose proof (fold_log_once (clean_pass ModTime undeletable root) nows
                (clean_pass_log_once root)
                {| arch_fs := d; reported := ∅; arch_logs := [] |}) as [_ H].
  cbn [arch_logs reported length] in H. rewrite size_empty in H.
  unfold clean_loop. lia.
Qed.

Lemma length_list_ascii_of_string s :
  length (list_ascii_of_string s) = String.length s.
Proof. induction s as [|c s IH]; [reflexivity|]. cbn. rewrite IH. reflexivity. Qed.

Lemma archived_name_long name :
  MatchString archivedRe name = true -> (3 <= String.length name)%nat.
Proof.
  intros H. apply archivedRe_run in H as [pre [run [post [Heq [Hlen _]]]]].
  rewrite <- length_list_ascii_of_string, Heq, !length_app, Hlen. lia.
Qed.

Lemma clean_file_files root now p st :
  p <> [] -> root `prefix_of` removelast p ->
  has_separator (Base p) = false ->
  forall q,
    files (arch_fs (clean_file ModTime undeletable (now + Minute * -5)
                      (removelast p) (Base p) st)) !! q
    = if bool_decide (q = p) && doomed ModTime undeletable root now q then None
      else files (arch_fs st) !! q.
Proof.
  intros Hp Hroot Hsep q. unfold clean_file, doomed, archived_expired.
  assert (Hpath : removelast p ++ [Base p] = p)
    by (symmetry; apply app_removelast_last; exact Hp).
  destruct (MatchString archivedRe (Base p)) eqn:Hm.
  - rewrite (Join_file _ _ Hsep (archived_name_long _ Hm)), Hpath.
    destruct (ModTime p <? now + Minute * -5) eqn:Hold.
    + unfold os_Remove.
      destruct (bool_decide_reflect (q = p)) as [->|Hne]; cbn [andb].
      * rewrite Hm, Hold.
        rewrite (bool_decide_eq_true_2 (p ≠ [] ∧ root `prefix_of` removelast p))
          by (split; assumption).
        cbn [andb].
        repeat case_bool_decide; cbn [negb]; try contradiction; try reflexivity;
          match goal with
          | |- context [match ?x with Some _ => _ | None => _ end] => destruct x eqn:Hf
          end; cbn; first [apply lookup_delete_eq | exact Hf].
      * repeat case_bool_decide; cbn [negb]; try reflexivity;
          match goal with
          | |- context [match ?x with Some _ => _ | None => _ end] => destruct x eqn:Hf
          end; cbn; first [apply lookup_delete_ne; congruence | reflexivity].
    + destruct (bool_decide_reflect (q = p)) as [->|Hne]; cbn [andb]; [|reflexivity].
      rewrite Hold, andb_false_r. reflexivity.
  - destruct (bool_decide_reflect (q = p)) as [->|Hne]; cbn [andb]; [|reflexivity].
    rewrite Hm, andb_false_r. reflexivity.
Qed.

Lemma clean_items_files root now (l : list (Path * FileData)) :
  (forall p, p ∈ l.*1 -> root `prefix_of` removelast p -> has_separator (Base p) = false) ->
  forall st q,
    files (arch_fs (fold_left (clean_item ModTime undeletable (now + Minute * -5))
                      (omap (walk_item root) l) st)) !! q
    = if bool_decide (q ∈ l.*1) && doomed ModTime undeletable root now q then None
      else files (arch_fs st) !! q.
Proof.
  induction l as [|[p x] l IH]; intros Hwf st q.
  - reflexivity.
  - cbn [omap list_omap]. unfold walk_item at 1. cbn [fst].
    assert (Hwf' : forall p0, p0 ∈ l.*1 -> root `prefix_of` removelast p0 ->
                              has_separator (Base p0) = false).
    { intros p0 Hin. apply Hwf. cbn. right. exact Hin. }
    destruct (bool_decide_reflect (p ≠ [] ∧ root `prefix_of` removelast p)) as [[Hp Hroot]|Hnot].
    + cbn [fold_left]. rewrite (IH Hwf').
      unfold clean_item at 1. cbn [Files Dirpath fold_left].
      rewrite (clean_file_files root now p st Hp Hroot (Hwf p ltac:(cbn; left) Hroot)).
      cbn [fmap list_fmap fst].
      destruct (doomed ModTime undeletable root now q) eqn:Hd; rewrite ?andb_true_r, ?andb_false_r; [|reflexivity].
      repeat case_bool_decide; try reflexivity; exfalso;
        rewrite ?elem_of_cons in *; tauto.
    + rewrite (IH Hwf'). cbn [fmap list_fmap fst].
      destruct (doomed ModTime undeletable root now q) eqn:Hd; rewrite ?andb_true_r, ?andb_false_r; [|reflexivity].
      assert (Hqp : q <> p).
      { intros ->. unfold doomed, archived_expired in Hd.
        rewrite (bool_decide_eq_false_2 _ Hnot) in Hd. discriminate. }
      repeat case_bool_decide; try reflexivity; exfalso;
        rewrite ?elem_of_cons in *; tauto.
Qed.

(** X23. One pass of the cleanup over a directory whose file names hold no
    path separator removes exactly the files below the directory that have
    the name of an archived file, were modified more than five minutes
    before the pass and can be deleted; every other file is left as it
    was. *)
Theorem clean_pass_exact root (st : ArchiveState) (now : Z) :
  (forall p, is_Some (files (arch_fs st) !! p) -> root `prefix_of` removelast p ->
             has_separator (Base p) = false) ->
  forall q,
    files (arch_fs (clean_pass ModTime undeletable root st now)) !! q
    = if archived_expired ModTime root now q && negb (bool_decide (q ∈ undeletable))
      then None
      else files (arch_fs st) !! q.
Proof.
  intros Hwf q. unfold clean_pass, Walk. cbv zeta.
  rewrite (clean_items_files root now).
  - fold (doomed ModTime undeletable root now q).
    destruct (doomed ModTime undeletable root now q); [|rewrite andb_false_r; reflexivity].
    rewrite andb_true_r.
    destruct (bool_decide_reflect (q ∈ (map_to_list (files (arch_fs st))).*1)) as [Hin|Hnin];
      [reflexivity|].
    destruct (files (arch_fs st) !! q) as [x|] eqn:Hq; [|reflexivity].
    exfalso. apply Hnin. apply list_elem_of_fmap. exists (q, x).
    split; [reflexivity | apply elem_of_map_to_list; exact Hq].
  - intros p Hin. apply Hwf.
    apply list_elem_of_fmap in Hin as [[p' x] [-> Hin]].
    apply elem_of_map_to_list in Hin. cbn. eauto.
Qed.

End CleanArchivedFacts.

Module ManagerCommandsFacts.
Import ManagerCommands.

Section Dispatch.

Context {Out : Type} `{!CommandHandlers Out}.

Implicit Types (cmd : Command Out).

Ltac dispatch_cases :=
  repeat match goal with
  | |- context [match ?x with [] => _ | _ :: _ => _ end] => destruct x
  | |- context [match Atoi ?x with _ => _ end] => destruct (Atoi x) as [? [?|]]
  | |- context [match terminate ?x with _ => _ end] => destruct (terminate x)
  | |- context [store ?r _] => destruct r as [? [?|]]; cbn [store]
  end.

(** X24. The commands the agent handles itself are never handed over as
    runnable: whatever their arguments and whatever the local handler
    answers, the switch marks them unrunnable and keeps their name and
    arguments; only [terminate] terminates a process, and all but
    [terminate] announce a JSON output. *)
Theorem internal_commands_not_spawned cmd :
  Name cmd ∈ internal_commands ->
  let r := dispatch cmd in
  runnable r.1 = false /\ Name r.1 = Name cmd /\ Args r.1 = Args cmd /\
  (Name cmd <> "terminate" -> ExpectJSON r.1 = true /\ r.2 = []).
Proof.
  intros Hin. cbv zeta. destruct cmd as [name args out err json run].
  cbn [Name] in *. unfold internal_commands in Hin.
  repeat (apply elem_of_cons in Hin as [->|Hin]); [..|inversion Hin];
    unfold dispatch; cbn -[Atoi terminate cmdHash cmdStat cmdDir cmdWalk cmdFind store];
    dispatch_cases; cbn; repeat split; intros; try reflexivity; try congruence.
Qed.

(** X25. An internal command that lacks its argument does nothing and says
    nothing: with no argument, [terminate], [hash], [stat], [dir] and [walk]
    leave the output and the error text of the command as they were and
    terminate no process; so does [find] unless it has exactly two
    arguments. *)
Theorem missing_argument_is_silent cmd :
  (Name cmd ∈ ["terminate"; "hash"; "stat"; "dir"; "walk"] /\ Args cmd = []) \/
  (Name cmd = "find" /\ length (Args cmd) <> 2%nat) ->
  let r := dispatch cmd in
  Stdout r.1 = Stdout cmd /\ Error r.1 = Error cmd /\ r.2 = [].
Proof.
  intros Hcase. cbv zeta. destruct cmd as [name args out err json run].
  cbn [Name Args] in *.
  destruct Hcase as [[Hin ->]|[-> Hlen]].
  - repeat (apply elem_of_cons in Hin as [->|Hin]); [..|inversion Hin];
      repeat split.
  - unfold dispatch. cbn -[cmdFind store].
    destruct args as [|a [|b [|c rest]]]; cbn in Hlen; try contradiction;
      repeat split.
Qed.

(** X26. A command whose name is none of those the switch knows goes
    through it untouched: it is handed to the execution machinery as the
    manager sent it. *)
Theorem unknown_command_passes_through cmd :
  Name cmd ∉ aliases ++ internal_commands ->
  dispatch cmd = (cmd, []).
Proof.
  intros Hnot. unfold dispatch. cbv zeta.
  repeat match goal with
  | |- context [String.eqb (Name cmd) ?s] =>
      destruct (String.eqb_spec (Name cmd) s) as [Heq|_];
      [exfalso; apply Hnot; rewrite Heq; unfold aliases, internal_commands;
       cbn [app]; rewrite !elem_of_cons; tauto|]
  end.
  reflexivity.
Qed.

End Dispatch.

End ManagerCommandsFacts.

Module CronFacts.
Import Cron.

Lemma Sub_nonneg t u : u <= t -> 0 <= Sub t u.
Proof. unfold Sub, minDuration, maxDuration. lia. Qed.

Lemma run_starved interval nows : forall ts,
  interval <= 0 -> monotone (lastUpdateTs ts) nows ->
  (run interval ts nows).1 = repeat (Some HandleUpdates) (length nows) /\
  lastUploadTs (run interval ts nows).2 = lastUploadTs ts /\
  lastArchDelTs (run interval ts nows).2 = lastArchDelTs ts /\
  lastCmdRunTs (run interval ts nows).2 = lastCmdRunTs ts.
Proof.
  induction nows as [|now rest IH]; intros ts Hint Hmono.
  - repeat split.
  - destruct Hmono as [Hle Hmono]. cbn [run]. unfold tick.
    pose proof (Sub_nonneg now (lastUpdateTs ts) Hle) as Hsub.
    destruct (Z.geb_spec (Sub now (lastUpdateTs ts)) interval) as [_|Hlt]; [|lia].
    specialize (IH {| lastUpdateTs := now; lastUploadTs := lastUploadTs ts;
                      lastArchDelTs := lastArchDelTs ts; lastCmdRunTs := lastCmdRunTs ts |}
                   Hint Hmono).
    destruct (run interval _ rest) as [cs ts2]. cbn [fst snd] in *.
    destruct IH as [-> [-> [-> ->]]]. repeat split.
Qed.

(** X27. With an update interval of zero or less and a clock that never
    goes back, every turn of the cron routine takes the update case: the
    uploads, the archive cleaning and the commands are never handled, and
    their timestamps stay where they started. *)
Theorem cron_update_starves_the_rest (interval t0 : Z) (nows : list Z) :
  interval <= 0 -> monotone t0 nows ->
  let r := run interval (start t0) nows in
  r.1 = repeat (Some HandleUpdates) (length nows) /\
  lastUploadTs r.2 = t0 /\ lastArchDelTs r.2 = t0 /\ lastCmdRunTs r.2 = t0.
Proof.
  intros Hint Hmono. cbv zeta. apply (run_starved interval nows (start t0) Hint Hmono).
Qed.

End CronFacts.

(** * The statements at concrete inputs *)

Module Examples.
Import Sample.

Lemma fetch_integrity_witness :
  (exists w',
     fetchRulesFromManager (forged_agent, world synced_disk)
     = (Some "failed to verify rules integrity", (forged_agent, w')) /\
     fs w' = synced_disk) /\
  (exists w',
     fetchContainersFromManager (forged_agent, world synced_disk)
     = (Some (integrity_error "blacklist"), (forged_agent, w')) /\
     fs w' = synced_disk).
Proof.
  destruct (fetch_integrity forged_agent (world synced_disk)) as [Hrules Hconts].
  split.
  - apply (Hrules "sha256:forged" "rule-text");
      [reflexivity | reflexivity | reflexivity | discriminate].
  - destruct (Hconts [] "blacklist" [] ["evil.exe"]
                (add_call CallGetContainersList (world synced_disk)))
      as (w' & Hrun & _ & Hfs).
    + reflexivity.
    + reflexivity.
    + reflexivity.
    + vm_compute. discriminate.
    + reflexivity.
    + vm_compute. discriminate.
    + exists w'. split; [exact Hrun | apply Hfs; constructor].
Defined.

(** The claim of C2 fails here: the rule file is not a rule, the rebuild
    returns the error, and the active engine is no longer the previous one
    (three rules) but the new, empty one. *)
Lemma failed_rule_load_replaces_engine :
  (updateEngine true (standalone, world broken_rules_disk)).1
  = Some "failed to load rules: invalid rule" /\
  Engine standalone = old_engine /\
  Count old_engine = 3 /\
  Engine (updateEngine true (standalone, world broken_rules_disk)).2.1 <> old_engine /\
  Count (Engine (updateEngine true (standalone, world broken_rules_disk)).2.1) = 0.
Proof.
  split; [vm_compute; reflexivity|]. split; [reflexivity|].
  split; [reflexivity|]. split; [vm_compute; discriminate | vm_compute; reflexivity].
Qed.

Lemma rule_load_failure_witness :
  updateEngine true (standalone, world broken_rules_disk)
  = (Some "failed to load rules: invalid rule",
     (set_Engine newActionnableEngine standalone, world broken_rules_disk)).
Proof.
  refine (proj1 (rule_load_failure standalone (world broken_rules_disk) true false false
                   standalone (world broken_rules_disk)
                   (set_Engine newActionnableEngine standalone) (world broken_rules_disk)
                   newActionnableEngine "invalid rule" _ _ _ _ _));
    vm_compute; reflexivity.
Defined.

(** The claim of C3 fails here: one container file is not a gzip stream;
    the other container is loaded, but updateEngine returns the error and
    the rule directory, which holds a good rule, is not loaded. *)
Lemma container_failure_blocks_rules :
  (updateEngine true (standalone, world broken_container_disk)).1
  = Some "error loading containers: gzip: invalid header" /\
  containers (Engine (updateEngine true (standalone, world broken_container_disk)).2.1)
  = [("good", container_payload ["evil.exe"])] /\
  Count (Engine (updateEngine true (standalone, world broken_container_disk)).2.1) = 0 /\
  (LoadDirectory broken_container_disk rulesDB newActionnableEngine).2 = None /\
  Count (LoadDirectory broken_container_disk rulesDB newActionnableEngine).1 = 1.
Proof. repeat split; vm_compute; reflexivity. Qed.

Lemma container_load_failures_witness :
  loadContainers (set_Engine newActionnableEngine standalone, world broken_container_disk)
  = (Some "gzip: invalid header",
     (set_Engine
        (LoadContainer "good" (container_payload ["evil.exe"]) newActionnableEngine)
        standalone,
      world broken_container_disk)) /\
  updateEngine true (standalone, world broken_container_disk)
  = (Some "error loading containers: gzip: invalid header",
     (set_Engine
        (LoadContainer "good" (container_payload ["evil.exe"]) newActionnableEngine)
        standalone,
      world broken_container_disk)).
Proof.
  pose proof (container_load_failures standalone (world broken_container_disk)
                true false false standalone (world broken_container_disk)
                "gzip: invalid header" eq_refl eq_refl) as Hload.
  cbv zeta in Hload.
  assert (Hlast : last (container_errors (fs (world broken_container_disk))
                    (container_files (Walk (fs (world broken_container_disk))
                       (ContainersDB (RulesConfig (config standalone))))))
                  = Some "gzip: invalid header") by (vm_compute; reflexivity).
  specialize (Hload Hlast). destruct Hload as [_ Hload].
  assert (Hall : load_all
                   (loaded_containers (fs (world broken_container_disk))
                      (container_files (Walk (fs (world broken_container_disk))
                         (ContainersDB (RulesConfig (config standalone))))))
                   newActionnableEngine
                 = LoadContainer "good" (container_payload ["evil.exe"]) newActionnableEngine)
    by (vm_compute; reflexivity).
  rewrite Hall in Hload. exact Hload.
Defined.

(** The claim of C9 fails here: the fetch of the digest of the listed
    container fails, and needsContainersUpdate answers true. *)
Lemma digest_fetch_failure_is_stale :
  GetContainersList (Client (forwarder flaky_agent)) = (["blacklist"], None) /\
  GetContainerSha256 (Client (forwarder flaky_agent)) "blacklist"
  = ("", Some "connection reset") /\
  Local (forwarder flaky_agent) = false /\
  (needsContainersUpdate (flaky_agent, world synced_disk)).1 = true.
Proof. repeat split; vm_compute; reflexivity. Qed.

Lemma staleness_predicates_witness :
  ((needsRulesUpdate (honest_agent, world synced_disk)).1 = false /\
   (needsContainersUpdate (honest_agent, world synced_disk)).1 = false /\
   exists tr,
     calls (updateEngine false (honest_agent, world synced_disk)).2.2 = [] ++ tr /\
     Forall not_rules tr) /\
  needsRulesUpdate (standalone, world empty_disk) = (false, (standalone, world empty_disk)) /\
  needsContainersUpdate (standalone, world empty_disk) = (false, (standalone, world empty_disk)) /\
  (needsRulesUpdate (flaky_agent, world synced_disk)).1 = false.
Proof.
  destruct (staleness_predicates honest_agent (world synced_disk))
    as (Hrules & _ & Hconts & _).
  destruct (Hrules (Sha256 "rule-text") eq_refl eq_refl) as [Hr Htr].
  destruct (Hconts ["blacklist"] eq_refl) as [Hc _].
  { repeat constructor. }
  destruct (staleness_predicates standalone (world empty_disk))
    as (_ & _ & _ & Hlocal & _).
  destruct (Hlocal eq_refl) as [Hl1 Hl2].
  destruct (staleness_predicates flaky_agent (world synced_disk))
    as (_ & _ & _ & _ & Hfail & _).
  pose proof (Hfail "" "connection reset" eq_refl) as Hf.
  repeat split; try assumption. exact (Htr false).
Defined.

(** The claim of C4 fails here: the record cannot be converted, yet it is
    processed and the scanned-event counter goes from 0 to 1. *)
Lemma malformed_record_is_counted :
  (XMLEventToGoEvtxMap "garbage").2 = Some "json: unsupported value" /\
  eventScanned standalone = 0 /\
  eventScanned (handle_record "garbage" (standalone, world empty_disk)).2.1 = 1.
Proof. repeat split; vm_compute; reflexivity. Qed.

Lemma self_events_skipped_witness :
  self_event standalone ev_self /\
  isSysmonProcessTerminate ev_self = false /\
  handle_record "self" (standalone, world empty_disk) = (tt, (standalone, world empty_disk)) /\
  isSysmonProcessTerminate ev_self_exit = true /\
  eventScanned (handle_record "self-exit" (standalone, world empty_disk)).2.1 = 1.
Proof.
  assert (Hself : self_event standalone ev_self) by (right; left; reflexivity).
  assert (Hprep : prepare_event "self" (standalone, world empty_disk)
                  = (ev_self, (standalone, world empty_disk)))
    by (vm_compute; reflexivity).
  assert (Hprep' : prepare_event "self-exit" (standalone, world empty_disk)
                   = (ev_self_exit, (standalone, world empty_disk)))
    by (vm_compute; reflexivity).
  destruct (self_events_skipped "self" standalone (world empty_disk)
              ev_self standalone (world empty_disk) Hprep) as (_ & Hskip & _).
  destruct (self_events_skipped "self-exit" standalone (world empty_disk)
              ev_self_exit standalone (world empty_disk) Hprep') as (_ & _ & Hexit).
  split; [exact Hself|]. split; [reflexivity|].
  split; [exact (Hskip Hself eq_refl)|]. split; [reflexivity|].
  exact (proj2 (Hexit eq_refl)).
Defined.

Lemma alert_forwarded_witness :
  Pipe (forwarder (handle_record "alert" (standalone, world empty_disk)).2.1)
  = [<[GeneInfoPath ++ ["Criticality"] := VNumber 8]> ev_alert] /\
  memdumped (tracked (handle_record "alert" (standalone, world empty_disk)).2.1)
  = {[ "Mimikatz" ]} /\
  alertReported (handle_record "alert" (standalone, world empty_disk)).2.1 = 1 /\
  eventScanned (handle_record "alert" (standalone, world empty_disk)).2.1 = 1.
Proof.
  assert (Hprep : prepare_event "alert" (standalone, world empty_disk)
                  = (ev_alert, (standalone, world empty_disk)))
    by (vm_compute; reflexivity).
  assert (Hmatch : MatchOrFilter (Engine standalone) ev_alert
                   = (old_engine, <[GeneInfoPath ++ ["Criticality"] := VNumber 8]> ev_alert,
                      (["Mimikatz"], 8, false)))
    by (vm_compute; reflexivity).
  assert (Hcrit : CritTresh (config standalone) <= 8) by (vm_compute; discriminate).
  destruct (alert_forwarded "alert" standalone (world empty_disk)
              ev_alert standalone (world empty_disk) old_engine _ _ 8 false
              Hprep eq_refl Hmatch (or_introl (Nat.lt_0_succ 0)) Hcrit eq_refl eq_refl)
    as (Hpipe & Hhooks & Halert & _ & Hscan & _).
  split; [exact Hpipe|]. split; [rewrite Hhooks; vm_compute; reflexivity|].
  split; [exact Halert | exact Hscan].
Defined.

(** The claim of C6 fails here: the event is not one of the IDS, nothing
    matched it, and its criticality (0) reaches the threshold (0); LogAll
    and PrintAll are disabled; nothing is piped and the alert counter
    stays at 0. *)
Lemma unmatched_event_is_not_forwarded :
  prepare_event "benign" (lenient, world empty_disk)
  = (ev_benign, (lenient, world empty_disk)) /\
  IsHIDSEvent lenient ev_benign = false /\
  MatchOrFilter (Engine lenient) ev_benign = (old_engine, ev_benign, ([], 0, false)) /\
  CritTresh (config lenient) <= 0 /\
  LogAll (config lenient) = false /\
  PrintAll lenient = false /\
  Pipe (forwarder (handle_record "benign" (lenient, world empty_disk)).2.1) = [] /\
  alertReported (handle_record "benign" (lenient, world empty_disk)).2.1 = 0.
Proof.
  repeat split; try (vm_compute; reflexivity). vm_compute. discriminate.
Qed.

Lemma filtered_forwarded_witness :
  Pipe (forwarder (handle_record "filtered" (standalone, world empty_disk)).2.1)
  = [Del GeneInfoPath (<[GeneInfoPath ++ ["Criticality"] := VNumber 0]> ev_filtered)] /\
  Del GeneInfoPath (<[GeneInfoPath ++ ["Criticality"] := VNumber 0]> ev_filtered)
    !! (GeneInfoPath ++ ["Criticality"]) = None /\
  alertReported (handle_record "filtered" (standalone, world empty_disk)).2.1 = 0.
Proof.
  assert (Hprep : prepare_event "filtered" (standalone, world empty_disk)
                  = (ev_filtered, (standalone, world empty_disk)))
    by (vm_compute; reflexivity).
  assert (Hmatch : MatchOrFilter (Engine standalone) ev_filtered
                   = (old_engine, <[GeneInfoPath ++ ["Criticality"] := VNumber 0]> ev_filtered,
                      ([], 0, true)))
    by (vm_compute; reflexivity).
  assert (Hcrit : 0 < CritTresh (config standalone)) by (vm_compute; reflexivity).
  destruct (filtered_forwarded "filtered" standalone (world empty_disk)
              ev_filtered standalone (world empty_disk) old_engine _ _ 0
              Hprep eq_refl Hmatch Hcrit eq_refl eq_refl eq_refl)
    as (Hpipe & Hgone & _ & Halert & _).
  split; [exact Hpipe|]. split; [|exact Halert].
  apply Hgone. exists ["Criticality"]. reflexivity.
Defined.

Lemma container_name_round_trip_witness :
  has_dot "blacklist" = false /\
  has_separator "blacklist" = false /\
  Base (containerPaths honest_agent "blacklist").1 = "blacklist.cont.gz" /\
  SplitN_dot_head (Base (containerPaths honest_agent "blacklist").1) = "blacklist".
Proof.
  assert (Hw : (containerPaths honest_agent "blacklist").1 ∉ unwritable (fs (world empty_disk)))
    by apply not_elem_of_empty.
  assert (Hr : (containerPaths honest_agent "blacklist").1 ∉ unreadable (fs (world empty_disk)))
    by apply not_elem_of_empty.
  destruct (container_name_round_trip honest_agent (world empty_disk) "blacklist" "payload"
              eq_refl eq_refl Hw Hr) as ((Hfile & _ & Hname) & _).
  split; [reflexivity|]. split; [reflexivity|]. split; [exact Hfile | exact Hname].
Defined.

(** The claim of C10 fails here: the name holds no dot, yet the container
    is persisted in a file named after the text behind the separator, and
    it is loaded back under that name. *)
Lemma separator_in_container_name :
  has_dot "/x" = false /\
  (fetchContainersFromManager (slash_agent, world empty_disk)).1 = None /\
  (containerPaths slash_agent "/x").1 = containersDB ++ ["x.cont.gz"] /\
  SplitN_dot_head (Base (containerPaths slash_agent "/x").1) = "x" /\
  containers
    (Engine (loadContainers
               (set_Engine newActionnableEngine slash_agent,
                (fetchContainersFromManager (slash_agent, world empty_disk)).2.2)).2.1)
  = [("x", container_payload ["evil.exe"])].
Proof. repeat split; vm_compute; reflexivity. Qed.

End Examples.

(** * The further statements at concrete inputs *)

Module MoreExamples.
Import Sample MoreSample.

Ltac side_condition :=
  first [ reflexivity
        | apply not_elem_of_empty
        | let H := fresh in
          intros H; vm_compute in H; discriminate H ].

Lemma rules_fetch_converges_witness :
  let r := fetchRulesFromManager (honest_agent, world empty_disk) in
  r.1 = None /\
  r.2.1 = honest_agent /\
  files (fs r.2.2) !! (RulesPaths honest_agent).1 = Some (Plain "rule-text") /\
  files (fs r.2.2) !! (RulesPaths honest_agent).2 = Some (Plain (Sha256 "rule-text")) /\
  (needsRulesUpdate r.2).1 = false.
Proof.
  apply (rules_fetch_converges honest_agent (world empty_disk) "rule-text");
    first [reflexivity | apply not_elem_of_empty].
Defined.

Lemma rules_fetch_torn_witness :
  let r := fetchRulesFromManager (honest_agent, world readonly_rules_disk) in
  r.1 = Some "open: access is denied" /\
  files (fs r.2.2) !! (RulesPaths honest_agent).1 = None /\
  files (fs r.2.2) !! (RulesPaths honest_agent).2 = Some (Plain (Sha256 "rule-text")) /\
  (needsRulesUpdate r.2).1 = false.
Proof.
  apply (rules_fetch_torn honest_agent (world readonly_rules_disk) "rule-text");
    side_condition.
Defined.

Lemma rules_fetch_digest_write_unchecked_witness :
  let r := fetchRulesFromManager (honest_agent, world readonly_digest_disk) in
  r.1 = None /\
  files (fs r.2.2) !! (RulesPaths honest_agent).1 = Some (Plain "rule-text") /\
  files (fs r.2.2) !! (RulesPaths honest_agent).2 = None /\
  (needsRulesUpdate r.2).1 = (needsRulesUpdate (honest_agent, world readonly_digest_disk)).1.
Proof.
  apply (rules_fetch_digest_write_unchecked honest_agent (world readonly_digest_disk) "rule-text");
    side_condition.
Defined.

Lemma containers_fetch_converges_witness :
  let r := fetchContainersFromManager (honest_agent, world empty_disk) in
  r.1 = None /\ r.2.1 = honest_agent /\
  Forall (fun n => local_digest honest_agent r.2.2 n = reported_digest honest_agent n)
         ["blacklist"] /\
  (needsContainersUpdate r.2).1 = false.
Proof.
  apply (containers_fetch_converges honest_agent (world empty_disk) ["blacklist"]).
  - reflexivity.
  - reflexivity.
  - constructor; [reflexivity | constructor].
  - constructor; [|constructor]. exists ["evil.exe"]. split; reflexivity.
  - constructor; [|constructor].
    split; [apply not_elem_of_empty|]. split; apply not_elem_of_empty.
Defined.

Lemma container_paths_disjoint_witness :
  ((containerPaths standalone "blacklist").1 = (containerPaths standalone "whitelist").1 ->
   "blacklist" = "whitelist") /\
  ((containerPaths standalone "blacklist").2 = (containerPaths standalone "whitelist").2 ->
   "blacklist" = "whitelist") /\
  (containerPaths standalone "blacklist").1 <> (containerPaths standalone "whitelist").2.
Proof.
  exact (container_paths_disjoint standalone "blacklist" "whitelist" eq_refl eq_refl).
Defined.


Lemma standalone_update_offline_witness :
  let r := updateEngine true (standalone, world synced_disk) in
  calls r.2.2 = [] /\ fs r.2.2 = synced_disk.
Proof.
  destruct (standalone_update_offline true standalone (world synced_disk) eq_refl)
    as [Hcalls [Hfs _]].
  split; [exact Hcalls | exact Hfs].
Defined.

Lemma container_only_update_drops_rules_witness :
  (refresh (honest_agent, world rules_synced_disk)).1 = (false, true) /\
  files rules_synced_disk !! (rulesDB ++ ["database.gen"]) = Some (Plain "rule-text") /\
  Count (Engine (updateEngine false (honest_agent, world rules_synced_disk)).2.1) = 0 /\
  Count old_engine = 3.
Proof.
  assert (Hrefresh : refresh (honest_agent, world rules_synced_disk)
                     = ((false, true),
                        (honest_agent, (refresh (honest_agent, world rules_synced_disk)).2.2)))
    by (vm_compute; reflexivity).
  pose proof (container_only_update_drops_rules honest_agent (world rules_synced_disk)
                honest_agent _ Hrefresh) as Hrun.
  cbv zeta in Hrun. rewrite Hrun.
  split; [vm_compute; reflexivity|]. split; [vm_compute; reflexivity|].
  split; vm_compute; reflexivity.
Defined.

Lemma log_all_forwards_each_event_witness :
  let hf := (handle_record "alert" (logging_agent, world empty_disk)).2.1 in
  Pipe (forwarder hf)
  = [(RunHooksOn (postHooks logging_agent) (tracked logging_agent)
        (MatchOrFilter (Engine logging_agent) ev_alert).1.2).2] /\
  alertReported hf = 1 /\
  eventScanned hf = 1.
Proof.
  assert (Hprep : prepare_event "alert" (logging_agent, world empty_disk)
                  = (ev_alert, (logging_agent, world empty_disk)))
    by (vm_compute; reflexivity).
  assert (Hmatch : MatchOrFilter (Engine logging_agent) ev_alert
                   = (old_engine, (MatchOrFilter (Engine logging_agent) ev_alert).1.2,
                      (["Mimikatz"], 8, false)))
    by (vm_compute; reflexivity).
  destruct (log_all_forwards_each_event "alert" logging_agent (world empty_disk)
              ev_alert logging_agent (world empty_disk) old_engine _ ["Mimikatz"] 8 false
              Hprep eq_refl Hmatch eq_refl) as [Hpipe [Halert Hscan]].
  split; [exact Hpipe|]. split; [exact Halert | exact Hscan].
Defined.

Lemma print_all_prints_each_record_witness :
  let r := handle_record "self" (printing_agent, world empty_disk) in
  exists e,
    stdout r.2.2 = [e] /\
    Pipe (forwarder r.2.1) = [].
Proof.
  destruct (print_all_prints_each_record "self" printing_agent (world empty_disk) eq_refl)
    as [e [Hout [_ Hpipe]]].
  exists e. split; [exact Hout | exact (Hpipe eq_refl)].
Defined.

Lemma quiet_event_witness :
  let hf := (handle_record "benign" (standalone, world empty_disk)).2.1 in
  Pipe (forwarder hf) = [] /\
  alertReported hf = 0 /\
  eventScanned hf = 1.
Proof.
  assert (Hprep : prepare_event "benign" (standalone, world empty_disk)
                  = (ev_benign, (standalone, world empty_disk)))
    by (vm_compute; reflexivity).
  assert (Hmatch : MatchOrFilter (Engine standalone) ev_benign
                   = (old_engine, ev_benign, ([], 0, false)))
    by (vm_compute; reflexivity).
  destruct (quiet_event "benign" standalone (world empty_disk)
              ev_benign standalone (world empty_disk) old_engine ev_benign [] 0 false
              Hprep eq_refl Hmatch eq_refl (or_introl (conj eq_refl eq_refl)))
    as [Hpipe [Halert [_ [_ Hscan]]]].
  split; [exact Hpipe|]. split; [exact Halert | exact Hscan].
Defined.

Lemma initChannels_order_free_witness :
  initChannels ["sysmon"; "Security"; "sysmon"] ∅ = initChannels ["Security"; "sysmon"] ∅.
Proof.
  apply (initChannels_order_free ["sysmon"; "Security"; "sysmon"] ["Security"; "sysmon"] ∅).
  intros a. rewrite !elem_of_cons, !elem_of_nil. tauto.
Defined.

Lemma all_covers_aliases_witness :
  initChannels ["ps"; "all"] ∅ = initChannels ["all"] ∅.
Proof.
  apply (all_covers_aliases "ps" "Microsoft-Windows-PowerShell/Operational" ["all"] ∅).
  - vm_compute. reflexivity.
  - discriminate.
  - apply elem_of_cons. left. reflexivity.
Defined.

Lemma IsModeEnabled_combined_witness :
  IsModeEnabled (dump_mode "file|registry") "registry"
  = IsModeEnabled (dump_mode "file") "registry" || IsModeEnabled (dump_mode "registry") "registry".
Proof.
  exact (IsModeEnabled_combined (dump_mode "file|registry") (dump_mode "file")
           (dump_mode "registry") "registry" eq_refl eq_refl).
Defined.

Lemma clean_pass_exact_witness :
  files (arch_fs (clean_pass old_files ∅ archive_dir archive_state (10 * Minute)))
    !! archived_file = None /\
  files archive_disk !! archived_file = Some (Plain "MZ").
Proof.
  assert (Hwf : forall p, is_Some (files (arch_fs archive_state) !! p) ->
                          archive_dir `prefix_of` removelast p ->
                          has_separator (Base p) = false).
  { intros p [x Hx] _. apply elem_of_list_to_map_2 in Hx.
    apply elem_of_cons in Hx as [Hx|Hx]; [|inversion Hx].
    injection Hx as -> _. reflexivity. }
  split; [|vm_compute; reflexivity].
  rewrite (clean_pass_exact old_files ∅ archive_dir archive_state (10 * Minute) Hwf archived_file).
  vm_compute. reflexivity.
Defined.

Lemma internal_commands_not_spawned_witness :
  let r := ManagerCommands.dispatch (command "hash" ["C:/file.exe"]) in
  ManagerCommands.runnable r.1 = false /\
  ManagerCommands.Name r.1 = "hash" /\
  ManagerCommands.Args r.1 = ["C:/file.exe"].
Proof.
  destruct (ManagerCommandsFacts.internal_commands_not_spawned (command "hash" ["C:/file.exe"]))
    as [Hrun [Hname [Hargs _]]].
  - unfold ManagerCommands.internal_commands. cbn. rewrite !elem_of_cons. tauto.
  - split; [exact Hrun|]. split; [exact Hname | exact Hargs].
Defined.

Lemma missing_argument_is_silent_witness :
  let r := ManagerCommands.dispatch (command "find" ["C:/"]) in
  ManagerCommands.Stdout r.1 = None /\ ManagerCommands.Error r.1 = "" /\ r.2 = [].
Proof.
  apply (ManagerCommandsFacts.missing_argument_is_silent (command "find" ["C:/"])).
  right. split; [reflexivity | discriminate].
Defined.

Lemma unknown_command_passes_through_witness :
  ManagerCommands.dispatch (command "whoami.exe" ["/all"]) = (command "whoami.exe" ["/all"], []).
Proof.
  apply (ManagerCommandsFacts.unknown_command_passes_through (command "whoami.exe" ["/all"])).
  unfold ManagerCommands.aliases, ManagerCommands.internal_commands. cbn.
  rewrite !elem_of_cons, elem_of_nil.
  intros H. repeat (destruct H as [H|H]; [discriminate H|]). exact H.
Defined.

Lemma cron_update_starves_the_rest_witness :
  let r := Cron.run 0 (Cron.start 100) [101; 102; 103] in
  r.1 = [Some Cron.HandleUpdates; Some Cron.HandleUpdates; Some Cron.HandleUpdates] /\
  Cron.lastUploadTs r.2 = 100 /\ Cron.lastArchDelTs r.2 = 100 /\ Cron.lastCmdRunTs r.2 = 100.
Proof.
  apply (CronFacts.cron_update_starves_the_rest 0 100 [101; 102; 103]).
  - lia.
  - cbn. lia.
Defined.

End MoreExamples.
